(** * gemini-proxy: a shallow embedding of the credential pool and the forwarder

    The Go sources embedded here are
    - [util/redis/redis.go]  (module [redis]),
    - the later revision of the same file that stores JSON records
      (module [redis2]),
    - [handler/handler.go]   (module [handler]),
    - [api/index.go]         (module [api]).

    Go strings are byte strings: they are modelled by [string], whose
    elements are the 256 values of [ascii]; [len] and slicing count bytes. *)

From Stdlib Require Import ZArith String Ascii List Lia Permutation.
From stdpp Require Import base tactics option list strings gmap fin_maps.

Set Warnings "-register-all".

Local Open Scope string_scope.
Local Open Scope Z_scope.

(** A result or an error, for the Go functions that return [(T, error)]. *)
Inductive result (E A : Type) :=
| Ok (a : A)
| Err (e : E).
Arguments Ok {E A} a.
Arguments Err {E A} e.

(** ** The Go runtime: integers, byte strings, package [strings] *)
Module Go.

(** [int] is 64 bits wide on the platforms the proxy is built for; arithmetic
    wraps around in two's complement. *)
Definition int_bits : Z := 64.
Definition max_int : Z := 2 ^ 63 - 1.

Definition wrap (z : Z) : Z :=
  (z + 2 ^ 63) mod 2 ^ 64 - 2 ^ 63.

Definition add (a b : Z) : Z := wrap (a + b).

(** [a % b] truncates towards zero, like [Z.rem]; the callers below only
    divide by a length they have tested to be non-zero. *)
Definition rem (a b : Z) : Z := Z.rem a b.

(** [len(s)] *)
Definition len (s : string) : nat := String.length s.

(** [s[lo:hi]] and [s[lo:]] for indices in range. *)
Definition slice (s : string) (lo hi : nat) : string :=
  substring lo (hi - lo) s.

Definition slice_from (s : string) (lo : nat) : string :=
  substring lo (String.length s - lo) s.

(** [strings.Split(s, sep)] for a separator of one byte. *)
Fixpoint Split (s : string) (sep : ascii) : list string :=
  match s with
  | EmptyString => [EmptyString]
  | String c s' =>
      if Ascii.eqb c sep then EmptyString :: Split s' sep
      else match Split s' sep with
           | [] => [String c EmptyString]
           | h :: t => String c h :: t
           end
  end.

(** The white space [strings.TrimSpace] removes, on ASCII input:
    tab, line feed, vertical tab, form feed, carriage return and space. *)
Definition isSpace (c : ascii) : bool :=
  let n := nat_of_ascii c in
  ((9 <=? n) && (n <=? 13))%nat || (n =? 32)%nat.

Fixpoint TrimLeft (s : string) : string :=
  match s with
  | EmptyString => EmptyString
  | String c s' => if isSpace c then TrimLeft s' else s
  end.

Fixpoint TrimRight (s : string) : string :=
  match s with
  | EmptyString => EmptyString
  | String c s' =>
      match TrimRight s' with
      | EmptyString => if isSpace c then EmptyString else String c EmptyString
      | r => String c r
      end
  end.

Definition TrimSpace (s : string) : string := TrimRight (TrimLeft s).

(** [strings.Cut(s, sep)] for a separator of one byte: the text before and
    after the first [sep], and whether [sep] was found. *)
Fixpoint Cut (s : string) (sep : ascii) : string * string * bool :=
  match s with
  | EmptyString => (EmptyString, EmptyString, false)
  | String c s' =>
      if Ascii.eqb c sep then (EmptyString, s', true)
      else let '(b, a, f) := Cut s' sep in (String c b, a, f)
  end.

(** [strings.Contains] for one byte, and for a substring. *)
Fixpoint ContainsByte (s : string) (c : ascii) : bool :=
  match s with
  | EmptyString => false
  | String d s' => Ascii.eqb d c || ContainsByte s' c
  end.

Fixpoint Contains (s sub : string) : bool :=
  String.prefix sub s ||
  match s with
  | EmptyString => false
  | String _ s' => Contains s' sub
  end.

(** [strings.Join] *)
Fixpoint Join (l : list string) (sep : string) : string :=
  match l with
  | [] => EmptyString
  | [x] => x
  | x :: r => x +:+ sep +:+ Join r sep
  end.

(** The double quote, which a string literal of this file cannot hold. *)
Definition dq : ascii := ascii_of_nat 34.

(** [requote s] is [s] with every apostrophe turned into a double quote: the
    JSON texts used as examples are written with apostrophes. *)
Fixpoint requote (s : string) : string :=
  match s with
  | EmptyString => EmptyString
  | String c s' => String (if Ascii.eqb c "'"%char then dq else c) (requote s')
  end.

End Go.

(** ** Package [unicode/utf8] *)
Module utf8.

Definition byte (n : N) : ascii := ascii_of_N (n mod 256).

(** The UTF-8 encoding of a code point. *)
Definition encode (n : N) : string :=
  (if n <? 128 then String (byte n) EmptyString
   else if n <? 2048 then
     String (byte (192 + n / 64)) (String (byte (128 + n mod 64)) EmptyString)
   else if n <? 65536 then
     String (byte (224 + n / 4096))
       (String (byte (128 + (n / 64) mod 64))
          (String (byte (128 + n mod 64)) EmptyString))
   else
     String (byte (240 + n / 262144))
       (String (byte (128 + (n / 4096) mod 64))
          (String (byte (128 + (n / 64) mod 64))
             (String (byte (128 + n mod 64)) EmptyString))))%N.

(** [utf8.RuneError], the replacement character. *)
Definition RuneError : N := 65533.

Definition between (lo hi : nat) (c : ascii) : bool :=
  let n := nat_of_ascii c in ((lo <=? n) && (n <=? hi))%nat.

Definition cont (c : ascii) : bool := between 128 191 c.

(** [utf8.DecodeRuneInString] on a non-empty text: the bytes of the first
    rune, whether they are well-formed UTF-8 (if not, the rune is
    [RuneError] and one byte wide), and the text after it. *)
Definition DecodeRune (s : string) : string * bool * string :=
  match s with
  | EmptyString => (EmptyString, false, EmptyString)
  | String c r =>
      let bad := (String c EmptyString, false, r) in
      let n := nat_of_ascii c in
      if (n <? 128)%nat then (String c EmptyString, true, r)
      else if between 194 223 c then
        match r with
        | String c1 r1 =>
            if cont c1 then (String c (String c1 EmptyString), true, r1)
            else bad
        | _ => bad
        end
      else if between 224 239 c then
        match r with
        | String c1 (String c2 r2) =>
            let second :=
              if (n =? 224)%nat then between 160 191 c1
              else if (n =? 237)%nat then between 128 159 c1
              else cont c1 in
            if second && cont c2
            then (String c (String c1 (String c2 EmptyString)), true, r2)
            else bad
        | _ => bad
        end
      else if between 240 244 c then
        match r with
        | String c1 (String c2 (String c3 r3)) =>
            let second :=
              if (n =? 240)%nat then between 144 191 c1
              else if (n =? 244)%nat then between 128 143 c1
              else cont c1 in
            if second && cont c2 && cont c3
            then (String c (String c1 (String c2 (String c3 EmptyString))),
                  true, r3)
            else bad
        | _ => bad
        end
      else bad
  end.

End utf8.

(** ** Package [encoding/json]

    Decoding is a parameter of the development (class [Decoder]): the
    theorems about the credential store hold for every decoder.  A reference
    decoder for JSON texts, [reference], is given for running the model. *)
Module json.

Inductive Value :=
| Null
| Bool (b : bool)
| Number (literal : string)
| Str (s : string)
| Array (elements : list Value)
| Object (members : list (string * Value)).

Class Decoder := { decode : string -> option Value }.

(** [json.Unmarshal(data, &m)] for [m] of type [map[string]interface{}],
    starting from a nil map: an object fills the map (a repeated name keeps
    its last value), [null] leaves the map nil, every other text is an
    error.  A nil map and an empty map answer lookups alike. *)
Definition fill {A} (f : Value -> A) (kvs : list (string * Value))
  : gmap string A :=
  fold_left (fun m kv => <[kv.1 := f kv.2]> m) kvs ∅.

Definition Unmarshal_any `{Decoder} (data : string)
  : option (gmap string Value) :=
  match decode data with
  | Some (Object kvs) => Some (fill id kvs)
  | Some Null => Some ∅
  | _ => None
  end.

(** [json.Unmarshal(data, &m)] for [m] of type [map[string]string]: as
    above, and a member that is neither a string nor [null] is an
    [UnmarshalTypeError]; a [null] member stores the empty string. *)
Definition str_member (v : Value) : option string :=
  match v with
  | Str s => Some s
  | Null => Some EmptyString
  | _ => None
  end.

Definition Unmarshal_str `{Decoder} (data : string)
  : option (gmap string string) :=
  match decode data with
  | Some (Object kvs) =>
      if forallb (fun kv => bool_decide (is_Some (str_member kv.2))) kvs
      then Some (fill (fun v => default EmptyString (str_member v)) kvs)
      else None
  | Some Null => Some ∅
  | _ => None
  end.

(** *** The reference decoder *)

Definition is_ws (c : ascii) : bool :=
  let n := nat_of_ascii c in
  ((n =? 32) || (n =? 9) || (n =? 10) || (n =? 13))%nat.

Fixpoint skip_ws (s : string) : string :=
  match s with
  | String c s' => if is_ws c then skip_ws s' else s
  | EmptyString => EmptyString
  end.

Definition is_digit (c : ascii) : bool :=
  let n := nat_of_ascii c in ((48 <=? n) && (n <=? 57))%nat.

Definition hex_val (c : ascii) : option N :=
  let n := N_of_ascii c in
  if ((48 <=? n) && (n <=? 57))%N then Some (n - 48)%N
  else if ((97 <=? n) && (n <=? 102))%N then Some (n - 87)%N
  else if ((65 <=? n) && (n <=? 70))%N then Some (n - 55)%N
  else None.

(** Four hexadecimal digits, as after a backslash and [u]. *)
Definition getu4 (s : string) : option (N * string) :=
  match s with
  | String a (String b (String c (String d r))) =>
      match hex_val a, hex_val b, hex_val c, hex_val d with
      | Some x, Some y, Some z, Some w =>
          Some (((x * 16 + y) * 16 + z) * 16 + w, r)%N
      | _, _, _, _ => None
      end
  | _ => None
  end.

(** The text after a backslash-u escape whose value is [hi]: a high
    surrogate followed by an escaped low surrogate is one code point, any
    other surrogate is the replacement character. *)
Definition unescape_u (hi : N) (r : string) : string * string :=
  (if (55296 <=? hi) && (hi <? 56320) then
     match r with
     | String "\" (String "u" r1) =>
         match getu4 r1 with
         | Some (lo, r2) =>
             if (56320 <=? lo) && (lo <? 57344)
             then (utf8.encode (65536 + (hi - 55296) * 1024 + (lo - 56320)), r2)
             else (utf8.encode utf8.RuneError, r)
         | None => (utf8.encode utf8.RuneError, r)
         end
     | _ => (utf8.encode utf8.RuneError, r)
     end
   else if (56320 <=? hi) && (hi <? 57344) then (utf8.encode utf8.RuneError, r)
   else (utf8.encode hi, r))%N.

(** The body of a string literal, after its opening quote: the decoded
    bytes and the text after the closing quote. *)
Fixpoint string_body (fuel : nat) (s : string) : option (string * string) :=
  match fuel with
  | O => None
  | S fuel =>
      match s with
      | EmptyString => None
      | String c r =>
          if Ascii.eqb c Go.dq then Some (EmptyString, r)
          else if (nat_of_ascii c <? 32)%nat then None
          else if Ascii.eqb c "\" then
            match r with
            | String e r1 =>
                let simple (b : ascii) :=
                  match string_body fuel r1 with
                  | Some (t, r2) => Some (String b t, r2)
                  | None => None
                  end in
                if Ascii.eqb e Go.dq then simple Go.dq
                else if Ascii.eqb e "\" then simple "\"%char
                else if Ascii.eqb e "/" then simple "/"%char
                else if Ascii.eqb e "b" then simple (ascii_of_nat 8)
                else if Ascii.eqb e "f" then simple (ascii_of_nat 12)
                else if Ascii.eqb e "n" then simple (ascii_of_nat 10)
                else if Ascii.eqb e "r" then simple (ascii_of_nat 13)
                else if Ascii.eqb e "t" then simple (ascii_of_nat 9)
                else if Ascii.eqb e "u" then
                  match getu4 r1 with
                  | Some (hi, r2) =>
                      let '(bytes, r3) := unescape_u hi r2 in
                      match string_body fuel r3 with
                      | Some (t, r4) => Some (bytes +:+ t, r4)
                      | None => None
                      end
                  | None => None
                  end
                else None
            | EmptyString => None
            end
          else
            match string_body fuel r with
            | Some (t, r1) => Some (String c t, r1)
            | None => None
            end
      end
  end.

(** Number literals: an optional minus, an integer part without a leading
    zero, an optional fraction, an optional exponent. *)
Fixpoint digits (s : string) : string * string :=
  match s with
  | String c r =>
      if is_digit c then let '(d, r') := digits r in (String c d, r')
      else (EmptyString, s)
  | EmptyString => (EmptyString, EmptyString)
  end.

Definition digits1 (s : string) : option (string * string) :=
  match digits s with
  | (EmptyString, _) => None
  | (d, r) => Some (d, r)
  end.

Definition number (s : string) : option (string * string) :=
  let '(sign, s1) :=
    match s with
    | String "-" r => ("-", r)
    | _ => (EmptyString, s)
    end in
  match s1 with
  | String c r =>
      let int_part :=
        if Ascii.eqb c "0" then Some ("0", r)
        else if is_digit c then Some (digits s1)
        else None in
      match int_part with
      | None => None
      | Some (i, s2) =>
          let frac :=
            match s2 with
            | String "." r2 =>
                match digits1 r2 with
                | Some (d, r3) => Some ("." +:+ d, r3)
                | None => None
                end
            | _ => Some (EmptyString, s2)
            end in
          match frac with
          | None => None
          | Some (f, s3) =>
              let exp_ (e : ascii) (r3 : string) :=
                let '(sg, r4) :=
                  match r3 with
                  | String "+" r' => ("+", r')
                  | String "-" r' => ("-", r')
                  | _ => (EmptyString, r3)
                  end in
                match digits1 r4 with
                | Some (d, r5) =>
                    Some (sign +:+ i +:+ f +:+ String e sg +:+ d, r5)
                | None => None
                end in
              match s3 with
              | String "e" r3 => exp_ "e"%char r3
              | String "E" r3 => exp_ "E"%char r3
              | _ => Some (sign +:+ i +:+ f, s3)
              end
          end
      end
  | EmptyString => None
  end.

Definition literal (word : string) (v : Value) (s : string)
  : option (Value * string) :=
  if String.prefix word s
  then Some (v, Go.slice_from s (String.length word))
  else None.

Fixpoint value (fuel : nat) (s : string) : option (Value * string) :=
  match fuel with
  | O => None
  | S fuel =>
      match skip_ws s with
      | EmptyString => None
      | String c r as s0 =>
          if Ascii.eqb c "{" then
            match skip_ws r with
            | String "}" r1 => Some (Object [], r1)
            | r1 =>
                match members fuel r1 with
                | Some (kvs, r2) => Some (Object kvs, r2)
                | None => None
                end
            end
          else if Ascii.eqb c "[" then
            match skip_ws r with
            | String "]" r1 => Some (Array [], r1)
            | r1 =>
                match elements fuel r1 with
                | Some (vs, r2) => Some (Array vs, r2)
                | None => None
                end
            end
          else if Ascii.eqb c Go.dq then
            match string_body (String.length r) r with
            | Some (t, r1) => Some (Str t, r1)
            | None => None
            end
          else if Ascii.eqb c "t" then literal "true" (Bool true) s0
          else if Ascii.eqb c "f" then literal "false" (Bool false) s0
          else if Ascii.eqb c "n" then literal "null" Null s0
          else
            match number s0 with
            | Some (lit, r1) => Some (Number lit, r1)
            | None => None
            end
      end
  end
with members (fuel : nat) (s : string)
  : option (list (string * Value) * string) :=
  match fuel with
  | O => None
  | S fuel =>
      match skip_ws s with
      | String c r =>
          if Ascii.eqb c Go.dq then
            match string_body (String.length r) r with
            | Some (k, r1) =>
                match skip_ws r1 with
                | String ":" r2 =>
                    match value fuel r2 with
                    | Some (v, r3) =>
                        match skip_ws r3 with
                        | String "," r4 =>
                            match members fuel r4 with
                            | Some (kvs, r5) => Some ((k, v) :: kvs, r5)
                            | None => None
                            end
                        | String "}" r4 => Some ([(k, v)], r4)
                        | _ => None
                        end
                    | None => None
                    end
                | _ => None
                end
            | None => None
            end
          else None
      | EmptyString => None
      end
  end
with elements (fuel : nat) (s : string) : option (list Value * string) :=
  match fuel with
  | O => None
  | S fuel =>
      match value fuel s with
      | Some (v, r) =>
          match skip_ws r with
          | String "," r1 =>
              match elements fuel r1 with
              | Some (vs, r2) => Some (v :: vs, r2)
              | None => None
              end
          | String "]" r1 => Some ([v], r1)
          | _ => None
          end
      | None => None
      end
  end.

(** A JSON text is one value between optional white space. *)
Definition parse (data : string) : option Value :=
  match value (2 * String.length data + 2) data with
  | Some (v, r) =>
      match skip_ws r with
      | EmptyString => Some v
      | _ => None
      end
  | None => None
  end.

Definition reference : Decoder := {| decode := parse |}.

(** *** Encoding

    [json.Marshal] of a string, with the escapes of the Go release the
    proxy is built with (1.21): the quote and the backslash get a backslash;
    line feed, carriage return and tab their letter; the other control bytes
    and the bytes [<], [>] and [&] a backslash-u escape; ill-formed UTF-8
    becomes the replacement character; the line and paragraph separators
    U+2028 and U+2029 are escaped. *)
Definition hex (n : N) : ascii :=
  if (n <? 10)%N then ascii_of_N (48 + n) else ascii_of_N (87 + n).

Definition u00 (c : ascii) : string :=
  let n := N_of_ascii c in
  "\u00" +:+ String (hex (n / 16)) (String (hex (n mod 16)) EmptyString).

Fixpoint encode_runes (fuel : nat) (s : string) : string :=
  match fuel with
  | O => EmptyString
  | S fuel =>
      match s with
      | EmptyString => EmptyString
      | String c r =>
          let n := nat_of_ascii c in
          if (n <? 128)%nat then
            (if Ascii.eqb c Go.dq then String "\" (String Go.dq EmptyString)
             else if Ascii.eqb c "\" then "\\"
             else if (n =? 10)%nat then "\n"
             else if (n =? 13)%nat then "\r"
             else if (n =? 9)%nat then "\t"
             else if (n <? 32)%nat || Ascii.eqb c "<" || Ascii.eqb c ">"
                     || Ascii.eqb c "&" then u00 c
             else String c EmptyString) +:+ encode_runes fuel r
          else
            let '(bytes, valid, rest) := utf8.DecodeRune s in
            (if negb valid then "\ufffd"
             else if String.eqb bytes (utf8.encode 8232) then "\u2028"
             else if String.eqb bytes (utf8.encode 8233) then "\u2029"
             else bytes) +:+ encode_runes fuel rest
      end
  end.

Definition Marshal_string (s : string) : string :=
  String Go.dq (encode_runes (String.length s) s) +:+ String Go.dq EmptyString.

End json.

(** ** Package [strconv] *)
Module strconv.

Definition digit (n : N) : ascii := ascii_of_N (48 + n mod 10).

Fixpoint utoa (fuel : nat) (n : N) (acc : string) : string :=
  match fuel with
  | O => acc
  | S fuel =>
      let acc := String (digit n) acc in
      if (n <? 10)%N then acc else utoa fuel (n / 10)%N acc
  end.

(** [strconv.Itoa] *)
Definition Itoa (z : Z) : string :=
  let n := Z.to_N (Z.abs z) in
  let d := utoa (S (N.to_nat (N.log2 n))) n EmptyString in
  if z <? 0 then String "-" d else d.




Definition lowerhex (n : N) : ascii :=
  if (n <? 10)%N then ascii_of_N (48 + n) else ascii_of_N (87 + n).

Definition quote_byte (c : ascii) : string :=
  let n := N_of_ascii c in
  if Ascii.eqb c Go.dq then String "\" (String Go.dq EmptyString)
  else if Ascii.eqb c "\" then "\\"
  else if (n =? 7)%N then "\a"
  else if (n =? 8)%N then "\b"
  else if (n =? 12)%N then "\f"
  else if (n =? 10)%N then "\n"
  else if (n =? 13)%N then "\r"
  else if (n =? 9)%N then "\t"
  else if (n =? 11)%N then "\v"
  else if ((n <? 32) || (n =? 127))%N then
    String "\" (String "x" (String (lowerhex (n / 16))
      (String (lowerhex (n mod 16)) EmptyString)))
  else String c EmptyString.

Fixpoint quote_bytes (s : string) : string :=
  match s with
  | EmptyString => EmptyString
  | String c r => quote_byte c +:+ quote_bytes r
  end.

(** [strconv.Quote], on text whose bytes from 128 on form printable
    UTF-8, which are copied. *)
Definition Quote (s : string) : string :=
  String Go.dq (quote_bytes s) +:+ String Go.dq EmptyString.

End strconv.

(** ** Package [fmt]: a format string printed with no operand

    [fmt.Fprintf(w, format)] with no operand copies [format] up to each
    percent sign, reads the flags, argument index, width and precision that
    follow it, and prints a diagnostic in place of the verb, as no operand is
    left for it; a doubled percent sign prints one. *)
Module fmt.

Definition is_flag (c : ascii) : bool :=
  Ascii.eqb c "#" || Ascii.eqb c "0" || Ascii.eqb c "+"
  || Ascii.eqb c "-" || Ascii.eqb c " ".

Fixpoint skip_flags (s : string) : string :=
  match s with
  | String c r => if is_flag c then skip_flags r else s
  | EmptyString => EmptyString
  end.

(** [parsenum]: a decimal number; one that grows beyond a million abandons
    the rest of the format. *)
Fixpoint parsenum (s : string) (num : N) (isnum : bool) : bool * string :=
  match s with
  | String c r =>
      if json.is_digit c then
        if (1000000 <? num)%N then (false, EmptyString)
        else parsenum r (num * 10 + (N_of_ascii c - 48))%N true
      else (isnum, s)
  | EmptyString => (isnum, EmptyString)
  end.

(** The index of the first closing bracket of [s], counted from [i]. *)
Fixpoint find_bracket (s : string) (i : nat) : option nat :=
  match s with
  | String c r => if Ascii.eqb c "]" then Some i else find_bracket r (S i)
  | EmptyString => None
  end.

(** [parseArgNumber] on a text that starts with an opening bracket: the
    number of bytes to skip and whether a well-formed index was read. *)
Definition parseArgNumber (s : string) : nat * bool :=
  if (String.length s <? 3)%nat then (1%nat, false)
  else
    match find_bracket (Go.slice_from s 1) 1 with
    | Some i =>
        let '(ok, rest) := parsenum (Go.slice s 1 i) 0%N false in
        (S i, ok && String.eqb rest EmptyString)
    | None => (1%nat, false)
    end.

(** [argNumber] when the call has no operand: the rest of the format,
    whether an index was found, and whether the index is usable (none is). *)
Definition argNumber (s : string) : string * bool * bool :=
  match s with
  | String "[" _ =>
      let '(wid, ok) := parseArgNumber s in
      (Go.slice_from s wid, ok, false)
  | _ => (s, false, true)
  end.

(** The rune a verb starts with, as it is printed back: ill-formed UTF-8
    prints the replacement character. *)
Definition rune (s : string) : string * string :=
  let '(bytes, valid, rest) := utf8.DecodeRune s in
  (if valid then bytes else utf8.encode utf8.RuneError, rest).

(** One verb, from the byte after its percent sign: what is printed for it
    and the rest of the format. *)
Definition verb (s : string) : string * string :=
  let s := skip_flags s in
  let '(s, afterIndex, good) := argNumber s in
  let '(out, s, afterIndex, good) :=
    match s with
    | String "*" r => ("%!(BADWIDTH)", r, false, good)
    | _ =>
        let '(present, r) := parsenum s 0%N false in
        (EmptyString, r, afterIndex, good && negb (afterIndex && present))
    end in
  let '(out, s, afterIndex, good) :=
    match s with
    | String "." r =>
        let good := good && negb afterIndex in
        let '(r, afterIndex, good') := argNumber r in
        let good := good && good' in
        match r with
        | String "*" r' => (out +:+ "%!(BADPREC)", r', false, good)
        | _ => let '(_, r') := parsenum r 0%N false in
               (out, r', afterIndex, good)
        end
    | _ => (out, s, afterIndex, good)
    end in
  let '(s, good) :=
    if afterIndex then (s, good)
    else let '(r, _, good') := argNumber s in (r, good && good') in
  match s with
  | EmptyString => (out +:+ "%!(NOVERB)", EmptyString)
  | String "%" r => (out +:+ "%", r)
  | _ =>
      let '(v, r) := rune s in
      (out +:+ "%!" +:+ v +:+ (if good then "(MISSING)" else "(BADINDEX)"), r)
  end.

Fixpoint doPrintf (fuel : nat) (format : string) : string :=
  match fuel with
  | O => EmptyString
  | S fuel =>
      match format with
      | EmptyString => EmptyString
      | String c r =>
          if Ascii.eqb c "%" then
            let '(out, rest) := verb r in out +:+ doPrintf fuel rest
          else String c (doPrintf fuel r)
      end
  end.

(** [fmt.Sprintf(format)] *)
Definition Sprintf (format : string) : string :=
  doPrintf (String.length format) format.

End fmt.

(** ** Package [net/url] *)
Module url.

Inductive encoding := encodePath | encodeQueryComponent | encodeFragment.

Definition is_alnum (c : ascii) : bool :=
  let n := nat_of_ascii c in
  (((97 <=? n) && (n <=? 122)) || ((65 <=? n) && (n <=? 90))
   || ((48 <=? n) && (n <=? 57)))%nat.

Definition one_of (set : string) (c : ascii) : bool := Go.ContainsByte set c.

(** [shouldEscape] *)
Definition shouldEscape (c : ascii) (mode : encoding) : bool :=
  if is_alnum c then false
  else if one_of "-_.~" c then false
  else if one_of "$&+,/:;=?@" c then
    match mode with
    | encodePath => Ascii.eqb c "?"
    | encodeQueryComponent => true
    | encodeFragment => false
    end
  else
    match mode with
    | encodeFragment => negb (one_of "!()*" c)
    | _ => true
    end.

Definition upperhex (n : N) : ascii :=
  if (n <? 10)%N then ascii_of_N (48 + n) else ascii_of_N (55 + n).

(** [escape] *)
Fixpoint escape (s : string) (mode : encoding) : string :=
  match s with
  | EmptyString => EmptyString
  | String c r =>
      if shouldEscape c mode then
        match mode, Ascii.eqb c " " with
        | encodeQueryComponent, true => String "+" (escape r mode)
        | _, _ =>
            let n := N_of_ascii c in
            String "%" (String (upperhex (n / 16)) (String (upperhex (n mod 16))
              (escape r mode)))
        end
      else String c (escape r mode)
  end.

(** [unescape]: the error is the ill-formed percent escape, at most three
    bytes of it (Go's [EscapeError]). *)
Fixpoint unescape (s : string) (mode : encoding) : result string string :=
  match s with
  | EmptyString => Ok EmptyString
  | String c r =>
      if Ascii.eqb c "%" then
        match r with
        | String h (String l r') =>
            match json.hex_val h, json.hex_val l with
            | Some x, Some y =>
                match unescape r' mode with
                | Ok t => Ok (String (ascii_of_N (x * 16 + y)) t)
                | Err e => Err e
                end
            | _, _ => Err (Go.slice s 0 3)
            end
        | _ => Err (Go.slice s 0 3)
        end
      else
        match unescape r mode with
        | Ok t =>
            match mode, Ascii.eqb c "+" with
            | encodeQueryComponent, true => Ok (String " " t)
            | _, _ => Ok (String c t)
            end
        | Err e => Err e
        end
  end.

Definition QueryEscape (s : string) : string := escape s encodeQueryComponent.
Definition QueryUnescape (s : string) : result string string :=
  unescape s encodeQueryComponent.

(** [validEncoded] *)
Fixpoint validEncoded (s : string) (mode : encoding) : bool :=
  match s with
  | EmptyString => true
  | String c r =>
      (one_of "!$&'()*+,;=:@[]%" c || negb (shouldEscape c mode))
      && validEncoded r mode
  end.

(** [url.Values] *)
Abbreviation Values := (gmap string (list string)).

Definition Values_Get (v : Values) (key : string) : string :=
  match v !! key with
  | Some (x :: _) => x
  | _ => EmptyString
  end.

Definition Values_Set (v : Values) (key value : string) : Values :=
  <[key := [value]]> v.

Definition Values_Add (v : Values) (key value : string) : Values :=
  <[key := (default [] (v !! key) ++ [value])%list]> v.

Definition Values_Del (v : Values) (key : string) : Values := delete key v.

(** [url.ParseQuery], errors dropped as [URL.Query] drops them: a pair that
    holds a semicolon or an ill-formed escape is skipped. *)
Definition parsePair (m : Values) (pair : string) : Values :=
  if Go.ContainsByte pair ";" then m
  else if String.eqb pair EmptyString then m
  else
    let '(key, value, _) := Go.Cut pair "=" in
    match QueryUnescape key with
    | Err _ => m
    | Ok key =>
        match QueryUnescape value with
        | Err _ => m
        | Ok value => Values_Add m key value
        end
    end.

Definition ParseQuery (query : string) : Values :=
  fold_left parsePair (Go.Split query "&") ∅.

(** [sort.Strings]: insertion into a list ordered byte-wise. *)
Fixpoint insert_sorted (k : string) (l : list string) : list string :=
  match l with
  | [] => [k]
  | x :: r => if String.leb k x then k :: l else x :: insert_sorted k r
  end.

Definition sort_strings (l : list string) : list string :=
  fold_right insert_sorted [] l.

(** [Values.Encode]: the pairs, ordered by key, escaped and joined. *)
Definition encodeKey (v : Values) (k : string) : list string :=
  map (fun x => QueryEscape k +:+ "=" +:+ QueryEscape x) (default [] (v !! k)).

Definition Values_Encode (v : Values) : string :=
  Go.Join (flat_map (encodeKey v) (sort_strings (map fst (map_to_list v)))) "&".

(** [url.URL], without the user information and the opaque part, which a
    URL that starts with the upstream origin and a slash never has. *)
Record URL := mkURL {
  Scheme : string;
  Host : string;
  Path : string;
  RawPath : string;
  ForceQuery : bool;
  RawQuery : string;
  Fragment : string;
  RawFragment : string
}.

Definition with_RawQuery (u : URL) (q : string) : URL :=
  mkURL (Scheme u) (Host u) (Path u) (RawPath u) (ForceQuery u) q
        (Fragment u) (RawFragment u).

Definition isCTL (c : ascii) : bool :=
  let n := nat_of_ascii c in ((n <? 32) || (n =? 127))%nat.

Fixpoint stringContainsCTLByte (s : string) : bool :=
  match s with
  | EmptyString => false
  | String c r => isCTL c || stringContainsCTLByte r
  end.

Fixpoint count_byte (s : string) (c : ascii) : nat :=
  match s with
  | EmptyString => O
  | String d r => ((if Ascii.eqb d c then 1 else 0) + count_byte r c)%nat
  end.

Fixpoint has_suffix_byte (s : string) (c : ascii) : bool :=
  match s with
  | EmptyString => false
  | String d EmptyString => Ascii.eqb d c
  | String _ r => has_suffix_byte r c
  end.

Definition drop_last (s : string) : string :=
  Go.slice s 0 (String.length s - 1).

(** The text before the first slash and the text from that slash on. *)
Fixpoint split_authority (s : string) : string * string :=
  match s with
  | EmptyString => (EmptyString, EmptyString)
  | String c r =>
      if Ascii.eqb c "/" then (EmptyString, s)
      else let '(a, p) := split_authority r in (String c a, p)
  end.

(** [url.Error]: the URL that was parsed and what is wrong with it. *)
Record Error := mkError { err_URL : string; err_Err : string }.

Definition Error_Error (e : Error) : string :=
  "parse " +:+ strconv.Quote (err_URL e) +:+ ": " +:+ err_Err e.

Definition EscapeError (s : string) : string :=
  "invalid URL escape " +:+ strconv.Quote s.

(** [url.Parse] on a URL that starts with [https://]: these are the URLs
    [SendToGemini] parses.  The fragment is cut off at the first hash sign;
    a control byte before it is an error; the query is cut off at the first
    question mark; the authority runs up to the first slash and is kept as
    written; ill-formed percent escapes in the path or the fragment are
    errors.  The authority is the upstream host itself whenever the text
    after the origin is empty or starts with a slash, a question mark or a
    hash sign; Go also validates the port and the bytes of other
    authorities, which is not modelled. *)
Definition Parse (rawURL : string) : result Error URL :=
  let '(u, frag, _) := Go.Cut rawURL "#" in
  if stringContainsCTLByte u
  then Err (mkError u "net/url: invalid control character in URL")
  else if negb (String.prefix "https://" u)
  then Err (mkError u "scheme outside the model")
  else
    let rest := Go.slice_from u 8 in
    let '(rest, force, rawquery) :=
      if has_suffix_byte rest "?" && (count_byte rest "?" =? 1)%nat
      then (drop_last rest, true, EmptyString)
      else let '(b, a, _) := Go.Cut rest "?" in (b, false, a) in
    let '(authority, p) := split_authority rest in
    match unescape p encodePath with
    | Err e => Err (mkError u (EscapeError e))
    | Ok path =>
        let rawpath :=
          if String.eqb p (escape path encodePath) then EmptyString else p in
        match unescape frag encodeFragment with
        | Err e => Err (mkError rawURL (EscapeError e))
        | Ok fragment =>
            let rawfrag :=
              if String.eqb frag (escape fragment encodeFragment)
              then EmptyString else frag in
            Ok (mkURL "https" authority path rawpath force rawquery
                      fragment rawfrag)
        end
    end.

Definition Query (u : URL) : Values := ParseQuery (RawQuery u).

(** [URL.EscapedPath] and [URL.EscapedFragment] *)
Definition EscapedPath (u : URL) : string :=
  if negb (String.eqb (RawPath u) EmptyString)
     && validEncoded (RawPath u) encodePath
     && match unescape (RawPath u) encodePath with
        | Ok p => String.eqb p (Path u)
        | Err _ => false
        end
  then RawPath u
  else if String.eqb (Path u) "*" then "*"
  else escape (Path u) encodePath.

Definition EscapedFragment (u : URL) : string :=
  if negb (String.eqb (RawFragment u) EmptyString)
     && validEncoded (RawFragment u) encodeFragment
     && match unescape (RawFragment u) encodeFragment with
        | Ok f => String.eqb f (Fragment u)
        | Err _ => false
        end
  then RawFragment u
  else escape (Fragment u) encodeFragment.

(** [URL.String] *)
Definition String_ (u : URL) : string :=
  let path := EscapedPath u in
  (if String.eqb (Scheme u) EmptyString then EmptyString else Scheme u +:+ ":")
  +:+ (if negb (String.eqb (Host u) EmptyString)
          || negb (String.eqb (Path u) EmptyString)
       then "//" else EmptyString)
  +:+ Host u
  +:+ (match path with
       | String c _ =>
           if negb (Ascii.eqb c "/") && negb (String.eqb (Host u) EmptyString)
           then "/" else EmptyString
       | EmptyString => EmptyString
       end)
  +:+ path
  +:+ (if ForceQuery u || negb (String.eqb (RawQuery u) EmptyString)
       then "?" +:+ RawQuery u else EmptyString)
  +:+ (if String.eqb (Fragment u) EmptyString then EmptyString
       else "#" +:+ EscapedFragment u).

End url.

(** ** Package [net/http] *)
Module http.

(** [http.Header] *)
Abbreviation Header := (gmap string (list string)).

Definition validHeaderFieldByte (c : ascii) : bool :=
  url.is_alnum c || url.one_of "!#$%&'*+-.^_`|~" c.

Fixpoint all_bytes (p : ascii -> bool) (s : string) : bool :=
  match s with
  | EmptyString => true
  | String c r => p c && all_bytes p r
  end.

Definition to_upper (c : ascii) : ascii :=
  let n := nat_of_ascii c in
  if ((97 <=? n) && (n <=? 122))%nat then ascii_of_nat (n - 32) else c.

Definition to_lower (c : ascii) : ascii :=
  let n := nat_of_ascii c in
  if ((65 <=? n) && (n <=? 90))%nat then ascii_of_nat (n + 32) else c.

Fixpoint canon (upper : bool) (s : string) : string :=
  match s with
  | EmptyString => EmptyString
  | String c r =>
      let c := if upper then to_upper c else to_lower c in
      String c (canon (Ascii.eqb c "-") r)
  end.

(** [textproto.CanonicalMIMEHeaderKey]: a key made of token bytes gets an
    upper-case letter first and after each dash and lower-case letters
    elsewhere; any other key is returned as it is. *)
Definition CanonicalMIMEHeaderKey (s : string) : string :=
  if all_bytes validHeaderFieldByte s then canon true s else s.

Definition Header_Get (h : Header) (key : string) : string :=
  match h !! CanonicalMIMEHeaderKey key with
  | Some (x :: _) => x
  | _ => EmptyString
  end.

Definition Header_Set (h : Header) (key value : string) : Header :=
  <[CanonicalMIMEHeaderKey key := [value]]> h.

Definition Header_Add (h : Header) (key value : string) : Header :=
  let k := CanonicalMIMEHeaderKey key in
  <[k := (default [] (h !! k) ++ [value])%list]> h.

(** [http.ResponseWriter]: the header map, the status passed to
    [WriteHeader] (none yet: [None]), and the bytes written.  The first
    [Write] sends status 200 when [WriteHeader] has not been called; a
    second [WriteHeader] is ignored; the header map can still be changed
    after the status is sent, without effect on the response, which
    [sent_header] records. *)
Record ResponseWriter := mkResponseWriter {
  rw_header : Header;
  rw_status : option Z;
  rw_sent_header : Header;
  rw_body : string
}.

Definition newResponseWriter : ResponseWriter :=
  mkResponseWriter ∅ None ∅ EmptyString.

Definition set_header (f : Header -> Header) (w : ResponseWriter)
  : ResponseWriter :=
  mkResponseWriter (f (rw_header w)) (rw_status w) (rw_sent_header w)
                   (rw_body w).

Definition WriteHeader (w : ResponseWriter) (statusCode : Z)
  : ResponseWriter :=
  match rw_status w with
  | Some _ => w
  | None =>
      mkResponseWriter (rw_header w) (Some statusCode) (rw_header w)
                       (rw_body w)
  end.

Definition Write (w : ResponseWriter) (data : string) : ResponseWriter :=
  let w := WriteHeader w 200 in
  mkResponseWriter (rw_header w) (rw_status w) (rw_sent_header w)
                   (rw_body w +:+ data).

(** What the caller receives once the handler has returned: a handler that
    wrote nothing sends status 200 and the headers it has set. *)
Definition status_sent (w : ResponseWriter) : Z := default 200 (rw_status w).

Definition header_sent (w : ResponseWriter) : Header :=
  match rw_status w with
  | Some _ => rw_sent_header w
  | None => rw_header w
  end.

(** An inbound request, as the handler reads it. *)
Record Request := mkRequest {
  Method : string;
  URL_Path : string;
  URL_RawQuery : string;
  Header_ : Header;
  Body : string
}.

(** The request the forwarder hands to [http.Client.Do]. *)
Record ClientRequest := mkClientRequest {
  creq_Method : string;
  creq_URL : string;
  creq_Header : Header;
  creq_Body : string
}.

(** What the upstream answers: a transport error, or a status line and
    headers followed by a body that can be read or not. *)
Inductive RoundTrip :=
| TransportError (msg : string)
| Answer (StatusCode : Z) (hdr : Header) (body : result string string).

(** [validMethod]: a non-empty token. *)
Definition isTokenByte (c : ascii) : bool := validHeaderFieldByte c.

Definition validMethod (m : string) : bool :=
  negb (String.eqb m EmptyString) && all_bytes isTokenByte m.

End http.

(** ** The process and its surroundings *)

(** Package [util/log] is not part of the sources at hand: a call
    [log.Info(ctx, format, args...)] or [log.Error(...)] is recorded as it
    is made, with the trace identifier of its context. *)
Module log.

Inductive Level := LevelInfo | LevelError.

Inductive Arg :=
| AStr (s : string)
| AInt (z : Z)
| AErr (msg : string)
| AMap (m : gmap string string)
| AValues (m : gmap string (list string)).

Record Entry := mkEntry {
  level : Level;
  traceId : string;
  format : string;
  args : list Arg
}.

End log.

(** Errors of the Redis client: a failed command, or [redis.Nil] for an
    index outside the list. *)
Inductive RedisError := RedisIO | RedisNil.

(** The state the program runs in.  The first group is outside the process:
    the environment variables, [os.ExpandEnv], the lists the Redis server
    holds, a script that says which of the coming Redis commands fail
    ([true]: the command fails; an exhausted script: no failure), the
    upstream server and the source of UUIDs.  The second group is the
    package-level variables of package [redis].  The last group records
    what the process did: the requests sent upstream and the log. *)
Record World := mkWorld {
  w_env : gmap string string;
  w_ExpandEnv : string -> string;
  w_redis : gmap string (list string);
  w_faults : list bool;
  w_upstream : http.ClientRequest -> http.RoundTrip;
  w_uuid : nat -> string;
  w_uuids : nat;
  clientOnce : bool;
  client : bool;
  currentPos : Z;
  w_sent : list http.ClientRequest;
  w_log : list log.Entry
}.

Definition set_redis (f : gmap string (list string) -> gmap string (list string))
  (w : World) : World :=
  mkWorld (w_env w) (w_ExpandEnv w) (f (w_redis w)) (w_faults w)
    (w_upstream w) (w_uuid w) (w_uuids w) (clientOnce w) (client w)
    (currentPos w) (w_sent w) (w_log w).

Definition set_faults (l : list bool) (w : World) : World :=
  mkWorld (w_env w) (w_ExpandEnv w) (w_redis w) l
    (w_upstream w) (w_uuid w) (w_uuids w) (clientOnce w) (client w)
    (currentPos w) (w_sent w) (w_log w).

Definition set_uuids (n : nat) (w : World) : World :=
  mkWorld (w_env w) (w_ExpandEnv w) (w_redis w) (w_faults w)
    (w_upstream w) (w_uuid w) n (clientOnce w) (client w)
    (currentPos w) (w_sent w) (w_log w).

Definition set_client (once c : bool) (w : World) : World :=
  mkWorld (w_env w) (w_ExpandEnv w) (w_redis w) (w_faults w)
    (w_upstream w) (w_uuid w) (w_uuids w) once c
    (currentPos w) (w_sent w) (w_log w).

Definition set_currentPos (p : Z) (w : World) : World :=
  mkWorld (w_env w) (w_ExpandEnv w) (w_redis w) (w_faults w)
    (w_upstream w) (w_uuid w) (w_uuids w) (clientOnce w) (client w)
    p (w_sent w) (w_log w).

Definition add_sent (r : http.ClientRequest) (w : World) : World :=
  mkWorld (w_env w) (w_ExpandEnv w) (w_redis w) (w_faults w)
    (w_upstream w) (w_uuid w) (w_uuids w) (clientOnce w) (client w)
    (currentPos w) (w_sent w ++ [r])%list (w_log w).

Definition add_log (e : log.Entry) (w : World) : World :=
  mkWorld (w_env w) (w_ExpandEnv w) (w_redis w) (w_faults w)
    (w_upstream w) (w_uuid w) (w_uuids w) (clientOnce w) (client w)
    (currentPos w) (w_sent w) (w_log w ++ [e])%list.

(** A computation reads and changes the world and returns a value. *)
Definition M (A : Type) : Type := World -> A * World.

Definition ret {A} (a : A) : M A := fun w => (a, w).

Definition bind {A B} (m : M A) (k : A -> M B) : M B :=
  fun w => let '(a, w') := m w in k a w'.

Definition gets {A} (f : World -> A) : M A := fun w => (f w, w).

Definition modify (f : World -> World) : M unit := fun w => (tt, f w).

Notation "x <- m ;; k" := (bind m (fun x => k))
  (at level 100, m at next level, right associativity).
Notation "m ;;; k" := (bind m (fun _ => k))
  (at level 100, right associativity).

(** [n] calls in a row, with their results in order. *)
Fixpoint repeatM {A} (n : nat) (m : M A) : M (list A) :=
  match n with
  | O => ret []
  | S n => x <- m ;; xs <- repeatM n m ;; ret (x :: xs)
  end.

(** [os.Getenv] *)
Definition Getenv (key : string) : M string :=
  gets (fun w => default EmptyString (w_env w !! key)).

(** Package [util/trace] *)
Module trace.

(** A context, as far as this program reads it: its trace identifier. *)
Record Context := mkContext { ctx_traceId : option string }.

Definition Background : Context := mkContext None.

Definition GetTraceId (ctx : Context) : string :=
  match ctx_traceId ctx with
  | None => "no-trace-id"
  | Some s => s
  end.

Definition WrapTraceInfo (ctx : Context) : M Context :=
  n <- gets w_uuids ;;
  s <- gets (fun w => w_uuid w n) ;;
  modify (set_uuids (S n)) ;;;
  ret (mkContext (Some s)).

End trace.

Definition log_Info (ctx : trace.Context) (format : string)
  (args : list log.Arg) : M unit :=
  modify (add_log (log.mkEntry log.LevelInfo (trace.GetTraceId ctx) format args)).

Definition log_Error (ctx : trace.Context) (format : string)
  (args : list log.Arg) : M unit :=
  modify (add_log (log.mkEntry log.LevelError (trace.GetTraceId ctx) format args)).

(** ** The Redis client: the four commands the program issues *)
Module goredis.

(** The scripted outcome of the next command: the head of the script,
    which is then dropped. *)
Definition head_fault (l : list bool) : bool :=
  match l with
  | b :: _ => b
  | [] => false
  end.

Definition next_fault : M bool :=
  l <- gets w_faults ;;
  modify (set_faults (tail l)) ;;;
  ret (head_fault l).

Definition list_at (key : string) : M (list string) :=
  gets (fun w => default [] (w_redis w !! key)).

Definition Ping : M (result RedisError unit) :=
  f <- next_fault ;;
  if f then ret (Err RedisIO) else ret (Ok tt).

Definition LLen (key : string) : M (result RedisError Z) :=
  f <- next_fault ;;
  if f then ret (Err RedisIO)
  else l <- list_at key ;; ret (Ok (Z.of_nat (length l))).

Definition RPush (key value : string) : M (result RedisError Z) :=
  f <- next_fault ;;
  if f then ret (Err RedisIO)
  else
    l <- list_at key ;;
    modify (set_redis <[key := (l ++ [value])%list]>) ;;;
    ret (Ok (Z.of_nat (length l) + 1)).

(** [LINDEX]: a negative index counts from the tail; an index outside the
    list answers nil, which the client reports as the error [redis.Nil]. *)
Definition LIndex (key : string) (index : Z) : M (result RedisError string) :=
  f <- next_fault ;;
  if f then ret (Err RedisIO)
  else
    l <- list_at key ;;
    let i := if index <? 0 then Z.of_nat (length l) + index else index in
    if i <? 0 then ret (Err RedisNil)
    else match l !! Z.to_nat i with
         | Some v => ret (Ok v)
         | None => ret (Err RedisNil)
         end.

End goredis.

Definition RedisError_Error (e : RedisError) : string :=
  match e with
  | RedisIO => "redis: command failed"
  | RedisNil => "redis: nil"
  end.

(** ** Package [redis], file [util/redis/redis.go] *)
Module redis.

Definition apiKeysKey : string := "gemini".

(** [getEnv] *)
Definition getEnv (key defaultValue : string) : M string :=
  value <- Getenv key ;;
  if String.eqb value EmptyString then ret defaultValue else ret value.


(** [GetClient]: the connection is tried once ([clientOnce]); [client] stays
    nil when the ping fails.  The password and the database index only
    configure the connection. *)
Definition GetClient : M bool :=
  once <- gets clientOnce ;;
  (if once then ret tt
   else
     redisHost <- getEnv "REDIS_HOST" "redis" ;;
     redisPort <- getEnv "REDIS_PORT" "6379" ;;
     ctx <- trace.WrapTraceInfo trace.Background ;;
     r <- goredis.Ping ;;
     match r with
     | Err e =>
         log_Error ctx "Failed to connect to Redis: %v"
           [log.AErr (RedisError_Error e)] ;;;
         modify (set_client true false)
     | Ok _ =>
         log_Info ctx "Successfully connected to Redis at %s:%s"
           [log.AStr redisHost; log.AStr redisPort] ;;;
         modify (set_client true true)
     end) ;;;
  gets client.

(** [splitAndTrim], for the one-byte separators it is called with *)
Fixpoint splitAndTrim_loop (parts : list string) : list string :=
  match parts with
  | [] => []
  | part :: rest =>
      let part := Go.TrimSpace part in
      if negb (String.eqb part EmptyString)
      then part :: splitAndTrim_loop rest
      else splitAndTrim_loop rest
  end.

Definition splitAndTrim (s : string) (sep : ascii) : list string :=
  splitAndTrim_loop (Go.Split s sep).

(** [splitAPIKeys] *)
Fixpoint splitAPIKeys_loop (parts : list string) : list string :=
  match parts with
  | [] => []
  | key :: rest =>
      if negb (String.eqb key EmptyString)
      then key :: splitAPIKeys_loop rest
      else splitAPIKeys_loop rest
  end.

Definition splitAPIKeys (keyStr : string) : list string :=
  splitAPIKeys_loop (splitAndTrim keyStr ",").

(** [cleanAPIKeyString] *)
Definition cleanAPIKeyString (keyStr : string) : M string :=
  gets (fun w => w_ExpandEnv w keyStr).

(** [getAPIKeysFromEnv] *)
Definition getAPIKeysFromEnv : M (list string) :=
  keyStr <- Getenv "API_KEY" ;;
  if String.eqb keyStr EmptyString then ret []
  else
    keyStr <- cleanAPIKeyString keyStr ;;
    ret (splitAPIKeys keyStr).

(** [keys[position]]: the index is in range whenever [currentPos] is not
    negative, as in every state the program reaches (lemma
    [selection_keeps_cursor_bounds] below); Go panics on an index out of
    range, where this model answers the empty string. *)
Definition index (keys : list string) (position : Z) : string :=
  if position <? 0 then EmptyString
  else default EmptyString (keys !! Z.to_nat position).

(** [getFallbackAPIKey] *)
Definition getFallbackAPIKey : M string :=
  keys <- getAPIKeysFromEnv ;;
  let count := Z.of_nat (length keys) in
  if count =? 0 then ret EmptyString
  else
    (* posMutex.Lock() *)
    cur <- gets currentPos ;;
    let position := Go.rem cur count in
    modify (set_currentPos (Go.rem (Go.add cur 1) count)) ;;;
    (* posMutex.Unlock() *)
    ret (index keys position).

(** [InitializeAPIKeys]: the loop that appends the keys stops at the first
    command that fails. *)
Fixpoint InitializeAPIKeys_loop (apiKeys : list string)
  : M (option RedisError) :=
  match apiKeys with
  | [] => ret None
  | key :: rest =>
      r <- goredis.RPush apiKeysKey key ;;
      match r with
      | Err e => ret (Some e)
      | Ok _ => InitializeAPIKeys_loop rest
      end
  end.

Definition InitializeAPIKeys (ctx : trace.Context) : M (option RedisError) :=
  client <- GetClient ;;
  if negb client then
    log_Info ctx "Redis not available, skipping API keys initialization" [] ;;;
    ret None
  else
    r <- goredis.LLen apiKeysKey ;;
    match r with
    | Err e => ret (Some e)
    | Ok count =>
        if count >? 0 then
          log_Info ctx "API keys already initialized in Redis (%d keys)"
            [log.AInt count] ;;;
          ret None
        else
          apiKeys <- getAPIKeysFromEnv ;;
          if (length apiKeys =? 0)%nat then
            log_Info ctx "No API keys found in environment variable" [] ;;;
            ret None
          else
            e <- InitializeAPIKeys_loop apiKeys ;;
            match e with
            | Some e => ret (Some e)
            | None =>
                log_Info ctx "Initialized %d API keys in Redis"
                  [log.AInt (Z.of_nat (length apiKeys))] ;;;
                ret None
            end
    end.

(** [GetAPIKey]: the key and the error, which is nil on every path. *)
Definition GetAPIKey (ctx : trace.Context) : M (string * option RedisError) :=
  client <- GetClient ;;
  if negb client then
    log_Info ctx "Redis not available, falling back to environment variable" [] ;;;
    k <- getFallbackAPIKey ;; ret (k, None)
  else
    r <- goredis.LLen apiKeysKey ;;
    match r with
    | Err e =>
        log_Error ctx "Failed to get API keys count from Redis: %v"
          [log.AErr (RedisError_Error e)] ;;;
        k <- getFallbackAPIKey ;; ret (k, None)
    | Ok count =>
        if count =? 0 then
          log_Info ctx
            "No API keys found in Redis, falling back to environment variable" [] ;;;
          k <- getFallbackAPIKey ;; ret (k, None)
        else
          (* posMutex.Lock() *)
          cur <- gets currentPos ;;
          modify (set_currentPos (Go.rem (Go.add cur 1) count)) ;;;
          position <- gets currentPos ;;
          (* posMutex.Unlock() *)
          r <- goredis.LIndex apiKeysKey position ;;
          match r with
          | Err e =>
              log_Error ctx "Failed to get API key from Redis: %v"
                [log.AErr (RedisError_Error e)] ;;;
              k <- getFallbackAPIKey ;; ret (k, None)
          | Ok apiKey => ret (apiKey, None)
          end
    end.

End redis.

(** ** Package [redis], the revision that stores JSON records

    [GetClient], [getEnv], [getAPIKeysFromEnv], [getFallbackAPIKey],
    [cleanAPIKeyString], [splitAPIKeys] and [splitAndTrim] are the same text
    in both revisions. *)
Module redis2.
Section with_decoder.
Context `{json.Decoder}.

Definition apiKeysKey : string := "gemini-proxy".

Definition GetClient : M bool := redis.GetClient.
Definition getAPIKeysFromEnv : M (list string) := redis.getAPIKeysFromEnv.
Definition getFallbackAPIKey : M string := redis.getFallbackAPIKey.

(** What the loop of [InitializeAPIKeys] does with one key. *)
Inductive Verdict := InvalidFormat | NoKeyField | Accepted.

Definition check (key : string) : Verdict :=
  match json.Unmarshal_any key with
  | None => InvalidFormat
  | Some keyData =>
      match keyData !! "key" with
      | None => NoKeyField
      | Some _ => Accepted
      end
  end.

Fixpoint InitializeAPIKeys_loop (ctx : trace.Context) (apiKeys : list string)
  : M (option RedisError) :=
  match apiKeys with
  | [] => ret None
  | key :: rest =>
      match check key with
      | InvalidFormat =>
          log_Error ctx "Skipping invalid API key format: %s, error: %v"
            [log.AStr key; log.AErr "json: cannot unmarshal"] ;;;
          InitializeAPIKeys_loop ctx rest
      | NoKeyField =>
          log_Error ctx "Skipping API key without 'key' field: %s"
            [log.AStr key] ;;;
          InitializeAPIKeys_loop ctx rest
      | Accepted =>
          r <- goredis.RPush apiKeysKey key ;;
          match r with
          | Err e => ret (Some e)
          | Ok _ => InitializeAPIKeys_loop ctx rest
          end
      end
  end.

(** [InitializeAPIKeys] *)
Definition InitializeAPIKeys (ctx : trace.Context) : M (option RedisError) :=
  client <- GetClient ;;
  if negb client then
    log_Info ctx "Redis not available, skipping API keys initialization" [] ;;;
    ret None
  else
    r <- goredis.LLen apiKeysKey ;;
    match r with
    | Err e => ret (Some e)
    | Ok count =>
        if count >? 0 then
          log_Info ctx "API keys already initialized in Redis (%d keys)"
            [log.AInt count] ;;;
          ret None
        else
          apiKeys <- getAPIKeysFromEnv ;;
          if (length apiKeys =? 0)%nat then
            log_Info ctx "No API keys found in environment variable" [] ;;;
            ret None
          else
            e <- InitializeAPIKeys_loop ctx apiKeys ;;
            match e with
            | Some e => ret (Some e)
            | None =>
                log_Info ctx "Initialized %d API keys in Redis"
                  [log.AInt (Z.of_nat (length apiKeys))] ;;;
                ret None
            end
    end.

(** The masked key [GetAPIKey] logs. *)
Definition maskedKey (apiKey : string) : string :=
  if negb (String.eqb apiKey EmptyString) then
    if (Go.len apiKey <? 8)%nat then "<too_short>"
    else Go.slice apiKey 0 4 +:+ "****"
         +:+ Go.slice_from apiKey (Go.len apiKey - 4)
  else "<empty>".

(** [GetAPIKey]: the key, the proxy URL and the error, nil on every path. *)
Definition GetAPIKey (ctx : trace.Context)
  : M (string * string * option RedisError) :=
  client <- GetClient ;;
  if negb client then
    log_Info ctx "Redis not available, falling back to environment variable" [] ;;;
    k <- getFallbackAPIKey ;; ret (k, EmptyString, None)
  else
    r <- goredis.LLen apiKeysKey ;;
    match r with
    | Err e =>
        log_Error ctx "Failed to get API keys count from Redis: %v"
          [log.AErr (RedisError_Error e)] ;;;
        k <- getFallbackAPIKey ;; ret (k, EmptyString, None)
    | Ok count =>
        if count =? 0 then
          log_Info ctx
            "No API keys found in Redis, falling back to environment variable" [] ;;;
          k <- getFallbackAPIKey ;; ret (k, EmptyString, None)
        else
          (* posMutex.Lock() *)
          cur <- gets currentPos ;;
          modify (set_currentPos (Go.rem (Go.add cur 1) count)) ;;;
          position <- gets currentPos ;;
          (* posMutex.Unlock() *)
          r <- goredis.LIndex apiKeysKey position ;;
          match r with
          | Err e =>
              log_Error ctx "Failed to get API key from Redis: %v"
                [log.AErr (RedisError_Error e)] ;;;
              k <- getFallbackAPIKey ;; ret (k, EmptyString, None)
          | Ok apiKeyJson =>
              match json.Unmarshal_str apiKeyJson with
              | None =>
                  log_Error ctx "Failed to parse API key JSON from Redis: %v"
                    [log.AErr "json: cannot unmarshal"] ;;;
                  k <- getFallbackAPIKey ;; ret (k, EmptyString, None)
              | Some keyData =>
                  let apiKey := default EmptyString (keyData !! "key") in
                  let proxyURL := default EmptyString (keyData !! "proxy") in
                  log_Info ctx
                    "Got API key and proxy from Redis: key=%s, proxy=%s"
                    [log.AStr (maskedKey apiKey); log.AStr proxyURL] ;;;
                  ret (apiKey, proxyURL, None)
              end
          end
    end.

End with_decoder.
End redis2.

(** ** Package [handler], file [handler/handler.go] *)
Module handler.

Definition PROXY_URL : string := "https://generativelanguage.googleapis.com".

Record SendToGeminiInput := mkSendToGeminiInput {
  Url : string;
  ContentType : string;
  APIKey : string;
  Payload : string;
  Method : string;
  Headers : http.Header
}.

Record GeminiResponse := mkGeminiResponse {
  resp_Body : string;
  resp_StatusCode : Z;
  resp_Headers : http.Header
}.

(** The errors [SendToGemini] returns, one per [fmt.Errorf]. *)
Inductive Error :=
| CouldNotParseUrl (e : url.Error)
| InvalidApiKey (apiKey : string)
| CouldNotCreateRequest (msg : string)
| CouldNotSendRequest (msg : string)
| CouldNotReadResponseBody (msg : string).

Definition Error_Error (e : Error) : string :=
  match e with
  | CouldNotParseUrl e => "could not parse url: " +:+ url.Error_Error e
  | InvalidApiKey apiKey => "invalid api key: " +:+ apiKey
  | CouldNotCreateRequest msg => "could not create request: " +:+ msg
  | CouldNotSendRequest msg => "could not send request: " +:+ msg
  | CouldNotReadResponseBody msg => "could not read response body: " +:+ msg
  end.

(** [maskAPIKey] *)
Definition maskAPIKey (apiKey : string) : string :=
  if String.eqb apiKey EmptyString then "<empty>"
  else if (Go.len apiKey <? 8)%nat then "<too_short>"
  else Go.slice apiKey 0 4 +:+ "****"
       +:+ Go.slice_from apiKey (Go.len apiKey - 4).

(** [getAPIKey] *)
Definition getAPIKey (in_ : SendToGeminiInput) : M string :=
  if negb (String.eqb (APIKey in_) EmptyString) then ret (APIKey in_)
  else
    ctx <- trace.WrapTraceInfo trace.Background ;;
    r <- redis.GetAPIKey ctx ;;
    let '(apiKey, err) := r in
    match err with
    | Some e =>
        log_Error ctx "Failed to get API key from Redis: %v"
          [log.AErr (RedisError_Error e)]
    | None => ret tt
    end ;;;
    ret apiKey.

(** The first lines of [SendToGemini]: the upstream URL for a request path
    and a key. *)
Definition targetURL (inUrl apiKey : string) : result url.Error string :=
  let fullUrl := PROXY_URL +:+ inUrl in
  match url.Parse fullUrl with
  | Err err => Err err
  | Ok parse =>
      let query := url.Query parse in
      let query := url.Values_Del query "key" in
      let query := url.Values_Set query "key" apiKey in
      let parse := url.with_RawQuery parse (url.Values_Encode query) in
      Ok (url.String_ parse)
  end.

(** [http.NewRequestWithContext]: an empty method means GET; a method that
    is no token is refused. *)
Definition NewRequest (method url body : string)
  : result string http.ClientRequest :=
  let method := if String.eqb method EmptyString then "GET" else method in
  if negb (http.validMethod method)
  then Err ("net/http: invalid method " +:+ strconv.Quote method)
  else Ok (http.mkClientRequest method url ∅ body).

(** The headers of the upstream request.  Go ranges over the map in an
    order it does not specify; here the order is that of [map_fold]. *)
Definition copyHeaders (headers : http.Header) (req : http.Header)
  : http.Header :=
  map_fold
    (fun key values acc =>
       if negb (String.eqb key "Content-Type") && negb (String.eqb key "Host")
       then fold_left (fun a value => http.Header_Add a key value) values acc
       else acc)
    req headers.

(** [httpClient.Do] *)
Definition Do (req : http.ClientRequest) : M http.RoundTrip :=
  modify (add_sent req) ;;;
  gets (fun w => w_upstream w req).

(** [SendToGemini] *)
Definition SendToGemini (ctx : trace.Context) (in_ : SendToGeminiInput)
  : M (result Error GeminiResponse) :=
  apiKey <- getAPIKey in_ ;;
  match targetURL (Url in_) apiKey with
  | Err err => ret (Err (CouldNotParseUrl err))
  | Ok fullUrl =>
      if (Go.len apiKey <? 8)%nat then ret (Err (InvalidApiKey apiKey))
      else
        log_Info ctx "using api key: %s" [log.AStr (maskAPIKey apiKey)] ;;;
        log_Info ctx "Final request URL: %s" [log.AStr fullUrl] ;;;
        match NewRequest (Method in_) fullUrl (Payload in_) with
        | Err msg =>
            log_Error ctx "Failed to create request: %v" [log.AErr msg] ;;;
            ret (Err (CouldNotCreateRequest msg))
        | Ok req =>
            let hdr := http.creq_Header req in
            let hdr :=
              if negb (String.eqb (ContentType in_) EmptyString)
              then http.Header_Set hdr "Content-Type" (ContentType in_)
              else hdr in
            let hdr := copyHeaders (Headers in_) hdr in
            let req :=
              http.mkClientRequest (http.creq_Method req) (http.creq_URL req)
                hdr (http.creq_Body req) in
            resp <- Do req ;;
            match resp with
            | http.TransportError msg =>
                log_Error ctx "HTTP request failed: %v" [log.AErr msg] ;;;
                ret (Err (CouldNotSendRequest msg))
            | http.Answer status hdr body =>
                log_Info ctx "Response status code: %d" [log.AInt status] ;;;
                match body with
                | Err msg =>
                    log_Error ctx "Failed to read response body: %v"
                      [log.AErr msg] ;;;
                    ret (Err (CouldNotReadResponseBody msg))
                | Ok body => ret (Ok (mkGeminiResponse body status hdr))
                end
            end
        end
  end.

End handler.

(** ** Package [api], file [api/index.go] *)
Module api.

Record Response := mkResponse {
  Code : Z;
  Body : string
}.

(** [json.Marshal] of a [Response]; it cannot fail. *)
Definition Marshal (resp : Response) : string :=
  Go.requote "{'code':" +:+ strconv.Itoa (Code resp)
  +:+ Go.requote ",'body':" +:+ json.Marshal_string (Body resp) +:+ "}".

(** [maskAPIKey] *)
Definition maskAPIKey (apiKey : string) : string :=
  if String.eqb apiKey EmptyString then "<empty>"
  else if (Go.len apiKey <? 8)%nat then "<too_short>"
  else Go.slice apiKey 0 4 +:+ "****"
       +:+ Go.slice_from apiKey (Go.len apiKey - 4).

(** [logHeaders] *)
Definition logHeaders (headers : http.Header) : gmap string string :=
  omap head headers.

(** [getFromQuery] *)
Definition getFromQuery (r : http.Request) (key defaultV : string) : string :=
  let value := url.Values_Get (url.ParseQuery (http.URL_RawQuery r)) key in
  if String.eqb value EmptyString then defaultV else value.

(** [getCtx]; the response writer the context carries in Go is passed
    beside the context here. *)
Definition getCtx (r : http.Request) : M trace.Context :=
  trace.WrapTraceInfo trace.Background.

(** [doStdResponse]; writing to the caller does not fail in this model. *)
Definition doStdResponse (ctx : trace.Context) (resp : Response)
  (w : http.ResponseWriter) : http.ResponseWriter :=
  let marshal := Marshal resp in
  let w := http.set_header
             (fun h => http.Header_Set h "X-Trace-Id" (trace.GetTraceId ctx)) w in
  let w := http.set_header
             (fun h => http.Header_Set h "X-Content-From" "agent") w in
  http.Write w (fmt.Sprintf marshal).

(** The loop of [doGeminiResponse] that copies the upstream headers; the
    order of the keys is that of [map_fold]. *)
Definition addAll (headers : http.Header) (h : http.Header) : http.Header :=
  map_fold
    (fun key values acc =>
       fold_left (fun a value => http.Header_Add a key value) values acc)
    h headers.

(** [doGeminiResponse] *)
Definition doGeminiResponse (ctx : trace.Context)
  (resp : handler.GeminiResponse) (w : http.ResponseWriter)
  : http.ResponseWriter :=
  let w := http.set_header
             (fun h => http.Header_Set h "X-Trace-Id" (trace.GetTraceId ctx)) w in
  let w := http.set_header
             (fun h => http.Header_Set h "X-Content-From" "gemini") w in
  let w := http.set_header (addAll (handler.resp_Headers resp)) w in
  let w :=
    if String.eqb (http.Header_Get (http.rw_header w) "Content-Type") EmptyString
    then http.set_header
           (fun h => http.Header_Set h "Content-Type" "application/json") w
    else w in
  let w := http.WriteHeader w (handler.resp_StatusCode resp) in
  http.Write w (handler.resp_Body resp).

(** [MainHandle] *)
Definition MainHandle (w : http.ResponseWriter) (r : http.Request)
  : M http.ResponseWriter :=
  ctx <- getCtx r ;;
  log_Info ctx "Received request - Method: %s, Path: %s"
    [log.AStr (http.Method r); log.AStr (http.URL_Path r)] ;;;
  log_Info ctx "Request headers: %v" [log.AMap (logHeaders (http.Header_ r))] ;;;
  log_Info ctx "Request query parameters: %v"
    [log.AValues (url.ParseQuery (http.URL_RawQuery r))] ;;;
  let apiKey := getFromQuery r "key" EmptyString in
  log_Info ctx "API Key from query: %s" [log.AStr (maskAPIKey apiKey)] ;;;
  let fullPath :=
    if negb (String.eqb (http.URL_RawQuery r) EmptyString)
    then http.URL_Path r +:+ "?" +:+ http.URL_RawQuery r
    else http.URL_Path r in
  let in_ :=
    handler.mkSendToGeminiInput fullPath
      (http.Header_Get (http.Header_ r) "Content-Type") apiKey
      (http.Body r) (http.Method r) (http.Header_ r) in
  log_Info ctx "start request: %s" [log.AStr (handler.Url in_)] ;;;
  res <- handler.SendToGemini ctx in_ ;;
  match res with
  | Err err =>
      log_Error ctx "send to gemini err: %v"
        [log.AErr (handler.Error_Error err)] ;;;
      ret (doStdResponse ctx
             (mkResponse 500
                ("Internal server error. details: " +:+ handler.Error_Error err))
             w)
  | Ok geminiResp =>
      log_Info ctx "end request: %s" [log.AStr (handler.Url in_)] ;;;
      ret (doGeminiResponse ctx geminiResp w)
  end.

End api.

(** ** Package [main], file [main.go] *)
Module main.

(** [main], up to the call of [http.ListenAndServe], which then hands every
    request to [api.MainHandle] and returns only when it fails. *)
Definition main : M unit :=
  ctx <- trace.WrapTraceInfo trace.Background ;;
  err <- redis.InitializeAPIKeys ctx ;;
  match err with
  | Some e =>
      log_Error ctx "Failed to initialize API keys in Redis: %v"
        [log.AErr (RedisError_Error e)]
      (* Continue execution even if Redis initialization fails *)
  | None => ret tt
  end ;;;
  log_Info ctx "Starting server on port 8080" [].

End main.

(** ** Sample worlds, for running the model *)
Definition no_upstream (r : http.ClientRequest) : http.RoundTrip :=
  http.TransportError "connection refused".

Definition sample_uuid (n : nat) : string :=
  "trace-" +:+ strconv.Itoa (Z.of_nat n).

Definition world_of (api_key : string) (db : gmap string (list string))
  (faults : list bool) (once up : bool) (pos : Z) : World :=
  mkWorld {["API_KEY" := api_key]} (fun s => s) db faults no_upstream
    sample_uuid 0 once up pos [] [].

Definition rr_world : World :=
  world_of "a, b, c" {[redis.apiKeysKey := ["k0"; "k1"; "k2"]]} [] true true 5.

(** * The vocabulary of the properties *)

(** The fallback list and the stored list of a world. *)
Definition fallback (w : World) : list string :=
  fst (redis.getAPIKeysFromEnv w).

Definition stored (key : string) (w : World) : list string :=
  default [] (w_redis w !! key).

(** The backing has been tried ([clientOnce]) and is up. *)
Definition connected (w : World) : Prop :=
  clientOnce w = true /\ client w = true.

(** The cursor of a reachable state: between 0 and the greatest [int] less
    one, so that adding 1 does not wrap around. *)
Definition cursor_ok (w : World) : Prop :=
  0 <= currentPos w < Go.max_int.

(** The positions of a rotation that starts at [first] over [N] slots. *)
Fixpoint cycle (first N : Z) (n : nat) : list Z :=
  match n with
  | O => []
  | S n => first mod N :: cycle (first + 1) N n
  end.

(** Which branches one call of [GetAPIKey] runs. *)
Inductive Path := FallbackOnly | DurableHit | FallThrough.

(** What the fallback branch does at cursor [c]: the key it returns and
    the cursor it leaves. *)
Definition fb_key (w : World) (c : Z) : string :=
  let keys := fallback w in
  let F := Z.of_nat (length keys) in
  if F =? 0 then EmptyString else redis.index keys (c mod F).

Definition advance (c F : Z) : Z :=
  if F =? 0 then c else (c + 1) mod F.

(** The path of [redis.GetAPIKey] once the connection has been tried: the
    first scripted outcome is that of [LLEN], the second that of [LINDEX]. *)
Definition path1 (w : World) : Path :=
  if negb (client w) then FallbackOnly
  else if goredis.head_fault (w_faults w) then FallbackOnly
  else if Z.of_nat (length (stored redis.apiKeysKey w)) =? 0 then FallbackOnly
  else if goredis.head_fault (tail (w_faults w)) then FallThrough
  else DurableHit.

(** The key a call returns and the cursor it leaves, on each path; [N] and
    [F] are the lengths of the stored list and of the fallback list. *)
Definition outcome (p : Path) (w : World) (pool : list string)
  (decoded : string -> string) : string * Z :=
  let c := currentPos w in
  let N := Z.of_nat (length pool) in
  let F := Z.of_nat (length (fallback w)) in
  match p with
  | FallbackOnly => (fb_key w c, advance c F)
  | DurableHit => (decoded (redis.index pool ((c + 1) mod N)), (c + 1) mod N)
  | FallThrough => (fb_key w ((c + 1) mod N), advance ((c + 1) mod N) F)
  end.

(** The key of a stored record, as [redis2.GetAPIKey] extracts it. *)
Definition decoded_key `{json.Decoder} (record : string) : string :=
  match json.Unmarshal_str record with
  | Some keyData => default EmptyString (keyData !! "key")
  | None => EmptyString
  end.

(** The path of [redis2.GetAPIKey]: a record that does not decode makes
    the call fall through as a failed fetch does. *)
Definition path2 `{json.Decoder} (w : World) : Path :=
  let pool := stored redis2.apiKeysKey w in
  let N := Z.of_nat (length pool) in
  if negb (client w) then FallbackOnly
  else if goredis.head_fault (w_faults w) then FallbackOnly
  else if N =? 0 then FallbackOnly
  else if goredis.head_fault (tail (w_faults w)) then FallThrough
  else
    match json.Unmarshal_str (redis.index pool ((currentPos w + 1) mod N)) with
    | None => FallThrough
    | Some _ => DurableHit
    end.

(** Three stored records, the second of which [redis2.InitializeAPIKeys]
    accepts (it has a key member) and [redis2.GetAPIKey] cannot decode (the
    member is a number), and three fallback keys. *)
Definition c3_world : World :=
  world_of "k0, k1, k2"
    {[redis2.apiKeysKey :=
        map Go.requote ["{'key':'AAAAAAAAAA'}"; "{'key':12}";
                        "{'key':'CCCCCCCCCC'}"];
      redis.apiKeysKey := ["AAAAAAAAAA"; "BBBBBBBBBB"; "CCCCCCCCCC"]]}
    [false; true] true true 0.

(** The context and the world in which [getAPIKey] calls the selector. *)
Definition selector_ctx (w : World) : trace.Context :=
  trace.mkContext (Some (w_uuid w (w_uuids w))).

Definition selector_world (w : World) : World :=
  set_uuids (S (w_uuids w)) w.

(** The record decodes into a map that has a [key] member, whatever the
    member holds. *)
Definition has_key_member `{json.Decoder} (record : string) : bool :=
  match json.Unmarshal_any record with
  | Some keyData => bool_decide (is_Some (keyData !! "key"))
  | None => false
  end.

(** A fallback list of five records: an empty key, text that is no JSON, a
    record without key, the text null, and a key that is a number. *)
Definition c4_world : World :=
  world_of (Go.requote "{'key':''}, junk ,{'proxy':'p'},null,{'key':12}")
    ∅ [] true true 0.

(** Header keys as the HTTP client delivers them: in canonical form. *)
Definition canonical_keys (h : http.Header) : Prop :=
  forall k vs, h !! k = Some vs -> http.CanonicalMIMEHeaderKey k = k.

(** The values the relay itself sets under a header name. *)
Definition extra (traceId k : string) : list string :=
  if String.eqb k "X-Trace-Id" then [traceId]
  else if String.eqb k "X-Content-From" then ["gemini"]
  else [].

(** The values sent to the caller under the header name [k]: the relay's
    own, then the upstream's; and the default content type when the first
    value under Content-Type is missing or empty. *)
Definition relayed (traceId : string) (upstream : http.Header) (k : string)
  : option (list string) :=
  let vals := (extra traceId k ++ default [] (upstream !! k))%list in
  if String.eqb k "Content-Type" && String.eqb (hd EmptyString vals) EmptyString
  then Some ["application/json"]
  else match vals with
       | [] => None
       | _ => Some vals
       end.

Definition c7_response : handler.GeminiResponse :=
  handler.mkGeminiResponse "hi" 200
    {["Content-Type" := ["text/plain"]; "X-Content-From" := ["upstream"]]}.

(** The input [MainHandle] builds from a request. *)
Definition request_input (r : http.Request) : handler.SendToGeminiInput :=
  handler.mkSendToGeminiInput
    (if negb (String.eqb (http.URL_RawQuery r) EmptyString)
     then http.URL_Path r +:+ "?" +:+ http.URL_RawQuery r
     else http.URL_Path r)
    (http.Header_Get (http.Header_ r) "Content-Type")
    (api.getFromQuery r "key" EmptyString)
    (http.Body r) (http.Method r) (http.Header_ r).

(** The world in which [MainHandle] calls [SendToGemini]: a trace
    identifier has been drawn and five lines have been logged. *)
Definition forward_world (r : http.Request) (w : World) : World :=
  let ctx := selector_ctx w in
  let say := log.mkEntry log.LevelInfo (trace.GetTraceId ctx) in
  add_log (say "start request: %s" [log.AStr (handler.Url (request_input r))])
    (add_log (say "API Key from query: %s"
                [log.AStr (api.maskAPIKey (api.getFromQuery r "key" EmptyString))])
       (add_log (say "Request query parameters: %v"
                   [log.AValues (url.ParseQuery (http.URL_RawQuery r))])
          (add_log (say "Request headers: %v"
                      [log.AMap (api.logHeaders (http.Header_ r))])
             (add_log (say "Received request - Method: %s, Path: %s"
                         [log.AStr (http.Method r); log.AStr (http.URL_Path r)])
                (selector_world w))))).

(** The response [MainHandle] writes when forwarding fails with [err]. *)
Definition error_response (err : handler.Error) : api.Response :=
  api.mkResponse 500
    ("Internal server error. details: " +:+ handler.Error_Error err).

(** A request that carries a key of four bytes, the last a percent sign,
    in a world whose backing is down. *)
Definition c2_request : http.Request :=
  http.mkRequest "GET" "/v1/foo" "key=abc%25&x=1" {["Accept" := ["*/*"]]}
    EmptyString.

Definition c2_world : World := world_of EmptyString ∅ [] true false 0.

(** Bytes that JSON encoding and [Fprintf] copy unchanged: printable ASCII
    other than the double quote, the backslash, the angle brackets, the
    ampersand and the percent sign. *)
Definition plain_byte (c : ascii) : bool :=
  let n := nat_of_ascii c in
  ((32 <=? n) && (n <? 127))%nat
  && negb (Ascii.eqb c Go.dq || url.one_of "\<>&%" c).

Definition plain (s : string) : bool := http.all_bytes plain_byte s.

(** A request without key, in a world whose backing is down and whose
    fallback list holds one key of three bytes. *)
Definition c10_request : http.Request :=
  http.mkRequest "GET" "/v1/foo" EmptyString ∅ EmptyString.

Definition c10_world : World := world_of "abc" ∅ [] true false 0.

(** The bytes that separate the pairs of a query and the halves of a pair. *)
Definition separator (c : ascii) : bool := url.one_of "&;=" c.

Definition encodePair (kx : string * string) : string :=
  url.QueryEscape kx.1 +:+ "=" +:+ url.QueryEscape kx.2.

Definition addPair (m : url.Values) (kx : string * string) : url.Values :=
  url.Values_Add m kx.1 kx.2.

(** The pairs of a [Values], in the order [Encode] writes them. *)
Definition pairsOf (v : url.Values) (keys : list string)
  : list (string * string) :=
  flat_map (fun k => map (pair k) (default [] (v !! k))) keys.

(** No key of the map has an empty list of values. *)
Definition no_empty (v : url.Values) : Prop :=
  forall k, v !! k <> Some [].

(** The query [SendToGemini] builds from the parsed one. *)
Definition rewritten (q : url.Values) (cred : string) : url.Values :=
  url.Values_Set (url.Values_Del q "key") "key" cred.

(** A byte that [escape] leaves as it is in a path. *)
Definition path_byte (c : ascii) : bool :=
  negb (url.shouldEscape c url.encodePath).

(** A request path as the server hands it over: it starts with a slash and
    none of its bytes is escaped in a path. *)
Definition plain_path (p : string) : bool :=
  String.prefix "/" p && http.all_bytes path_byte p.

(** A raw query without a hash sign and without control bytes. *)
Definition query_text (rq : string) : bool :=
  negb (Go.ContainsByte rq "#") && negb (url.stringContainsCTLByte rq).

(** The authority of [handler.PROXY_URL]. *)
Definition upstream_host : string := "generativelanguage.googleapis.com".

(** Text made of ASCII bytes, on which the model of [strings.TrimSpace] is
    exact. *)
Definition ascii_only (s : string) : bool :=
  http.all_bytes (fun c => (nat_of_ascii c <? 128)%nat) s.

(** A key as [splitAPIKeys] returns it: not empty, without comma, and with
    no white space at either end. *)
Definition clean_key (k : string) : Prop :=
  k <> EmptyString /\ Go.ContainsByte k "," = false /\ Go.TrimSpace k = k.

(** None of the next [n] Redis commands fails. *)
Definition quiet (n : nat) (faults : list bool) : Prop :=
  forall i : nat, (i < n)%nat -> faults !! i <> Some true.

(** [w'] has the environment, the connection, the cursor and the requests
    sent that [w] has. *)
Definition same_process (w w' : World) : Prop :=
  w_env w' = w_env w /\ w_ExpandEnv w' = w_ExpandEnv w
  /\ clientOnce w' = clientOnce w /\ client w' = client w
  /\ currentPos w' = currentPos w /\ w_sent w' = w_sent w.

(** The headers of the request [SendToGemini] sends upstream. *)
Definition forwarded_headers (in_ : handler.SendToGeminiInput) : http.Header :=
  handler.copyHeaders (handler.Headers in_)
    (if negb (String.eqb (handler.ContentType in_) EmptyString)
     then http.Header_Set ∅ "Content-Type" (handler.ContentType in_)
     else ∅).

(** The request [SendToGemini] sends to the URL [u]. *)
Definition upstream_request (in_ : handler.SendToGeminiInput) (u : string)
  : http.ClientRequest :=
  http.mkClientRequest
    (if String.eqb (handler.Method in_) EmptyString then "GET"
     else handler.Method in_)
    u (forwarded_headers in_) (handler.Payload in_).

(** A world whose upstream answers every request with status 200, whose
    backing is down and whose environment holds one key. *)
Definition answering_world : World :=
  mkWorld {["API_KEY" := "AIzaSy-pool-key-1"]} (fun s => s) ∅ []
    (fun _ => http.Answer 200 {["Content-Type" := ["application/json"]]}
                (Ok "{}"))
    sample_uuid 0 true false 0 [] [].

(** * Properties *)

(** ** Byte strings *)

#[local] Arguments String.append !s1 s2 / : simpl nomatch.

Lemma length_append (a b : string) :
  String.length (a +:+ b) = (String.length a + String.length b)%nat.
Proof. induction a as [|c a IH]; cbn; [reflexivity | now f_equal]. Qed.

Lemma append_assoc (a b c : string) : (a +:+ b) +:+ c = a +:+ (b +:+ c).
Proof. induction a as [|x a IH]; cbn; [reflexivity | now f_equal]. Qed.

Lemma append_nil_r (a : string) : a +:+ EmptyString = a.
Proof. induction a as [|x a IH]; cbn; [reflexivity | now f_equal]. Qed.

Lemma substring_0_length (n : nat) (s : string) :
  (n <= String.length s)%nat -> String.length (substring 0 n s) = n.
Proof.
  revert s; induction n as [|n IH]; intros [|c s] Hn; simpl in *;
    try reflexivity; try lia.
  now rewrite IH by lia.
Qed.

Lemma substring_length (lo n : nat) (s : string) :
  (lo + n <= String.length s)%nat -> String.length (substring lo n s) = n.
Proof.
  revert s; induction lo as [|lo IH]; intros s Hn.
  - now apply substring_0_length.
  - destruct s as [|c s]; simpl in *; [lia |]. apply IH; lia.
Qed.

(** A string is its first [n] bytes followed by the rest. *)
Lemma substring_split (n : nat) (s : string) :
  (n <= String.length s)%nat ->
  s = substring 0 n s +:+ substring n (String.length s - n) s.
Proof.
  revert s; induction n as [|n IH]; intros s Hn.
  - simpl. rewrite Nat.sub_0_r.
    destruct s as [|c s]; simpl; [reflexivity |].
    clear Hn. f_equal. induction s as [|d s IHs]; simpl; [reflexivity |].
    now f_equal.
  - destruct s as [|c s]; simpl in *; [lia |].
    f_equal. apply IH; lia.
Qed.

(** The three slices [s[0:a]], [s[a:b]] and [s[b:]] make up [s]. *)
Lemma slices_cover (a b : nat) (s : string) :
  (a <= b)%nat -> (b <= String.length s)%nat ->
  s = Go.slice s 0 a +:+ Go.slice s a b +:+ Go.slice_from s b.
Proof.
  unfold Go.slice, Go.slice_from. rewrite Nat.sub_0_r.
  revert b s. induction a as [|a IH]; intros b s Hab Hb.
  - rewrite Nat.sub_0_r.
    replace (substring 0 0 s) with EmptyString by (now destruct s).
    now apply substring_split.
  - destruct b as [|b]; [lia |].
    destruct s as [|c s]; [simpl in Hb; lia |].
    simpl in Hb. cbn [substring String.length Nat.sub]. simpl.
    f_equal. apply IH; lia.
Qed.

(** ** Claim C9: the masked form of a key *)

(** C9.  For every secret [s], both copies of [maskAPIKey] (package [handler]
    and package [api]) return <empty> when [s] is empty, <too_short> when [s]
    is not empty and shorter than 8 bytes, and otherwise the first four bytes
    of [s], four asterisks and the last four bytes of [s]. *)
Theorem maskAPIKey_cases (s : string) :
  (s = EmptyString ->
     handler.maskAPIKey s = "<empty>" /\ api.maskAPIKey s = "<empty>")
  /\ (s <> EmptyString -> (String.length s < 8)%nat ->
     handler.maskAPIKey s = "<too_short>" /\ api.maskAPIKey s = "<too_short>")
  /\ ((8 <= String.length s)%nat ->
     exists first middle last : string,
       s = first +:+ middle +:+ last
       /\ String.length first = 4%nat /\ String.length last = 4%nat
       /\ handler.maskAPIKey s = first +:+ "****" +:+ last
       /\ api.maskAPIKey s = first +:+ "****" +:+ last).
Proof.
  unfold handler.maskAPIKey, api.maskAPIKey, Go.len.
  repeat split.
  - subst s; reflexivity.
  - subst s; reflexivity.
  - destruct s; [congruence |]. simpl String.eqb.
    destruct (Nat.ltb_spec (String.length (String a s)) 8); [reflexivity | lia].
  - destruct s; [congruence |]. simpl String.eqb.
    destruct (Nat.ltb_spec (String.length (String a s)) 8); [reflexivity | lia].
  - intros Hlen.
    exists (Go.slice s 0 4), (Go.slice s 4 (String.length s - 4)),
      (Go.slice_from s (String.length s - 4)).
    assert (Hne : String.eqb s EmptyString = false)
      by (destruct s; [simpl in Hlen; lia | reflexivity]).
    rewrite Hne.
    destruct (Nat.ltb_spec (String.length s) 8) as [Hlt|_]; [lia |].
    repeat split.
    + apply slices_cover; lia.
    + unfold Go.slice. apply substring_length; lia.
    + unfold Go.slice_from. rewrite substring_length by lia. lia.
Qed.

(** ** The selector: what one call does *)

Ltac run :=
  unfold bind, ret, gets, modify; cbn [fst snd].

Ltac mcbn :=
  cbn -[Go.rem Go.add Z.of_nat Z.to_nat Z.eqb Z.ltb Z.gtb Z.add Z.mul Z.modulo
        redis.getAPIKeysFromEnv redis.getFallbackAPIKey].

Lemma getAPIKeysFromEnv_pure (w : World) :
  redis.getAPIKeysFromEnv w = (fallback w, w).
Proof.
  unfold fallback, redis.getAPIKeysFromEnv, redis.cleanAPIKeyString, Getenv.
  run. now destruct (String.eqb _ _).
Qed.

Lemma fallback_frame (w w' : World) :
  w_env w' = w_env w -> w_ExpandEnv w' = w_ExpandEnv w ->
  fallback w' = fallback w.
Proof.
  intros He Hx.
  unfold fallback, redis.getAPIKeysFromEnv, redis.cleanAPIKeyString, Getenv.
  run. rewrite He. destruct (String.eqb _ _); cbn; [reflexivity |].
  now rewrite Hx.
Qed.

Lemma rem_step (c n : Z) :
  0 <= c < Go.max_int -> 0 < n ->
  Go.rem c n = c mod n /\ Go.rem (Go.add c 1) n = (c + 1) mod n.
Proof.
  unfold Go.rem, Go.add, Go.wrap, Go.max_int. intros Hc Hn.
  rewrite (Z.mod_small (c + 1 + 2 ^ 63)) by lia.
  replace (c + 1 + 2 ^ 63 - 2 ^ 63) with (c + 1) by lia.
  split; apply Z.rem_mod_nonneg; lia.
Qed.

Lemma mod_bounds (c n : Z) : 0 < n -> n <= Go.max_int ->
  0 <= c mod n < Go.max_int.
Proof. intros Hn Hmax. pose proof (Z.mod_pos_bound c n Hn). lia. Qed.

(** One call of [getFallbackAPIKey]. *)
Lemma getFallbackAPIKey_spec (w : World) :
  let keys := fallback w in
  let n := Z.of_nat (length keys) in
  redis.getFallbackAPIKey w =
    if n =? 0 then (EmptyString, w)
    else (redis.index keys (Go.rem (currentPos w) n),
          set_currentPos (Go.rem (Go.add (currentPos w) 1) n) w).
Proof.
  unfold redis.getFallbackAPIKey. unfold bind at 1.
  rewrite getAPIKeysFromEnv_pure.
  destruct (Z.of_nat (length (fallback w)) =? 0); reflexivity.
Qed.

(** One call of [GetAPIKey] when the backing answers: the cursor is
    advanced, reduced, and used as the index. *)
Lemma GetAPIKey_durable (ctx : trace.Context) (w : World) (v : string) :
  connected w -> w_faults w = [] ->
  let pool := stored redis.apiKeysKey w in
  let n := Z.of_nat (length pool) in
  let c := Go.rem (Go.add (currentPos w) 1) n in
  pool <> [] -> 0 <= c -> pool !! Z.to_nat c = Some v ->
  redis.GetAPIKey ctx w
  = ((v, None), set_faults [] (set_currentPos c (set_faults [] w))).
Proof.
  intros [Honce Hcl] Hf pool n c Hne Hc Hv.
  unfold redis.GetAPIKey, redis.GetClient, goredis.LLen, goredis.LIndex,
    goredis.next_fault, goredis.list_at.
  run. repeat (progress (mcbn; rewrite ?Honce, ?Hcl, ?Hf)).
  fold (stored redis.apiKeysKey w). fold pool. fold n.
  destruct (Z.eqb_spec n 0) as [H0|_].
  { destruct pool; [congruence | simpl in n; lia]. }
  repeat (progress (mcbn; rewrite ?Honce, ?Hcl, ?Hf)).
  fold (stored redis.apiKeysKey w). fold pool. fold n. fold c.
  assert (Hc0 : (c <? 0) = false) by (apply Z.ltb_ge; lia).
  clearbody c. rewrite !Hc0. mcbn. rewrite Hv. reflexivity.
Qed.

(** Case analysis on whatever the computation branches on next. *)
Ltac branch :=
  match goal with
  | |- context [let '(_, _) := ?m in _] =>
      lazymatch m with
      | context [match _ with _ => _ end] => fail
      | _ => destruct m eqn:?
      end
  | |- context [match ?x with _ => _ end] =>
      lazymatch x with
      | context [match _ with _ => _ end] => fail
      | _ => destruct x eqn:?
      end
  end.

Ltac paths := repeat (mcbn; try branch).

Lemma GetAPIKey_error_nil (ctx : trace.Context) (w : World) :
  snd (fst (redis.GetAPIKey ctx w)) = None.
Proof.
  unfold redis.GetAPIKey, redis.GetClient, goredis.LLen, goredis.LIndex,
    goredis.Ping, goredis.next_fault, goredis.list_at, redis.getEnv, Getenv,
    trace.WrapTraceInfo, log_Info, log_Error.
  run. paths; reflexivity.
Qed.

(** ** Claim C1: round-robin completeness *)

Lemma cycle_length (first N : Z) (n : nat) : length (cycle first N n) = n.
Proof. revert first; induction n; intros; simpl; [reflexivity | now rewrite IHn]. Qed.

Lemma cycle_lookup (first N : Z) (n i : nat) :
  (i < n)%nat -> cycle first N n !! i = Some ((first + Z.of_nat i) mod N).
Proof.
  revert first i; induction n as [|n IH]; intros first i Hi; [lia |].
  destruct i as [|i]; simpl.
  - now rewrite Z.add_0_r.
  - rewrite IH by lia. do 2 f_equal. lia.
Qed.

Lemma cycle_congr (a b N : Z) (n : nat) :
  a mod N = b mod N -> cycle a N n = cycle b N n.
Proof.
  revert a b; induction n as [|n IH]; intros a b Hab; simpl; [reflexivity |].
  rewrite Hab. f_equal. apply IH.
  destruct (Z.eq_dec N 0) as [->|HN].
  - rewrite !Z.mod_0_r in Hab. now subst.
  - now rewrite (Z.add_mod a 1 N), (Z.add_mod b 1 N), Hab.
Qed.

Lemma cycle_take (first N : Z) (n k : nat) :
  take n (cycle first N (n + k)) = cycle first N n.
Proof.
  revert first; induction n as [|n IH]; intros first; simpl.
  - now rewrite take_0.
  - now rewrite IH.
Qed.

Lemma cycle_NoDup (first N : Z) (n : nat) :
  Z.of_nat n <= N -> NoDup (cycle first N n).
Proof.
  intros Hn. apply NoDup_alt. intros i j x Hi Hj.
  pose proof (lookup_lt_Some _ _ _ Hi) as Hi'.
  pose proof (lookup_lt_Some _ _ _ Hj) as Hj'.
  rewrite cycle_length in Hi', Hj'.
  rewrite cycle_lookup in Hi, Hj by assumption.
  assert (Heq : (first + Z.of_nat i) mod N = (first + Z.of_nat j) mod N)
    by congruence.
  assert (HN : 0 < N) by lia.
  pose proof (Z.div_mod (first + Z.of_nat i) N ltac:(lia)) as Di.
  pose proof (Z.div_mod (first + Z.of_nat j) N ltac:(lia)) as Dj.
  rewrite Heq in Di.
  assert (Hd : Z.of_nat i - Z.of_nat j
               = N * ((first + Z.of_nat i) / N - (first + Z.of_nat j) / N))
    by lia.
  assert (Hq : (first + Z.of_nat i) / N - (first + Z.of_nat j) / N = 0) by nia.
  lia.
Qed.

(** Over [N] slots, [N] consecutive positions visit every slot once, and the
    next position is the first one again. *)
Lemma cycle_complete (first : Z) (N : nat) :
  (1 <= N)%nat ->
  let ps := cycle first (Z.of_nat N) (S N) in
  take N ps ≡ₚ seqZ 0 (Z.of_nat N) /\ ps !! N = ps !! 0%nat.
Proof.
  intros HN ps. subst ps. split.
  - replace (S N) with (N + 1)%nat by lia. rewrite cycle_take.
    apply submseteq_length_Permutation.
    + apply NoDup_submseteq; [apply cycle_NoDup; lia |].
      intros x Hx. apply list_elem_of_lookup in Hx as [i Hi].
      pose proof (lookup_lt_Some _ _ _ Hi) as Hi'. rewrite cycle_length in Hi'.
      rewrite cycle_lookup in Hi by assumption. inversion Hi; subst x.
      apply elem_of_seqZ.
      pose proof (Z.mod_pos_bound (first + Z.of_nat i) (Z.of_nat N)). lia.
    + rewrite length_seqZ, cycle_length. lia.
  - rewrite !cycle_lookup by lia. f_equal.
    rewrite Z.add_0_r, <- (Z_mod_plus_full first 1 (Z.of_nat N)).
    f_equal. lia.
Qed.

Lemma repeatM_S {A} (n : nat) (m : M A) (w : World) :
  repeatM (S n) m w =
    let '(x, w1) := m w in
    let '(xs, w2) := repeatM n m w1 in (x :: xs, w2).
Proof. reflexivity. Qed.

Lemma index_lookup (keys : list string) (p : Z) (v : string) :
  0 <= p -> keys !! Z.to_nat p = Some v -> redis.index keys p = v.
Proof.
  intros Hp Hv. unfold redis.index.
  destruct (Z.ltb_spec p 0); [lia |]. now rewrite Hv.
Qed.

Lemma durable_run (ctx : trace.Context) (pool : list string) (n : nat) :
  forall w : World,
    connected w -> w_faults w = [] -> stored redis.apiKeysKey w = pool ->
    pool <> [] -> Z.of_nat (length pool) <= Go.max_int -> cursor_ok w ->
    fst (repeatM n (redis.GetAPIKey ctx) w)
    = map (fun p => (redis.index pool p, None))
          (cycle (currentPos w + 1) (Z.of_nat (length pool)) n).
Proof.
  induction n as [|n IH]; intros w Hconn Hf Hpool Hne Hmax Hc; [reflexivity |].
  assert (HN : 0 < Z.of_nat (length pool))
    by (destruct pool; [congruence | simpl; lia]).
  destruct (rem_step (currentPos w) _ Hc HN) as [_ Hrem].
  pose proof (Z.mod_pos_bound (currentPos w + 1) _ HN) as Hb.
  destruct (lookup_lt_is_Some_2 pool
              (Z.to_nat ((currentPos w + 1) mod Z.of_nat (length pool))))
    as [v Hv]; [lia |].
  rewrite repeatM_S.
  rewrite (GetAPIKey_durable ctx w v); rewrite ?Hpool, ?Hrem; try assumption;
    try lia.
  set (w1 := set_faults [] (set_currentPos _ (set_faults [] w))).
  specialize (IH w1 Hconn eq_refl Hpool Hne Hmax).
  destruct (repeatM n (redis.GetAPIKey ctx) w1) as [xs w2].
  cbn [fst] in IH |- *. rewrite IH.
  - cbn [cycle map]. rewrite (index_lookup pool _ v) by (assumption || lia).
    f_equal. f_equal. apply cycle_congr.
    subst w1; cbn [currentPos set_currentPos set_faults].
    rewrite Z.add_mod_idemp_l by lia. reflexivity.
  - subst w1; unfold cursor_ok; cbn [currentPos set_currentPos set_faults]. lia.
Qed.

Lemma fallback_run (n : nat) :
  forall w : World,
    fallback w <> [] -> Z.of_nat (length (fallback w)) <= Go.max_int ->
    cursor_ok w ->
    fst (repeatM n redis.getFallbackAPIKey w)
    = map (redis.index (fallback w))
          (cycle (currentPos w) (Z.of_nat (length (fallback w))) n).
Proof.
  induction n as [|n IH]; intros w Hne Hmax Hc; [reflexivity |].
  assert (HN : 0 < Z.of_nat (length (fallback w)))
    by (destruct (fallback w); [congruence | simpl; lia]).
  destruct (rem_step (currentPos w) _ Hc HN) as [Hrem0 Hrem].
  pose proof (Z.mod_pos_bound (currentPos w + 1) _ HN) as Hb.
  rewrite repeatM_S, getFallbackAPIKey_spec. cbn zeta.
  destruct (Z.eqb_spec (Z.of_nat (length (fallback w))) 0); [lia |].
  rewrite Hrem0, Hrem.
  set (w1 := set_currentPos _ w).
  assert (Hfb : fallback w1 = fallback w) by (now apply fallback_frame).
  specialize (IH w1). rewrite Hfb in IH.
  destruct (repeatM n redis.getFallbackAPIKey w1) as [xs w2].
  cbn [fst] in IH |- *. rewrite IH; try assumption.
  - cbn [cycle map]. f_equal. f_equal. apply cycle_congr.
    subst w1; cbn [currentPos set_currentPos].
    now rewrite Z.mod_mod by lia.
  - subst w1; unfold cursor_ok; cbn [currentPos set_currentPos]. lia.
Qed.

(** C1.  For every pool size N of at least 1 and every cursor a run can
    reach, N + 1 consecutive selections -- calls of [GetAPIKey] with the
    backing up and N stored keys, or calls of [getFallbackAPIKey] with N
    fallback keys -- return the keys at the positions of one rotation;
    the first N positions are the indices 0 .. N-1, each exactly once, and
    the position of call N + 1 is that of the first call. *)
Theorem round_robin_completeness (ctx : trace.Context) (w : World) (N : nat) :
  (1 <= N)%nat -> Z.of_nat N <= Go.max_int -> cursor_ok w ->
  (connected w -> w_faults w = [] ->
   length (stored redis.apiKeysKey w) = N ->
     fst (repeatM (S N) (redis.GetAPIKey ctx) w)
     = map (fun p => (redis.index (stored redis.apiKeysKey w) p, None))
           (cycle (currentPos w + 1) (Z.of_nat N) (S N)))
  /\ (length (fallback w) = N ->
     fst (repeatM (S N) redis.getFallbackAPIKey w)
     = map (redis.index (fallback w))
           (cycle (currentPos w) (Z.of_nat N) (S N)))
  /\ (forall first : Z,
        let ps := cycle first (Z.of_nat N) (S N) in
        take N ps ≡ₚ seqZ 0 (Z.of_nat N) /\ ps !! N = ps !! 0%nat).
Proof.
  intros HN Hmax Hc. repeat split.
  - intros Hconn Hf Hlen. rewrite <- Hlen.
    apply durable_run; try assumption; try reflexivity.
    + intros E. rewrite E in Hlen. simpl in Hlen. lia.
    + now rewrite Hlen.
  - intros Hlen. rewrite <- Hlen.
    apply fallback_run; try assumption.
    + intros E. rewrite E in Hlen. simpl in Hlen. lia.
    + now rewrite Hlen.
  - apply cycle_complete; assumption.
  - apply cycle_complete; assumption.
Qed.

Lemma round_robin_completeness_witness :
  fst (repeatM 4 (redis.GetAPIKey trace.Background) rr_world)
  = [("k0", None); ("k1", None); ("k2", None); ("k0", None)]
  /\ fst (repeatM 4 redis.getFallbackAPIKey rr_world) = ["c"; "a"; "b"; "c"].
Proof.
  destruct (round_robin_completeness trace.Background rr_world 3)
    as (Hdurable & Hfallback & _).
  - lia.
  - unfold Go.max_int; lia.
  - unfold cursor_ok, Go.max_int; simpl; lia.
  - split.
    + rewrite Hdurable; [reflexivity | split; reflexivity | reflexivity
                        | reflexivity].
    + rewrite Hfallback; reflexivity.
Defined.

(** ** Claim C8: initialization leaves a populated pool alone *)

Lemma gtb_length_pos (l : list string) :
  l <> [] -> (Z.of_nat (length l) >? 0) = true.
Proof.
  destruct l; [congruence | intros _]. apply Z.gtb_lt. cbn [length]. lia.
Qed.

Lemma InitializeAPIKeys_populated (ctx : trace.Context) (w : World) :
  stored redis.apiKeysKey w <> [] ->
  w_redis (snd (redis.InitializeAPIKeys ctx w)) = w_redis w.
Proof.
  intros Hne. apply gtb_length_pos in Hne. unfold stored in Hne.
  unfold redis.InitializeAPIKeys, redis.GetClient, goredis.LLen, goredis.Ping,
    goredis.next_fault, goredis.list_at, redis.getEnv, Getenv,
    trace.WrapTraceInfo, log_Info, log_Error.
  run. paths; try reflexivity; discriminate.
Qed.

Lemma InitializeAPIKeys2_populated `{json.Decoder} (ctx : trace.Context)
  (w : World) :
  stored redis2.apiKeysKey w <> [] ->
  w_redis (snd (redis2.InitializeAPIKeys ctx w)) = w_redis w.
Proof.
  intros Hne. apply gtb_length_pos in Hne. unfold stored in Hne.
  unfold redis2.InitializeAPIKeys, redis2.GetClient, redis.GetClient,
    goredis.LLen, goredis.Ping,
    goredis.next_fault, goredis.list_at, redis.getEnv, Getenv,
    trace.WrapTraceInfo, log_Info, log_Error.
  run. paths; try reflexivity; discriminate.
Qed.

Lemma repeatM_frame {A} (m : M A) (P : World -> Prop) (n : nat) :
  (forall w, P w -> w_redis (snd (m w)) = w_redis w) ->
  (forall w w', w_redis w' = w_redis w -> P w -> P w') ->
  forall w, P w -> w_redis (snd (repeatM n m w)) = w_redis w.
Proof.
  intros Hstep Hframe. induction n as [|n IH]; intros w HP; [reflexivity |].
  rewrite repeatM_S. specialize (Hstep w HP).
  destruct (m w) as [x w1]. cbn [snd] in Hstep.
  specialize (IH w1 (Hframe _ _ Hstep HP)).
  destruct (repeatM n m w1) as [xs w2]. cbn [snd] in IH |- *. congruence.
Qed.

(** C8.  When the stored list is not empty, any number of calls of
    [InitializeAPIKeys], in either revision, with any fallback list, any
    connection state and any failing commands, leaves everything the Redis
    server stores as it was. *)
Theorem initialize_idempotent `{json.Decoder} (ctx : trace.Context)
  (w : World) (n : nat) :
  (stored redis.apiKeysKey w <> [] ->
     w_redis (snd (repeatM n (redis.InitializeAPIKeys ctx) w)) = w_redis w)
  /\ (stored redis2.apiKeysKey w <> [] ->
     w_redis (snd (repeatM n (redis2.InitializeAPIKeys ctx) w)) = w_redis w).
Proof.
  split; intros Hne.
  - apply (repeatM_frame _ (fun w => stored redis.apiKeysKey w <> [])).
    + apply InitializeAPIKeys_populated.
    + unfold stored. intros w1 w2 ->. auto.
    + assumption.
  - apply (repeatM_frame _ (fun w => stored redis2.apiKeysKey w <> [])).
    + apply InitializeAPIKeys2_populated.
    + unfold stored. intros w1 w2 ->. auto.
    + assumption.
Qed.

(** ** The selector as a function of the state *)

Lemma fallback_obs (w0 w w1 : World) (k : string) (c : Z) :
  redis.getFallbackAPIKey w0 = (k, w1) ->
  w_env w0 = w_env w -> w_ExpandEnv w0 = w_ExpandEnv w ->
  currentPos w0 = c -> 0 <= c < Go.max_int ->
  (k, currentPos w1)
  = (fb_key w c, advance c (Z.of_nat (length (fallback w)))).
Proof.
  intros Hrun He Hx Hc Hb. rewrite getFallbackAPIKey_spec in Hrun.
  cbn zeta in Hrun. rewrite (fallback_frame w w0 He Hx), Hc in Hrun.
  unfold fb_key, advance.
  destruct (Z.eqb_spec (Z.of_nat (length (fallback w))) 0) as [H0|H0].
  - inversion Hrun; subst. auto.
  - destruct (rem_step c (Z.of_nat (length (fallback w))) Hb ltac:(lia))
      as [R0 R1].
    rewrite R0, R1 in Hrun. inversion Hrun; subst. auto.
Qed.

Ltac unfold_selector :=
  unfold redis2.GetAPIKey, redis2.GetClient, redis2.getFallbackAPIKey,
    redis.GetAPIKey, redis.GetClient, goredis.LLen, goredis.LIndex,
    goredis.Ping, goredis.next_fault, goredis.list_at, redis.getEnv, Getenv,
    trace.WrapTraceInfo, log_Info, log_Error.

Ltac fallback_case w :=
  match goal with
  | |- context [redis.getFallbackAPIKey ?w0] =>
      let E := fresh "E" in
      destruct (redis.getFallbackAPIKey w0) as [? ?] eqn:E;
      eapply (fallback_obs _ w) in E;
      [ cbn [fst snd]; exact E | reflexivity | reflexivity | reflexivity | ]
  end.

#[local] Arguments goredis.head_fault : simpl never.

(** [redis.GetAPIKey] as a function of the state. *)
Lemma GetAPIKey_outcome (ctx : trace.Context) (w : World) :
  clientOnce w = true -> cursor_ok w ->
  Z.of_nat (length (stored redis.apiKeysKey w)) <= Go.max_int ->
  let r := redis.GetAPIKey ctx w in
  (fst (fst r), currentPos (snd r))
  = outcome (path1 w) w (stored redis.apiKeysKey w) id.
Proof.
  intros Honce Hc Hmax.
  unfold outcome, path1, stored in *. unfold_selector. run.
  rewrite Honce. mcbn.
  destruct (client w); mcbn.
  2: { fallback_case w. exact Hc. }
  destruct (goredis.head_fault (w_faults w)); mcbn.
  { fallback_case w. exact Hc. }
  remember (default [] (w_redis w !! redis.apiKeysKey)) as pool eqn:Hpool.
  destruct (Z.eqb_spec (Z.of_nat (length pool)) 0) as [H0|H0]; mcbn.
  { fallback_case w. exact Hc. }
  destruct (rem_step (currentPos w) (Z.of_nat (length pool)) Hc ltac:(lia))
    as [_ R1].
  pose proof (Z.mod_pos_bound (currentPos w + 1) (Z.of_nat (length pool))
                ltac:(lia)) as Hb.
  rewrite !R1.
  destruct (goredis.head_fault (tail (w_faults w))); mcbn.
  { fallback_case w. lia. }
  rewrite <- ?Hpool.
  destruct (Z.ltb_spec ((currentPos w + 1) mod Z.of_nat (length pool)) 0);
    [lia |]. mcbn. rewrite <- ?Hpool.
  destruct (Z.ltb_spec ((currentPos w + 1) mod Z.of_nat (length pool)) 0);
    [lia |].
  destruct (lookup_lt_is_Some_2 pool
              (Z.to_nat ((currentPos w + 1) mod Z.of_nat (length pool))))
    as [v Hv]; [lia |].
  rewrite Hv. mcbn. rewrite (index_lookup pool _ v) by (assumption || lia).
  reflexivity.
Qed.

Lemma advance_bounds (c F : Z) :
  0 <= c < Go.max_int -> 0 <= F <= Go.max_int ->
  0 <= advance c F < Go.max_int.
Proof.
  intros Hc HF. unfold advance.
  destruct (Z.eqb_spec F 0) as [->|H0]; [exact Hc |].
  apply mod_bounds; lia.
Qed.

(** A call of [redis.GetAPIKey] keeps the cursor within its bounds, so the
    index of [getFallbackAPIKey] is never negative. *)
Lemma selection_keeps_cursor_bounds (ctx : trace.Context) (w : World) :
  clientOnce w = true -> cursor_ok w ->
  Z.of_nat (length (stored redis.apiKeysKey w)) <= Go.max_int ->
  Z.of_nat (length (fallback w)) <= Go.max_int ->
  cursor_ok (snd (redis.GetAPIKey ctx w)).
Proof.
  intros Honce Hc Hmax Hfb.
  pose proof (GetAPIKey_outcome ctx w Honce Hc Hmax) as E. cbv zeta in E.
  apply (f_equal snd) in E. cbn [snd] in E.
  unfold cursor_ok in *. rewrite E. clear E.
  set (N := Z.of_nat (length (stored redis.apiKeysKey w))) in *.
  set (F := Z.of_nat (length (fallback w))) in *.
  assert (HF : 0 <= F <= Go.max_int) by (unfold F; lia).
  assert (Hfall : 0 <= advance (currentPos w) F < Go.max_int)
    by now apply advance_bounds.
  unfold path1. fold N.
  destruct (negb (client w)); [exact Hfall |].
  destruct (goredis.head_fault (w_faults w)); [exact Hfall |].
  destruct (Z.eqb_spec N 0) as [H0|H0]; [exact Hfall |].
  assert (HN : 0 < N) by (unfold N in *; lia).
  pose proof (mod_bounds (currentPos w + 1) N HN Hmax) as Hm.
  destruct (goredis.head_fault (tail (w_faults w))); cbn [outcome snd].
  - unfold outcome. cbn [snd]. fold N F. now apply advance_bounds.
  - unfold outcome. cbn [snd]. fold N. exact Hm.
Qed.

(** [redis2.GetAPIKey] as a function of the state. *)
Lemma GetAPIKey2_outcome `{json.Decoder} (ctx : trace.Context) (w : World) :
  clientOnce w = true -> cursor_ok w ->
  Z.of_nat (length (stored redis2.apiKeysKey w)) <= Go.max_int ->
  let r := redis2.GetAPIKey ctx w in
  (fst (fst (fst r)), currentPos (snd r))
  = outcome (path2 w) w (stored redis2.apiKeysKey w) decoded_key.
Proof.
  intros Honce Hc Hmax.
  unfold outcome, path2, decoded_key, stored in *. unfold_selector. run.
  rewrite Honce. mcbn.
  destruct (client w); mcbn.
  2: { fallback_case w. exact Hc. }
  destruct (goredis.head_fault (w_faults w)); mcbn.
  { fallback_case w. exact Hc. }
  remember (default [] (w_redis w !! redis2.apiKeysKey)) as pool eqn:Hpool.
  destruct (Z.eqb_spec (Z.of_nat (length pool)) 0) as [H0|H0]; mcbn.
  { fallback_case w. exact Hc. }
  destruct (rem_step (currentPos w) (Z.of_nat (length pool)) Hc ltac:(lia))
    as [_ R1].
  pose proof (Z.mod_pos_bound (currentPos w + 1) (Z.of_nat (length pool))
                ltac:(lia)) as Hb.
  rewrite !R1.
  destruct (goredis.head_fault (tail (w_faults w))); mcbn.
  { fallback_case w. lia. }
  rewrite <- ?Hpool.
  destruct (Z.ltb_spec ((currentPos w + 1) mod Z.of_nat (length pool)) 0);
    [lia |]. mcbn. rewrite <- ?Hpool.
  destruct (Z.ltb_spec ((currentPos w + 1) mod Z.of_nat (length pool)) 0);
    [lia |].
  destruct (lookup_lt_is_Some_2 pool
              (Z.to_nat ((currentPos w + 1) mod Z.of_nat (length pool))))
    as [v Hv]; [lia |].
  rewrite Hv. mcbn. rewrite (index_lookup pool _ v) by (assumption || lia).
  destruct (json.Unmarshal_str v); mcbn.
  - reflexivity.
  - fallback_case w. lia.
Qed.

(** ** Claim C3: how far one call moves the cursor *)

(** C3, counterexample.  With three stored records and three fallback keys
    and the cursor at 0, one call of [GetAPIKey] whose fetch fails (first
    revision: the scripted failure of LINDEX) or whose record does not decode
    (second revision) leaves the cursor at 2, not at (0 + 1) mod 3: the call
    has advanced it twice. *)
Lemma cursor_advances_twice :
  currentPos c3_world = 0
  /\ length (stored redis.apiKeysKey c3_world) = 3%nat
  /\ length (stored redis2.apiKeysKey c3_world) = 3%nat
  /\ length (fallback c3_world) = 3%nat
  /\ (redis.GetAPIKey trace.Background c3_world).1 = ("k1", None)
  /\ currentPos (redis.GetAPIKey trace.Background c3_world).2 = 2
  /\ (@redis2.GetAPIKey json.reference trace.Background
        (set_faults [] c3_world)).1 = ("k1", EmptyString, None)
  /\ currentPos (@redis2.GetAPIKey json.reference trace.Background
                   (set_faults [] c3_world)).2 = 2
  /\ 2 <> (0 + 1) mod 3.
Proof. vm_compute. repeat split; congruence. Qed.

Lemma getFallbackAPIKey_outcome (w : World) :
  cursor_ok w ->
  let r := redis.getFallbackAPIKey w in
  (fst r, currentPos (snd r))
  = (fb_key w (currentPos w),
     advance (currentPos w) (Z.of_nat (length (fallback w)))).
Proof.
  intros Hc. destruct (redis.getFallbackAPIKey w) as [k w1] eqn:E.
  cbn [fst snd]. eapply fallback_obs; eauto.
Qed.

(** C3, as amended.  Once the connection has been tried, one call of the
    selection operation returns the key and leaves the cursor that [outcome]
    gives for its path.  Each branch that runs reduces the cursor modulo its
    own pool length and advances it by exactly 1: the durable branch sets
    the cursor to (c + 1) mod N and uses that as the index; the fallback
    branch uses c mod F as the index and sets the cursor to (c + 1) mod F,
    or leaves it alone when there is no fallback key.  A call runs one
    branch, except that a call whose fetch or decode fails runs the fallback
    branch after the durable one, so its cursor moves twice. *)
Theorem selection_moves_cursor `{json.Decoder} (ctx : trace.Context)
  (w : World) :
  clientOnce w = true -> cursor_ok w ->
  Z.of_nat (length (stored redis.apiKeysKey w)) <= Go.max_int ->
  Z.of_nat (length (stored redis2.apiKeysKey w)) <= Go.max_int ->
  (let r := redis.GetAPIKey ctx w in
   (fst (fst r), currentPos (snd r))
   = outcome (path1 w) w (stored redis.apiKeysKey w) id)
  /\ (let r := redis2.GetAPIKey ctx w in
      (fst (fst (fst r)), currentPos (snd r))
      = outcome (path2 w) w (stored redis2.apiKeysKey w) decoded_key)
  /\ (let r := redis.getFallbackAPIKey w in
      (fst r, currentPos (snd r)) = outcome FallbackOnly w [] id)
  /\ (forall N : Z, 0 < N -> 0 <= (currentPos w + 1) mod N < N)
  /\ (forall F : Z, 0 < F -> 0 <= currentPos w mod F < F).
Proof.
  intros Honce Hc H1 H2. repeat split.
  - now apply GetAPIKey_outcome.
  - now apply GetAPIKey2_outcome.
  - now apply getFallbackAPIKey_outcome.
  - now apply Z.mod_pos_bound.
  - now apply Z.mod_pos_bound.
  - now apply Z.mod_pos_bound.
  - now apply Z.mod_pos_bound.
Qed.

Lemma selection_moves_cursor_witness :
  (let r := @redis2.GetAPIKey json.reference trace.Background
              (set_faults [] c3_world) in
   (fst (fst (fst r)), currentPos (snd r)))
  = (fb_key c3_world ((0 + 1) mod 3), advance ((0 + 1) mod 3) 3).
Proof.
  destruct (@selection_moves_cursor json.reference trace.Background
              (set_faults [] c3_world)) as (_ & H2 & _).
  - reflexivity.
  - vm_compute; split; [discriminate | reflexivity].
  - vm_compute; discriminate.
  - vm_compute; discriminate.
  - cbv zeta in H2 |- *. rewrite H2. reflexivity.
Defined.

(** ** Claim C5: the selector never fails *)

Lemma GetAPIKey2_error_nil `{json.Decoder} (ctx : trace.Context) (w : World) :
  snd (fst (redis2.GetAPIKey ctx w)) = None.
Proof. unfold_selector. run. paths; reflexivity. Qed.

Lemma getFallbackAPIKey_empty (w : World) :
  fallback w = [] -> redis.getFallbackAPIKey w = (EmptyString, w).
Proof. intros E. rewrite getFallbackAPIKey_spec. cbn zeta. now rewrite E. Qed.

Ltac exhausted w Hs Hf :=
  repeat (mcbn;
          first
            [ rewrite Hs;
              change (Z.of_nat (@length string []) =? 0) with true
            | match goal with
              | |- context [redis.getFallbackAPIKey ?W] =>
                  rewrite (getFallbackAPIKey_empty W)
                    by (rewrite (fallback_frame w W) by reflexivity; exact Hf)
              end
            | branch ]).

Lemma GetAPIKey_exhausted (ctx : trace.Context) (w : World) :
  stored redis.apiKeysKey w = [] -> fallback w = [] ->
  fst (fst (redis.GetAPIKey ctx w)) = EmptyString.
Proof.
  unfold stored. intros Hs Hf. unfold_selector. run.
  exhausted w Hs Hf; reflexivity.
Qed.

Lemma GetAPIKey2_exhausted `{json.Decoder} (ctx : trace.Context) (w : World) :
  stored redis2.apiKeysKey w = [] -> fallback w = [] ->
  fst (fst (fst (redis2.GetAPIKey ctx w))) = EmptyString.
Proof.
  unfold stored. intros Hs Hf. unfold_selector. run.
  exhausted w Hs Hf; reflexivity.
Qed.

Lemma getFallbackAPIKey_sent (w : World) :
  w_sent (snd (redis.getFallbackAPIKey w)) = w_sent w.
Proof.
  rewrite getFallbackAPIKey_spec. cbn zeta.
  destruct (_ =? 0); reflexivity.
Qed.

Lemma GetAPIKey_sent (ctx : trace.Context) (w : World) :
  w_sent (snd (redis.GetAPIKey ctx w)) = w_sent w.
Proof.
  unfold_selector. run.
  repeat (mcbn;
          first
            [ match goal with
              | |- context [redis.getFallbackAPIKey ?W] =>
                  let E := fresh "E" in
                  pose proof (getFallbackAPIKey_sent W) as E;
                  destruct (redis.getFallbackAPIKey W); cbn [snd] in E
              end
            | branch ]); try reflexivity; assumption.
Qed.

(** [getAPIKey] with a key in the request, and without. *)
Lemma getAPIKey_override (in_ : handler.SendToGeminiInput) (w : World) :
  handler.APIKey in_ <> EmptyString ->
  handler.getAPIKey in_ w = (handler.APIKey in_, w).
Proof.
  intros Hk. unfold handler.getAPIKey.
  destruct (String.eqb_spec (handler.APIKey in_) EmptyString);
    [congruence | reflexivity].
Qed.

Lemma getAPIKey_selector (in_ : handler.SendToGeminiInput) (w : World) :
  handler.APIKey in_ = EmptyString ->
  let r := redis.GetAPIKey (selector_ctx w) (selector_world w) in
  handler.getAPIKey in_ w = (fst (fst r), snd r).
Proof.
  intros Hk. unfold handler.getAPIKey, trace.WrapTraceInfo. rewrite Hk.
  run. mcbn. fold (selector_ctx w). fold (selector_world w).
  pose proof (GetAPIKey_error_nil (selector_ctx w) (selector_world w)) as He.
  destruct (redis.GetAPIKey (selector_ctx w) (selector_world w))
    as [[k e] w1].
  cbn [fst snd] in He |- *. subst e. reflexivity.
Qed.

(** A key shorter than 8 bytes: the request is refused, and the world is
    left as [getAPIKey] left it. *)
Lemma SendToGemini_short (ctx : trace.Context)
  (in_ : handler.SendToGeminiInput) (w : World) :
  let k := fst (handler.getAPIKey in_ w) in
  (String.length k < 8)%nat ->
  handler.SendToGemini ctx in_ w
  = (match handler.targetURL (handler.Url in_) k with
     | Err e => Err (handler.CouldNotParseUrl e)
     | Ok _ => Err (handler.InvalidApiKey k)
     end, snd (handler.getAPIKey in_ w)).
Proof.
  intros k Hlen. subst k. unfold handler.SendToGemini. unfold bind at 1.
  destruct (handler.getAPIKey in_ w) as [k w1]. cbn [fst snd] in *.
  destruct (handler.targetURL (handler.Url in_) k); [| reflexivity].
  unfold Go.len. destruct (Nat.ltb_spec (String.length k) 8); [reflexivity | lia].
Qed.

Lemma getAPIKey_sent (in_ : handler.SendToGeminiInput) (w : World) :
  w_sent (snd (handler.getAPIKey in_ w)) = w_sent w.
Proof.
  destruct (String.eqb_spec (handler.APIKey in_) EmptyString) as [E|E].
  - rewrite (getAPIKey_selector in_ w E). cbn [snd].
    now rewrite GetAPIKey_sent.
  - now rewrite (getAPIKey_override in_ w E).
Qed.

Lemma length_zero_iff (l : list string) :
  (Z.of_nat (length l) =? 0) = true <-> l = [].
Proof.
  destruct l; cbn [length]; split; intros E; try reflexivity; try congruence.
  apply Z.eqb_eq in E. lia.
Qed.

Lemma length_nonzero (l : list string) :
  l <> [] -> (Z.of_nat (length l) =? 0) = false.
Proof.
  intros Hne. destruct (Z.of_nat (length l) =? 0) eqn:E; [| reflexivity].
  apply length_zero_iff in E. congruence.
Qed.

(** C5.  [GetAPIKey] returns a nil error in every state, in both
    revisions.  Once the connection has been tried, it returns the key of
    the fallback branch when the backing is down, when the count fails,
    when the stored list is empty, when the fetch fails and (second
    revision) when the fetched record does not decode.  With no stored
    record and no fallback key it returns the empty string, which
    [SendToGemini] refuses: its result is the error for an invalid key, or
    the error of a URL that does not parse, and nothing is sent upstream. *)
Theorem selection_never_fails `{json.Decoder} (ctx : trace.Context)
  (w : World) :
  let c := currentPos w in
  let key1 := fst (fst (redis.GetAPIKey ctx w)) in
  let key2 := fst (fst (fst (redis2.GetAPIKey ctx w))) in
  let pool1 := stored redis.apiKeysKey w in
  let pool2 := stored redis2.apiKeysKey w in
  let next (pool : list string) := (c + 1) mod Z.of_nat (length pool) in
  (snd (fst (redis.GetAPIKey ctx w)) = None
   /\ snd (fst (redis2.GetAPIKey ctx w)) = None)
  /\ (clientOnce w = true -> cursor_ok w ->
      Z.of_nat (length pool1) <= Go.max_int ->
      Z.of_nat (length pool2) <= Go.max_int ->
      (client w = false -> key1 = fb_key w c /\ key2 = fb_key w c)
      /\ (client w = true -> goredis.head_fault (w_faults w) = true ->
          key1 = fb_key w c /\ key2 = fb_key w c)
      /\ (client w = true -> goredis.head_fault (w_faults w) = false ->
          (pool1 = [] -> key1 = fb_key w c)
          /\ (pool2 = [] -> key2 = fb_key w c))
      /\ (client w = true -> goredis.head_fault (w_faults w) = false ->
          goredis.head_fault (tail (w_faults w)) = true ->
          (pool1 <> [] -> key1 = fb_key w (next pool1))
          /\ (pool2 <> [] -> key2 = fb_key w (next pool2)))
      /\ (client w = true -> goredis.head_fault (w_faults w) = false ->
          goredis.head_fault (tail (w_faults w)) = false -> pool2 <> [] ->
          json.Unmarshal_str (redis.index pool2 (next pool2)) = None ->
          key2 = fb_key w (next pool2)))
  /\ (fallback w = [] ->
      (pool1 = [] -> key1 = EmptyString)
      /\ (pool2 = [] -> key2 = EmptyString))
  /\ (forall in_ : handler.SendToGeminiInput,
        handler.APIKey in_ = EmptyString -> pool1 = [] -> fallback w = [] ->
        let r := handler.SendToGemini ctx in_ w in
        (fst r = Err (handler.InvalidApiKey EmptyString)
         \/ exists e, fst r = Err (handler.CouldNotParseUrl e))
        /\ w_sent (snd r) = w_sent w).
Proof.
  intros c key1 key2 pool1 pool2 next.
  split; [split; [apply GetAPIKey_error_nil | apply GetAPIKey2_error_nil] |].
  split; [| split].
  - intros Honce Hc Hm1 Hm2.
    pose proof (GetAPIKey_outcome ctx w Honce Hc Hm1) as O1.
    pose proof (GetAPIKey2_outcome ctx w Honce Hc Hm2) as O2.
    cbv zeta in O1, O2. fold key1 in O1. fold key2 in O2.
    fold pool1 in O1. fold pool2 in O2.
    unfold path1 in O1. unfold path2 in O2. fold pool1 in O1. fold pool2 in O2.
    split; [| split; [| split; [| split]]].
    + intros Hcl. rewrite Hcl in O1, O2. cbn in O1, O2. unfold c; split; congruence.
    + intros Hcl Hf. rewrite Hcl, Hf in O1, O2. cbn in O1, O2.
      unfold c; split; congruence.
    + intros Hcl Hf. rewrite Hcl, Hf in O1, O2. split; intros Hp.
      * rewrite (proj2 (length_zero_iff pool1) Hp) in O1. cbn in O1.
        unfold c. congruence.
      * rewrite (proj2 (length_zero_iff pool2) Hp) in O2. cbn in O2.
        unfold c. congruence.
    + intros Hcl Hf Hf'. rewrite Hcl, Hf, Hf' in O1, O2. split; intros Hp.
      * rewrite (length_nonzero _ Hp) in O1. cbn in O1. unfold next, c. congruence.
      * rewrite (length_nonzero _ Hp) in O2. cbn in O2. unfold next, c. congruence.
    + intros Hcl Hf Hf' Hp Hd. unfold next, c in Hd.
      rewrite Hcl, Hf, Hf', (length_nonzero _ Hp), Hd in O2. cbn in O2.
      unfold next, c. congruence.
  - intros Hfb. split; intros Hp.
    + now apply GetAPIKey_exhausted.
    + now apply GetAPIKey2_exhausted.
  - intros in_ Hk Hp Hfb r.
    pose proof (getAPIKey_selector in_ w Hk) as Hsel. cbv zeta in Hsel.
    assert (Hempty : fst (handler.getAPIKey in_ w) = EmptyString).
    { rewrite Hsel. cbn [fst]. apply GetAPIKey_exhausted.
      - exact Hp.
      - rewrite <- Hfb. now apply fallback_frame. }
    pose proof (SendToGemini_short ctx in_ w) as Hshort. cbv zeta in Hshort.
    rewrite Hempty in Hshort. specialize (Hshort ltac:(cbn; lia)).
    subst r. rewrite Hshort. cbn [fst snd]. split.
    + destruct (handler.targetURL (handler.Url in_) EmptyString); eauto.
    + apply getAPIKey_sent.
Qed.

(** ** Claim C4: which records initialization writes *)

Lemma check_Accepted `{json.Decoder} (record : string) :
  redis2.check record = redis2.Accepted <-> has_key_member record = true.
Proof.
  unfold redis2.check, has_key_member.
  destruct (json.Unmarshal_any record) as [m|]; [| split; discriminate].
  destruct (m !! "key") eqn:E.
  - split; intros _; [| reflexivity].
    apply bool_decide_eq_true. eauto.
  - split; [discriminate |]. intros Hd.
    apply bool_decide_eq_true in Hd. destruct Hd. discriminate.
Qed.

Lemma stored_insert (key : string) (l : list string) (w : World) :
  stored key (set_redis <[key := l]> w) = l.
Proof. unfold stored. cbn. now rewrite lookup_insert_eq. Qed.

(** The loop of [redis2.InitializeAPIKeys] when no command fails: the
    records with a [key] member are appended, in order. *)
Lemma InitializeAPIKeys2_loop_spec `{json.Decoder} (ctx : trace.Context)
  (apiKeys : list string) :
  forall w : World,
    w_faults w = [] ->
    let r := redis2.InitializeAPIKeys_loop ctx apiKeys w in
    fst r = None
    /\ stored redis2.apiKeysKey (snd r)
       = (stored redis2.apiKeysKey w ++ filter has_key_member apiKeys)%list.
Proof.
  induction apiKeys as [|key rest IH]; intros w Hf.
  - cbn. now rewrite app_nil_r.
  - cbn [redis2.InitializeAPIKeys_loop filter list_filter].
    pose proof (check_Accepted key) as Hacc.
    destruct (redis2.check key) eqn:Hv.
    + unfold log_Error. run.
      destruct (decide (has_key_member key)) as [Hk|Hk].
      { apply Is_true_true in Hk. apply Hacc in Hk. discriminate. }
      apply (IH (add_log _ w)). exact Hf.
    + unfold log_Error. run.
      destruct (decide (has_key_member key)) as [Hk|Hk].
      { apply Is_true_true in Hk. apply Hacc in Hk. discriminate. }
      apply (IH (add_log _ w)). exact Hf.
    + destruct (decide (has_key_member key)) as [Hk|Hk].
      2: { exfalso. apply Hk. apply Is_true_true. now apply Hacc. }
      unfold goredis.RPush, goredis.next_fault, goredis.list_at. run.
      rewrite Hf. change (goredis.head_fault []) with false. mcbn.
      fold (stored redis2.apiKeysKey w).
      match goal with
      | |- context [set_redis ?f ?w0] => set (w1 := set_redis f w0)
      end.
      specialize (IH w1 eq_refl). cbv zeta in IH. destruct IH as [IH1 IH2].
      split; [exact IH1 |]. rewrite IH2. subst w1.
      rewrite stored_insert. now rewrite <- app_assoc.
Qed.

(** C4, counterexample.  A fallback record whose [key] member is present
    and empty is written to the store (and so is one whose [key] member is
    a number). *)
Lemma empty_key_is_written :
  let record := Go.requote "{'key':''}" in
  let r := @redis2.InitializeAPIKeys json.reference trace.Background c4_world in
  record ∈ fallback c4_world
  /\ (@json.Unmarshal_any json.reference record ≫= (fun m => m !! "key"))
     = Some (json.Str EmptyString)
  /\ stored redis2.apiKeysKey c4_world = []
  /\ stored redis2.apiKeysKey (snd r)
     = [record; Go.requote "{'key':12}"].
Proof.
  cbv zeta. split; [| split; [| split]].
  - vm_compute. left.
  - vm_compute. reflexivity.
  - reflexivity.
  - vm_compute. reflexivity.
Qed.

(** C4, as amended.  With the backing up, no failing command and an empty
    stored list, [InitializeAPIKeys] returns nil and the store then holds,
    in order, the fallback records that decode into a map with a [key]
    member -- whatever that member holds, the empty string included; every
    other record is skipped. *)
Theorem initialize_writes_records_with_key `{json.Decoder}
  (ctx : trace.Context) (w : World) :
  connected w -> w_faults w = [] -> stored redis2.apiKeysKey w = [] ->
  let r := redis2.InitializeAPIKeys ctx w in
  fst r = None
  /\ stored redis2.apiKeysKey (snd r) = filter has_key_member (fallback w)
  /\ (forall record : string,
        record ∈ stored redis2.apiKeysKey (snd r)
        <-> record ∈ fallback w /\ has_key_member record = true).
Proof.
  intros [Honce Hcl] Hf Hs.
  assert (Hmain :
    let r := redis2.InitializeAPIKeys ctx w in
    fst r = None
    /\ stored redis2.apiKeysKey (snd r) = filter has_key_member (fallback w)).
  { unfold redis2.InitializeAPIKeys, redis2.GetClient, redis.GetClient,
      redis2.getAPIKeysFromEnv, goredis.LLen, goredis.next_fault,
      goredis.list_at, log_Info.
    unfold bind, ret, gets, modify. rewrite Honce. mcbn. rewrite Hcl. mcbn.
    rewrite Hf. change (goredis.head_fault []) with false. mcbn.
    fold (stored redis2.apiKeysKey w). rewrite Hs.
    change (Z.of_nat (@length string []) >? 0) with false. mcbn.
    rewrite getAPIKeysFromEnv_pure.
    rewrite (fallback_frame w (set_faults [] w)) by reflexivity.
    destruct (fallback w) as [|k ks] eqn:Hfb.
    - cbn. split; [reflexivity | exact Hs].
    - cbn [length Nat.eqb].
      pose proof (InitializeAPIKeys2_loop_spec ctx (k :: ks) (set_faults [] w)
                    eq_refl) as [L1 L2].
      destruct (redis2.InitializeAPIKeys_loop ctx (k :: ks) (set_faults [] w))
        as [e w1].
      cbn [fst snd] in L1, L2. subst e. mcbn. split; [reflexivity |].
      unfold stored in L2 |- *. cbn in L2 |- *.
      unfold stored in Hs. rewrite Hs in L2. exact L2. }
  cbv zeta in Hmain |- *. destruct Hmain as [M1 M2].
  split; [exact M1 | split; [exact M2 |]].
  intros record. rewrite M2, list_elem_of_filter.
  rewrite Is_true_true. tauto.
Qed.

Lemma initialize_writes_records_with_key_witness :
  stored redis2.apiKeysKey
    (snd (@redis2.InitializeAPIKeys json.reference trace.Background c4_world))
  = filter (@has_key_member json.reference) (fallback c4_world).
Proof.
  destruct (@initialize_writes_records_with_key json.reference
              trace.Background c4_world) as (_ & Hw & _).
  - split; reflexivity.
  - reflexivity.
  - reflexivity.
  - exact Hw.
Defined.

(** ** Claim C7: the relay of an upstream response *)

Lemma add_values_lookup (i : string) (vs : list string) :
  http.CanonicalMIMEHeaderKey i = i ->
  forall (a : http.Header) (k : string),
    fold_left (fun a v => http.Header_Add a i v) vs a !! k
    = if decide (k = i)
      then match vs with
           | [] => a !! k
           | _ => Some (default [] (a !! k) ++ vs)%list
           end
      else a !! k.
Proof.
  intros Hi. induction vs as [|v vs IH]; intros a k.
  - cbn. now destruct (decide (k = i)).
  - cbn [fold_left]. rewrite IH. unfold http.Header_Add. rewrite Hi.
    destruct (decide (k = i)) as [->|Hne].
    + rewrite lookup_insert_eq. cbn [default].
      destruct vs; [reflexivity |]. unfold id. now rewrite <- app_assoc.
    + now rewrite lookup_insert_ne by congruence.
Qed.

Lemma addAll_lookup (headers h : http.Header) :
  canonical_keys headers ->
  forall k : string,
    api.addAll headers h !! k
    = match headers !! k with
      | Some (v :: vs) => Some (default [] (h !! k) ++ v :: vs)%list
      | _ => h !! k
      end.
Proof.
  unfold api.addAll.
  apply (map_fold_weak_ind
           (fun r m => canonical_keys m ->
                       forall k, r !! k
                                 = match m !! k with
                                   | Some (v :: vs) =>
                                       Some (default [] (h !! k) ++ v :: vs)%list
                                   | _ => h !! k
                                   end)).
  - intros _ k. now rewrite lookup_empty.
  - intros i x m r Hnone IH Hcanon k.
    assert (Hi : http.CanonicalMIMEHeaderKey i = i)
      by (apply (Hcanon i x); apply lookup_insert_eq).
    assert (Hm : canonical_keys m).
    { intros j vs Hj. apply (Hcanon j vs).
      rewrite lookup_insert_ne; [exact Hj |]. intros ->. congruence. }
    specialize (IH Hm). rewrite (add_values_lookup i x Hi).
    destruct (decide (k = i)) as [->|Hne].
    + rewrite lookup_insert_eq, IH, Hnone. now destruct x.
    + rewrite lookup_insert_ne by congruence. apply IH.
Qed.

(** C7, counterexample.  An upstream answer with no header at all is
    relayed with three headers: beside the trace identifier and the source
    marker, the relay adds a content type the upstream did not send. *)
Lemma relay_adds_content_type :
  let resp := handler.mkGeminiResponse EmptyString 204 ∅ in
  let w := api.doGeminiResponse trace.Background resp http.newResponseWriter in
  handler.resp_Headers resp !! "Content-Type" = None
  /\ http.header_sent w !! "Content-Type" = Some ["application/json"]
  /\ size (http.header_sent w) = 3%nat.
Proof. vm_compute. repeat split. Qed.

Lemma Header_Get_lookup (h : http.Header) (k : string) :
  http.CanonicalMIMEHeaderKey k = k ->
  http.Header_Get h k = hd EmptyString (default [] (h !! k)).
Proof.
  intros Hk. unfold http.Header_Get. rewrite Hk.
  destruct (h !! k) as [[|x l]|]; reflexivity.
Qed.

(** C7, as amended.  For an upstream answer whose header keys are in
    canonical form, written to a fresh response writer, the relay sends the
    upstream status code and the upstream body unchanged, and under every
    header name the values [relayed] gives: all the upstream values in
    order, after the relay's own value for the trace identifier and for the
    source marker, and the default content type when the upstream gave no
    content type or an empty one. *)
Theorem relay_preserves_response (ctx : trace.Context)
  (resp : handler.GeminiResponse) :
  canonical_keys (handler.resp_Headers resp) ->
  let w := api.doGeminiResponse ctx resp http.newResponseWriter in
  http.status_sent w = handler.resp_StatusCode resp
  /\ http.rw_body w = handler.resp_Body resp
  /\ (forall k : string,
        http.header_sent w !! k
        = relayed (trace.GetTraceId ctx) (handler.resp_Headers resp) k).
Proof.
  intros Hcanon. unfold api.doGeminiResponse.
  set (tid := trace.GetTraceId ctx).
  set (hdr := handler.resp_Headers resp) in *.
  cbn [http.set_header http.newResponseWriter http.rw_header http.rw_status
       http.rw_sent_header http.rw_body].
  set (h2 := http.Header_Set (http.Header_Set ∅ "X-Trace-Id" tid)
               "X-Content-From" "gemini").
  assert (Hh2 : forall k, h2 !! k = match extra tid k with
                                    | [] => None
                                    | vals => Some vals
                                    end).
  { intros k. subst h2. unfold http.Header_Set, extra.
    change (http.CanonicalMIMEHeaderKey "X-Trace-Id") with "X-Trace-Id".
    change (http.CanonicalMIMEHeaderKey "X-Content-From") with "X-Content-From".
    destruct (String.eqb_spec k "X-Trace-Id") as [->|N1].
    - rewrite lookup_insert_ne by discriminate. now rewrite lookup_insert_eq.
    - destruct (String.eqb_spec k "X-Content-From") as [->|N2].
      + now rewrite lookup_insert_eq.
      + rewrite !lookup_insert_ne by congruence. now rewrite lookup_empty. }
  set (h3 := api.addAll hdr h2).
  assert (Hh3 : forall k, h3 !! k
                          = match (extra tid k ++ default [] (hdr !! k))%list with
                            | [] => None
                            | _ => Some (extra tid k ++ default [] (hdr !! k))%list
                            end).
  { intros k. subst h3. rewrite (addAll_lookup hdr h2 Hcanon), Hh2.
    destruct (extra tid k), (hdr !! k) as [[|v vs]|];
      cbn [default app]; rewrite ?app_nil_r; reflexivity. }
  rewrite (Header_Get_lookup h3 "Content-Type" eq_refl).
  assert (Hct : hd EmptyString (default [] (h3 !! "Content-Type"))
                = hd EmptyString (extra tid "Content-Type"
                                  ++ default [] (hdr !! "Content-Type"))%list).
  { rewrite Hh3. now destruct (_ ++ _)%list. }
  rewrite Hct.
  destruct (String.eqb_spec
              (hd EmptyString (extra tid "Content-Type"
                               ++ default [] (hdr !! "Content-Type"))%list)
              EmptyString) as [Hempty|Hfull];
    (split; [reflexivity | split; [reflexivity |]]); intros k; unfold relayed;
    cbv beta iota zeta delta
      [http.set_header http.WriteHeader http.Write http.rw_header
       http.rw_status http.rw_sent_header http.rw_body http.status_sent
       http.header_sent http.newResponseWriter];
    fold h2; fold h3.
  - unfold http.Header_Set.
    change (http.CanonicalMIMEHeaderKey "Content-Type") with "Content-Type".
    destruct (String.eqb_spec k "Content-Type") as [->|Hk].
    + rewrite lookup_insert_eq, Hempty. reflexivity.
    + rewrite lookup_insert_ne by congruence. cbn [andb]. apply Hh3.
  - destruct (String.eqb_spec k "Content-Type") as [->|Hk].
    + destruct (String.eqb_spec
                  (hd EmptyString (extra tid "Content-Type"
                                   ++ default [] (hdr !! "Content-Type"))%list)
                  EmptyString); [congruence |].
      cbn [andb]. apply Hh3.
    + cbn [andb]. apply Hh3.
Qed.

Lemma relay_preserves_response_witness :
  let w := api.doGeminiResponse trace.Background c7_response
             http.newResponseWriter in
  http.status_sent w = 200
  /\ http.rw_body w = "hi"
  /\ http.header_sent w !! "Content-Type" = Some ["text/plain"]
  /\ http.header_sent w !! "X-Content-From" = Some ["gemini"; "upstream"].
Proof.
  destruct (relay_preserves_response trace.Background c7_response)
    as (Hs & Hb & Hh).
  - unfold canonical_keys.
    apply (bool_decide_unpack
             (map_Forall (fun k _ => http.CanonicalMIMEHeaderKey k = k)
                         (handler.resp_Headers c7_response))).
    vm_compute. exact I.
  - cbv zeta. rewrite Hs, Hb, !Hh. repeat split.
Defined.

(** ** The request handler *)

Lemma MainHandle_unfold (rw : http.ResponseWriter) (r : http.Request)
  (w : World) :
  api.MainHandle rw r w
  = let ctx := selector_ctx w in
    let '(res, w2) :=
      handler.SendToGemini ctx (request_input r) (forward_world r w) in
    match res with
    | Err err =>
        (api.doStdResponse ctx (error_response err) rw,
         add_log (log.mkEntry log.LevelError (trace.GetTraceId ctx)
                    "send to gemini err: %v"
                    [log.AErr (handler.Error_Error err)]) w2)
    | Ok geminiResp =>
        (api.doGeminiResponse ctx geminiResp rw,
         add_log (log.mkEntry log.LevelInfo (trace.GetTraceId ctx)
                    "end request: %s"
                    [log.AStr (handler.Url (request_input r))]) w2)
    end.
Proof.
  unfold api.MainHandle, api.getCtx, trace.WrapTraceInfo, log_Info, log_Error.
  unfold bind, ret, gets, modify. cbv zeta.
  fold (selector_ctx w). fold (selector_world w). fold (request_input r).
  fold (forward_world r w).
  destruct (handler.SendToGemini (selector_ctx w) (request_input r)
              (forward_world r w)) as [[resp|err] w2]; reflexivity.
Qed.

(** ** Claim C2: the self-generated error response *)

(** C2, the code at a failing input.  [doStdResponse] never calls
    [WriteHeader]: whatever the response, a fresh writer sends it with
    status 200, and its body is the marshalled response used as a format
    string.  For the request [c2_request] the key is too short, and the
    caller receives status 200 and a body in which the closing quote of
    the JSON string has been taken for a verb: the body is not JSON. *)
Theorem error_response_has_status_200 :
  (forall (ctx : trace.Context) (resp : api.Response),
     let w := api.doStdResponse ctx resp http.newResponseWriter in
     http.status_sent w = 200
     /\ http.rw_body w = fmt.Sprintf (api.Marshal resp)
     /\ http.header_sent w !! "X-Content-From" = Some ["agent"]
     /\ http.header_sent w !! "X-Trace-Id" = Some [trace.GetTraceId ctx])
  /\ (let w := fst (api.MainHandle http.newResponseWriter c2_request c2_world) in
      fst (handler.SendToGemini (selector_ctx c2_world)
             (request_input c2_request) (forward_world c2_request c2_world))
      = Err (handler.InvalidApiKey "abc%")
      /\ http.status_sent w = 200
      /\ http.rw_body w
         = Go.requote "{'code':500,'body':'Internal server error. details: invalid api key: abc%!'(MISSING)}"
      /\ json.parse (http.rw_body w) = None).
Proof.
  split.
  - intros ctx resp. cbv zeta. repeat split.
  - vm_compute. repeat split.
Qed.

(** ** Claim C10: a short credential reaches the caller *)

Lemma all_bytes_app (p : ascii -> bool) (a b : string) :
  http.all_bytes p (a +:+ b) = http.all_bytes p a && http.all_bytes p b.
Proof.
  induction a as [|c a IH]; cbn; [reflexivity |].
  rewrite IH. now rewrite andb_assoc.
Qed.

Lemma encode_runes_plain (s : string) :
  forall fuel : nat,
    (String.length s <= fuel)%nat -> plain s = true ->
    json.encode_runes fuel s = s.
Proof.
  induction s as [|c s IH]; intros fuel Hlen Hp.
  - destruct fuel; reflexivity.
  - destruct fuel as [|fuel]; [cbn in Hlen; lia |].
    cbn in Hlen. unfold plain in Hp. cbn [http.all_bytes] in Hp.
    apply andb_true_iff in Hp as [Hc Hs].
    specialize (IH fuel ltac:(lia) Hs).
    cbn [json.encode_runes]. rewrite IH. clear IH Hs Hlen.
    destruct c as [[] [] [] [] [] [] [] []]; try discriminate Hc; reflexivity.
Qed.

Lemma plain_no_percent (s : string) :
  plain s = true -> Go.ContainsByte s "%" = false.
Proof.
  induction s as [|c s IH]; intros Hp; [reflexivity |].
  unfold plain in Hp. cbn [http.all_bytes] in Hp.
  apply andb_true_iff in Hp as [Hc Hs].
  cbn [Go.ContainsByte]. rewrite (IH Hs), orb_false_r.
  destruct c as [[] [] [] [] [] [] [] []]; try discriminate Hc; reflexivity.
Qed.

Lemma ContainsByte_app (a b : string) (c : ascii) :
  Go.ContainsByte (a +:+ b) c = Go.ContainsByte a c || Go.ContainsByte b c.
Proof.
  induction a as [|d a IH]; cbn; [reflexivity |].
  rewrite IH. now rewrite orb_assoc.
Qed.

Lemma doPrintf_no_verb (s : string) :
  forall fuel : nat,
    (String.length s <= fuel)%nat -> Go.ContainsByte s "%" = false ->
    fmt.doPrintf fuel s = s.
Proof.
  induction s as [|c s IH]; intros fuel Hlen Hp.
  - destruct fuel; reflexivity.
  - destruct fuel as [|fuel]; [cbn in Hlen; lia |].
    cbn in Hlen. cbn [Go.ContainsByte] in Hp.
    apply orb_false_iff in Hp as [Hc Hs].
    cbn [fmt.doPrintf]. rewrite Hc, (IH fuel) by (lia || assumption).
    reflexivity.
Qed.

(** The bytes written for an error whose message is plain. *)
Lemma error_body_plain (ctx : trace.Context) (msg : string) :
  plain msg = true ->
  http.rw_body
    (api.doStdResponse ctx
       (api.mkResponse 500 ("Internal server error. details: " +:+ msg))
       http.newResponseWriter)
  = Go.requote "{'code':500,'body':'Internal server error. details: "
    +:+ msg +:+ Go.requote "'}".
Proof.
  intros Hp.
  set (body := "Internal server error. details: " +:+ msg).
  assert (Hbody : plain body = true).
  { unfold body, plain. rewrite all_bytes_app. fold (plain msg).
    now rewrite Hp. }
  unfold api.doStdResponse, api.Marshal, json.Marshal_string, fmt.Sprintf.
  cbn [api.Code api.Body http.Write http.WriteHeader http.set_header
       http.newResponseWriter http.rw_body http.rw_status http.rw_header
       http.rw_sent_header].
  rewrite (encode_runes_plain body _ (Nat.le_refl _) Hbody).
  rewrite doPrintf_no_verb.
  - unfold body. cbn. now rewrite !append_assoc.
  - apply Nat.le_refl.
  - rewrite !ContainsByte_app. cbn [Go.ContainsByte].
    rewrite (plain_no_percent body Hbody). reflexivity.
Qed.

(** C10, counterexample.  Not every log statement renders credentials in
    masked form: for the short credential abc, whose masked form is
    <too_short>, the handler logs the error of the forwarder, and with it
    the credential itself. *)
Lemma short_credential_is_logged_raw :
  let out := api.MainHandle http.newResponseWriter c10_request c10_world in
  fst (handler.getAPIKey (request_input c10_request)
         (forward_world c10_request c10_world)) = "abc"
  /\ handler.maskAPIKey "abc" = "<too_short>"
  /\ last (w_log (snd out))
     = Some (log.mkEntry log.LevelError "trace-0" "send to gemini err: %v"
               [log.AErr "invalid api key: abc"])
  /\ Go.Contains "invalid api key: abc" "abc" = true.
Proof. vm_compute. repeat split. Qed.

(** C10, as amended.  For every request whose resolved credential is
    shorter than 8 bytes and whose URL parses, [SendToGemini] returns the
    error invalid api key followed by the credential as it is;
    [MainHandle] writes the self-generated response whose body field is
    that message after a fixed prefix, and logs the same message in its
    own error line; when the credential is made of plain bytes the bytes
    sent to the caller hold it as it is. *)
Theorem short_credential_disclosed (rw : http.ResponseWriter)
  (r : http.Request) (w : World) :
  let ctx := selector_ctx w in
  let in_ := request_input r in
  let w1 := forward_world r w in
  let k := fst (handler.getAPIKey in_ w1) in
  let out := api.MainHandle rw r w in
  (String.length k < 8)%nat ->
  (exists u, handler.targetURL (handler.Url in_) k = Ok u) ->
  fst (handler.SendToGemini ctx in_ w1) = Err (handler.InvalidApiKey k)
  /\ handler.Error_Error (handler.InvalidApiKey k) = "invalid api key: " +:+ k
  /\ fst out
     = api.doStdResponse ctx (error_response (handler.InvalidApiKey k)) rw
  /\ api.Body (error_response (handler.InvalidApiKey k))
     = "Internal server error. details: invalid api key: " +:+ k
  /\ last (w_log (snd out))
     = Some (log.mkEntry log.LevelError (trace.GetTraceId ctx)
               "send to gemini err: %v" [log.AErr ("invalid api key: " +:+ k)])
  /\ (plain k = true -> rw = http.newResponseWriter ->
      http.rw_body (fst out)
      = Go.requote
          "{'code':500,'body':'Internal server error. details: invalid api key: "
        +:+ k +:+ Go.requote "'}").
Proof.
  intros ctx in_ w1 k out Hlen [u Hu].
  pose proof (SendToGemini_short ctx in_ w1) as Hshort. cbv zeta in Hshort.
  fold k in Hshort. specialize (Hshort Hlen). rewrite Hu in Hshort.
  assert (Hout : out
                 = (api.doStdResponse ctx
                      (error_response (handler.InvalidApiKey k)) rw,
                    add_log (log.mkEntry log.LevelError (trace.GetTraceId ctx)
                               "send to gemini err: %v"
                               [log.AErr (handler.Error_Error
                                            (handler.InvalidApiKey k))])
                      (snd (handler.getAPIKey in_ w1)))).
  { subst out. rewrite MainHandle_unfold. cbv zeta.
    fold ctx. fold in_. fold w1. rewrite Hshort. reflexivity. }
  split; [now rewrite Hshort |]. split; [reflexivity |].
  split; [now rewrite Hout |]. split; [reflexivity |].
  split.
  - rewrite Hout. cbn [snd add_log w_log]. apply last_snoc.
  - intros Hp ->. rewrite Hout. cbn [fst].
    unfold error_response. cbn [handler.Error_Error].
    rewrite (error_body_plain ctx ("invalid api key: " +:+ k)).
    + cbn. rewrite ?append_assoc. reflexivity.
    + unfold plain. rewrite all_bytes_app. fold (plain k). now rewrite Hp.
Qed.

Lemma short_credential_disclosed_witness :
  http.rw_body
    (fst (api.MainHandle http.newResponseWriter c10_request c10_world))
  = Go.requote
      "{'code':500,'body':'Internal server error. details: invalid api key: abc'}".
Proof.
  destruct (short_credential_disclosed http.newResponseWriter c10_request
              c10_world) as (_ & _ & _ & _ & _ & Hbody).
  - vm_compute. lia.
  - eexists. vm_compute. reflexivity.
  - rewrite Hbody; reflexivity.
Defined.

(** ** Claim C6: the upstream URL *)

(** *** Escaping a query component and reading it back *)

Lemma escape_byte_roundtrip (c : ascii) (t : string) (r : string) :
  url.unescape t url.encodeQueryComponent = Ok r ->
  url.unescape (url.escape (String c EmptyString) url.encodeQueryComponent +:+ t)
    url.encodeQueryComponent
  = Ok (String c r).
Proof.
  intros Ht.
  destruct c as [[] [] [] [] [] [] [] []]; simpl; rewrite Ht; reflexivity.
Qed.

Lemma escape_cons (c : ascii) (s : string) (mode : url.encoding) :
  url.escape (String c s) mode
  = url.escape (String c EmptyString) mode +:+ url.escape s mode.
Proof.
  cbn [url.escape]. destruct (url.shouldEscape c mode); [| reflexivity].
  destruct mode, (Ascii.eqb c " "); reflexivity.
Qed.

Lemma QueryUnescape_QueryEscape (s : string) :
  url.QueryUnescape (url.QueryEscape s) = Ok s.
Proof.
  unfold url.QueryUnescape, url.QueryEscape.
  induction s as [|c s IH]; [reflexivity |].
  rewrite escape_cons. now apply escape_byte_roundtrip.
Qed.

Lemma escape_byte_no_separator (c d : ascii) :
  separator d = true ->
  Go.ContainsByte (url.escape (String c EmptyString) url.encodeQueryComponent) d
  = false.
Proof.
  intros Hd.
  assert (Hcases : d = "&"%char \/ d = ";"%char \/ d = "="%char).
  { destruct d as [[] [] [] [] [] [] [] []]; try discriminate Hd; auto. }
  destruct Hcases as [-> | [-> | ->]];
    destruct c as [[] [] [] [] [] [] [] []]; reflexivity.
Qed.

Lemma QueryEscape_no_separator (s : string) (d : ascii) :
  separator d = true -> Go.ContainsByte (url.QueryEscape s) d = false.
Proof.
  intros Hd. unfold url.QueryEscape.
  induction s as [|c s IH]; [reflexivity |].
  rewrite escape_cons, ContainsByte_app, IH, escape_byte_no_separator by exact Hd.
  reflexivity.
Qed.

(** *** Splitting and joining *)

Lemma Split_no_sep (s : string) (sep : ascii) :
  Go.ContainsByte s sep = false -> Go.Split s sep = [s].
Proof.
  induction s as [|c s IH]; intros Hs; [reflexivity |].
  cbn [Go.ContainsByte] in Hs. apply orb_false_iff in Hs as [Hc Hs].
  cbn [Go.Split]. rewrite Hc, (IH Hs). reflexivity.
Qed.

Lemma Split_app_sep (a b : string) (sep : ascii) :
  Go.ContainsByte a sep = false ->
  Go.Split (a +:+ String sep b) sep = a :: Go.Split b sep.
Proof.
  induction a as [|c a IH]; intros Ha.
  - cbn. now rewrite Ascii.eqb_refl.
  - cbn [Go.ContainsByte] in Ha. apply orb_false_iff in Ha as [Hc Ha].
    cbn. rewrite Hc, (IH Ha). reflexivity.
Qed.

Lemma Split_Join (l : list string) :
  l <> [] -> Forall (fun x => Go.ContainsByte x "&" = false) l ->
  Go.Split (Go.Join l "&") "&" = l.
Proof.
  induction l as [|x l IH]; intros Hne Hall; [congruence |].
  inversion Hall as [|? ? Hx Hl]; subst.
  destruct l as [|y l].
  - cbn. now apply Split_no_sep.
  - replace (Go.Join (x :: y :: l) "&")
      with (x +:+ String "&" (Go.Join (y :: l) "&")) by reflexivity.
    rewrite (Split_app_sep x _ "&" Hx). f_equal. now apply IH.
Qed.

Lemma Cut_app_sep (a b : string) (sep : ascii) :
  Go.ContainsByte a sep = false ->
  Go.Cut (a +:+ String sep b) sep = (a, b, true).
Proof.
  induction a as [|c a IH]; intros Ha.
  - cbn. now rewrite Ascii.eqb_refl.
  - cbn [Go.ContainsByte] in Ha. apply orb_false_iff in Ha as [Hc Ha].
    cbn. rewrite Hc, (IH Ha). reflexivity.
Qed.

Lemma Cut_no_sep (s : string) (sep : ascii) :
  Go.ContainsByte s sep = false -> Go.Cut s sep = (s, EmptyString, false).
Proof.
  induction s as [|c s IH]; intros Hs; [reflexivity |].
  cbn [Go.ContainsByte] in Hs. apply orb_false_iff in Hs as [Hc Hs].
  cbn. rewrite Hc, (IH Hs). reflexivity.
Qed.

(** *** Parsing an encoded query *)

Lemma encodePair_no_separator (kx : string * string) (d : ascii) :
  d = "&"%char \/ d = ";"%char ->
  Go.ContainsByte (encodePair kx) d = false.
Proof.
  intros Hd. unfold encodePair. rewrite !ContainsByte_app.
  rewrite !QueryEscape_no_separator by (destruct Hd as [->| ->]; reflexivity).
  destruct Hd as [->| ->]; reflexivity.
Qed.

Lemma parsePair_encoded (m : url.Values) (kx : string * string) :
  url.parsePair m (encodePair kx) = url.Values_Add m kx.1 kx.2.
Proof.
  unfold url.parsePair.
  rewrite encodePair_no_separator by auto.
  assert (Hne : String.eqb (encodePair kx) EmptyString = false).
  { unfold encodePair. destruct (url.QueryEscape kx.1); reflexivity. }
  rewrite Hne. unfold encodePair.
  change ("=" +:+ url.QueryEscape kx.2) with (String "=" (url.QueryEscape kx.2)).
  rewrite Cut_app_sep by (now apply QueryEscape_no_separator).
  now rewrite !QueryUnescape_QueryEscape.
Qed.

Lemma parse_encoded_pairs (kxs : list (string * string)) :
  forall m : url.Values,
    fold_left url.parsePair (map encodePair kxs) m = fold_left addPair kxs m.
Proof.
  induction kxs as [|kx kxs IH]; intros m; [reflexivity |].
  cbn [map fold_left]. rewrite parsePair_encoded. apply IH.
Qed.

Lemma ParseQuery_pairs (kxs : list (string * string)) :
  url.ParseQuery (Go.Join (map encodePair kxs) "&") = fold_left addPair kxs ∅.
Proof.
  unfold url.ParseQuery. destruct kxs as [|kx kxs]; [reflexivity |].
  rewrite Split_Join.
  - apply parse_encoded_pairs.
  - discriminate.
  - apply Forall_forall. intros x Hx. apply list_elem_of_fmap in Hx as [y [-> _]].
    apply encodePair_no_separator. auto.
Qed.

Lemma encodeKey_pairs (v : url.Values) (keys : list string) :
  flat_map (url.encodeKey v) keys = map encodePair (pairsOf v keys).
Proof.
  unfold pairsOf. induction keys as [|k keys IH]; [reflexivity |].
  cbn [flat_map]. rewrite map_app, IH. f_equal.
  unfold url.encodeKey. rewrite map_map. reflexivity.
Qed.

Lemma addPair_values (k : string) (xs : list string) :
  forall (m : url.Values) (j : string),
    fold_left addPair (map (pair k) xs) m !! j
    = if decide (j = k)
      then match xs with
           | [] => m !! j
           | _ => Some (default [] (m !! j) ++ xs)%list
           end
      else m !! j.
Proof.
  induction xs as [|x xs IH]; intros m j.
  - cbn. now destruct (decide (j = k)).
  - cbn [map fold_left]. rewrite IH. unfold addPair, url.Values_Add. cbn [fst snd].
    destruct (decide (j = k)) as [->|Hne].
    + rewrite lookup_insert_eq. cbn [default].
      destruct xs; [reflexivity |]. unfold id. now rewrite <- app_assoc.
    + now rewrite lookup_insert_ne by congruence.
Qed.

Lemma addPair_keys (v : url.Values) (keys : list string) :
  forall m : url.Values,
    NoDup keys -> (forall k, k ∈ keys -> m !! k = None) ->
    forall j : string,
      fold_left addPair (pairsOf v keys) m !! j
      = if decide (j ∈ keys)
        then match default [] (v !! j) with
             | [] => None
             | _ => Some (default [] (v !! j))
             end
        else m !! j.
Proof.
  induction keys as [|k keys IH]; intros m Hnd Hfresh j.
  - cbn. destruct (decide (j ∈ [])) as [Hin|_]; [| reflexivity].
    now apply elem_of_nil in Hin.
  - apply NoDup_cons in Hnd as [Hk Hnd].
    unfold pairsOf. cbn [flat_map]. rewrite fold_left_app.
    fold (pairsOf v keys).
    set (m1 := fold_left addPair (map (pair k) (default [] (v !! k))) m).
    assert (Hm1 : forall i, m1 !! i
                            = if decide (i = k)
                              then match default [] (v !! k) with
                                   | [] => None
                                   | _ => Some (default [] (v !! k))
                                   end
                              else m !! i).
    { intros i. subst m1. rewrite addPair_values.
      destruct (decide (i = k)) as [->|]; [| reflexivity].
      rewrite (Hfresh k) by apply list_elem_of_here.
      now destruct (default [] (v !! k)). }
    rewrite (IH m1 Hnd).
    + destruct (decide (j ∈ keys)) as [Hin|Hnin].
      * destruct (decide (j ∈ k :: keys)) as [_|Hc]; [reflexivity |].
        exfalso. apply Hc. now apply list_elem_of_further.
      * rewrite Hm1. destruct (decide (j = k)) as [->|Hne].
        -- destruct (decide (k ∈ k :: keys)) as [_|Hc]; [reflexivity |].
           exfalso. apply Hc. apply list_elem_of_here.
        -- destruct (decide (j ∈ k :: keys)) as [Hc|_]; [| reflexivity].
           apply elem_of_cons in Hc as [?|?]; congruence.
    + intros i Hi. rewrite Hm1.
      destruct (decide (i = k)) as [->|]; [contradiction |].
      apply Hfresh. now apply list_elem_of_further.
Qed.

Lemma insert_sorted_perm (k : string) (l : list string) :
  url.insert_sorted k l ≡ₚ k :: l.
Proof.
  induction l as [|x l IH]; [reflexivity |].
  cbn [url.insert_sorted]. destruct (String.leb k x); [reflexivity |].
  rewrite IH. apply perm_swap.
Qed.

Lemma sort_strings_perm (l : list string) : url.sort_strings l ≡ₚ l.
Proof.
  induction l as [|x l IH]; [reflexivity |].
  unfold url.sort_strings in *. cbn [fold_right].
  rewrite insert_sorted_perm. now rewrite IH.
Qed.

(** The query [Encode] writes, parsed again, is the map it was written
    from. *)
Lemma ParseQuery_Encode (v : url.Values) :
  no_empty v -> url.ParseQuery (url.Values_Encode v) = v.
Proof.
  intros Hne. unfold url.Values_Encode.
  set (keys := url.sort_strings (map fst (map_to_list v))).
  rewrite encodeKey_pairs, ParseQuery_pairs.
  assert (Hperm : keys ≡ₚ (map_to_list v).*1) by apply sort_strings_perm.
  apply map_eq. intros j.
  rewrite (addPair_keys v keys ∅).
  - destruct (decide (j ∈ keys)) as [Hin|Hnin].
    + rewrite Hperm in Hin. apply list_elem_of_fmap in Hin as [[j' xs] [-> Hin]].
      apply elem_of_map_to_list in Hin. cbn [fst]. rewrite Hin. cbn [default].
      destruct xs; [| reflexivity]. now apply Hne in Hin.
    + rewrite lookup_empty. destruct (v !! j) as [xs|] eqn:E; [| reflexivity].
      exfalso. apply Hnin. rewrite Hperm. apply list_elem_of_fmap.
      exists (j, xs). split; [reflexivity |]. now apply elem_of_map_to_list.
  - rewrite Hperm. apply NoDup_fst_map_to_list.
  - intros. apply lookup_empty.
Qed.

Lemma parsePair_no_empty (m : url.Values) (pair : string) :
  no_empty m -> no_empty (url.parsePair m pair).
Proof.
  intros Hm. unfold url.parsePair.
  destruct (Go.ContainsByte pair ";"); [exact Hm |].
  destruct (String.eqb pair EmptyString); [exact Hm |].
  destruct (Go.Cut pair "=") as [[key value] found].
  destruct (url.QueryUnescape key) as [k|]; [| exact Hm].
  destruct (url.QueryUnescape value) as [x|]; [| exact Hm].
  intros j. unfold url.Values_Add.
  destruct (decide (j = k)) as [->|Hne].
  - rewrite lookup_insert_eq. intros E. inversion E as [E'].
    now destruct (default [] (m !! k)).
  - rewrite lookup_insert_ne by congruence. apply Hm.
Qed.

Lemma ParseQuery_no_empty (query : string) : no_empty (url.ParseQuery query).
Proof.
  unfold url.ParseQuery.
  assert (H : forall l m, no_empty m -> no_empty (fold_left url.parsePair l m)).
  { induction l as [|x l IH]; intros m Hm; [exact Hm |].
    cbn [fold_left]. apply IH. now apply parsePair_no_empty. }
  apply H. intros k. now rewrite lookup_empty.
Qed.

Lemma rewritten_no_empty (q : url.Values) (cred : string) :
  no_empty q -> no_empty (rewritten q cred).
Proof.
  intros Hq j. unfold rewritten, url.Values_Set, url.Values_Del.
  destruct (decide (j = "key")) as [->|Hne].
  - rewrite lookup_insert_eq. discriminate.
  - rewrite lookup_insert_ne, lookup_delete_ne by congruence. apply Hq.
Qed.

Lemma rewritten_key (q : url.Values) (cred : string) :
  rewritten q cred !! "key" = Some [cred].
Proof. unfold rewritten, url.Values_Set. apply lookup_insert_eq. Qed.

Lemma rewritten_other (q : url.Values) (cred k : string) :
  k <> "key" -> rewritten q cred !! k = q !! k.
Proof.
  intros Hk. unfold rewritten, url.Values_Set, url.Values_Del.
  now rewrite lookup_insert_ne, lookup_delete_ne by congruence.
Qed.

Lemma Encode_rewritten_nonempty (q : url.Values) (cred : string) :
  no_empty q -> url.Values_Encode (rewritten q cred) <> EmptyString.
Proof.
  intros Hq E.
  pose proof (ParseQuery_Encode _ (rewritten_no_empty q cred Hq)) as R.
  rewrite E in R.
  assert (K : url.ParseQuery EmptyString !! "key" = Some [cred])
    by (rewrite R; apply rewritten_key).
  discriminate K.
Qed.

(** *** Paths that need no escaping *)

Lemma path_byte_facts (c : ascii) :
  path_byte c = true ->
  Ascii.eqb c "#" = false /\ Ascii.eqb c "?" = false
  /\ Ascii.eqb c "%" = false /\ url.isCTL c = false
  /\ url.shouldEscape c url.encodePath = false.
Proof.
  destruct c as [[] [] [] [] [] [] [] []]; simpl; intros H;
    try discriminate H; repeat split; reflexivity.
Qed.

Lemma plain_bytes (p : string) :
  http.all_bytes path_byte p = true ->
  Go.ContainsByte p "#" = false /\ Go.ContainsByte p "?" = false
  /\ url.stringContainsCTLByte p = false
  /\ url.unescape p url.encodePath = Ok p
  /\ url.escape p url.encodePath = p.
Proof.
  induction p as [|c p IH]; intros H; [repeat split; reflexivity |].
  cbn [http.all_bytes] in H. apply andb_true_iff in H as [Hc Hp].
  destruct (IH Hp) as (I1 & I2 & I3 & I4 & I5).
  destruct (path_byte_facts c Hc) as (F1 & F2 & F3 & F4 & F5).
  cbn [Go.ContainsByte url.stringContainsCTLByte url.unescape url.escape].
  rewrite F1, F2, F3, F4, F5, I1, I2, I3, I4, I5. repeat split; reflexivity.
Qed.

Lemma CTL_app (a b : string) :
  url.stringContainsCTLByte (a +:+ b)
  = url.stringContainsCTLByte a || url.stringContainsCTLByte b.
Proof.
  induction a as [|c a IH]; cbn; [reflexivity |].
  rewrite IH. now rewrite orb_assoc.
Qed.

Lemma count_byte_app (a b : string) (c : ascii) :
  url.count_byte (a +:+ b) c = (url.count_byte a c + url.count_byte b c)%nat.
Proof.
  induction a as [|d a IH]; cbn; [reflexivity |]. rewrite IH.
  destruct (Ascii.eqb d c); lia.
Qed.

Lemma count_byte_absent (s : string) (c : ascii) :
  Go.ContainsByte s c = false -> url.count_byte s c = O.
Proof.
  induction s as [|d s IH]; intros H; [reflexivity |].
  cbn [Go.ContainsByte] in H. apply orb_false_iff in H as [Hd Hs].
  cbn. now rewrite Hd, (IH Hs).
Qed.

Lemma has_suffix_byte_app (a b : string) (c : ascii) :
  b <> EmptyString -> url.has_suffix_byte (a +:+ b) c = url.has_suffix_byte b c.
Proof.
  intros Hb. induction a as [|d a IH]; [reflexivity |].
  cbn [String.append url.has_suffix_byte]. rewrite <- IH.
  destruct (a +:+ b) eqn:E; [| reflexivity].
  destruct a; [cbn in E; congruence | discriminate E].
Qed.

Lemma has_suffix_byte_count (s : string) (c : ascii) :
  url.has_suffix_byte s c = true -> (1 <= url.count_byte s c)%nat.
Proof.
  induction s as [|d s IH]; [discriminate |].
  cbn [url.has_suffix_byte url.count_byte]. destruct s as [|e s].
  - intros ->. cbn. lia.
  - intros H. specialize (IH H). lia.
Qed.

Lemma substring_prefix (a b : string) :
  substring 0 (String.length a) (a +:+ b) = a.
Proof.
  induction a as [|c a IH]; cbn.
  - now destruct b.
  - now rewrite IH.
Qed.

Lemma drop_last_app (a : string) (c : ascii) :
  url.drop_last (a +:+ String c EmptyString) = a.
Proof.
  unfold url.drop_last, Go.slice. rewrite length_append. cbn [String.length].
  replace (String.length a + 1 - 1 - 0)%nat with (String.length a) by lia.
  apply substring_prefix.
Qed.

Lemma split_authority_app (a p : string) :
  Go.ContainsByte a "/" = false -> String.prefix "/" p = true ->
  url.split_authority (a +:+ p) = (a, p).
Proof.
  intros Ha Hp. induction a as [|c a IH].
  - destruct p as [|d p]; [discriminate Hp |].
    cbn [String.prefix] in Hp.
    destruct (Ascii.ascii_dec "/" d) as [<-|]; [reflexivity | discriminate Hp].
  - cbn [Go.ContainsByte] in Ha. apply orb_false_iff in Ha as [Hc Ha].
    cbn [String.append url.split_authority]. now rewrite Hc, (IH Ha).
Qed.

Lemma substring_all (s : string) : substring 0 (String.length s) s = s.
Proof. induction s as [|c s IH]; cbn; [reflexivity | now rewrite IH]. Qed.

Lemma proxy_prefix (s : string) :
  String.prefix "https://" (handler.PROXY_URL +:+ s) = true
  /\ Go.slice_from (handler.PROXY_URL +:+ s) 8 = upstream_host +:+ s.
Proof.
  split; [reflexivity |].
  unfold Go.slice_from. rewrite length_append.
  change (String.length handler.PROXY_URL) with (8 + String.length upstream_host)%nat.
  replace (8 + String.length upstream_host + String.length s - 8)%nat
    with (String.length (upstream_host +:+ s))
    by (rewrite length_append; lia).
  change (handler.PROXY_URL +:+ s) with ("https://" +:+ (upstream_host +:+ s)).
  generalize (upstream_host +:+ s). intros r. cbn. apply substring_all.
Qed.

(** What [url.Parse] makes of the upstream origin followed by a plain path
    and a query. *)
Lemma Parse_plain (p rq : string) :
  plain_path p = true -> query_text rq = true ->
  url.Parse (handler.PROXY_URL +:+ p +:+ "?" +:+ rq)
  = Ok (url.mkURL "https" upstream_host p EmptyString
          (String.eqb rq EmptyString) rq EmptyString EmptyString).
Proof.
  intros Hp Hq. apply andb_true_iff in Hp as [Hslash Hp].
  apply andb_true_iff in Hq as [Hhash Hctl].
  apply negb_true_iff in Hhash, Hctl.
  destruct (plain_bytes p Hp) as (P1 & P2 & P3 & P4 & P5).
  unfold url.Parse.
  rewrite Cut_no_sep.
  2:{ rewrite !ContainsByte_app, P1. cbn [Go.ContainsByte]. rewrite Hhash.
      reflexivity. }
  rewrite !CTL_app, P3. cbn [url.stringContainsCTLByte]. rewrite Hctl.
  change (url.stringContainsCTLByte handler.PROXY_URL) with false.
  cbn [orb url.isCTL].
  change (url.isCTL "?") with false. cbn [orb].
  destruct (proxy_prefix (p +:+ "?" +:+ rq)) as [Hpre Hrest].
  rewrite Hpre, Hrest. cbn [negb].
  assert (Hhost : Go.ContainsByte (upstream_host +:+ p) "?" = false)
    by (rewrite ContainsByte_app, P2; reflexivity).
  destruct rq as [|c rq].
  - replace (upstream_host +:+ p +:+ "?" +:+ EmptyString)
      with ((upstream_host +:+ p) +:+ "?")
      by (now rewrite append_nil_r, append_assoc).
    rewrite has_suffix_byte_app by discriminate.
    rewrite count_byte_app, (count_byte_absent _ _ Hhost).
    cbn [url.has_suffix_byte url.count_byte Ascii.eqb Bool.eqb Nat.add Nat.eqb andb].
    rewrite drop_last_app.
    rewrite split_authority_app by (reflexivity || assumption).
    rewrite P4, P5, String.eqb_refl. reflexivity.
  - replace (upstream_host +:+ p +:+ "?" +:+ String c rq)
      with ((upstream_host +:+ p) +:+ String "?" (String c rq))
      by (now rewrite append_assoc).
    assert (Hno : url.has_suffix_byte ((upstream_host +:+ p) +:+ String "?" (String c rq)) "?"
                  && (url.count_byte ((upstream_host +:+ p) +:+ String "?" (String c rq)) "?" =? 1)%nat
                  = false).
    { destruct (url.has_suffix_byte _ _) eqn:E; [| reflexivity].
      rewrite has_suffix_byte_app in E by discriminate.
      change (url.has_suffix_byte (String "?" (String c rq)) "?")
        with (url.has_suffix_byte (String c rq) "?") in E.
      apply has_suffix_byte_count in E.
      rewrite count_byte_app, (count_byte_absent _ _ Hhost).
      change (url.count_byte (String "?" (String c rq)) "?")
        with (S (url.count_byte (String c rq) "?")).
      apply Nat.eqb_neq. lia. }
    rewrite Hno, Cut_app_sep by exact Hhost.
    rewrite split_authority_app by (reflexivity || assumption).
    rewrite P4, P5, String.eqb_refl. reflexivity.
Qed.

Lemma targetURL_plain (p rq cred : string) :
  plain_path p = true -> query_text rq = true ->
  handler.targetURL (p +:+ "?" +:+ rq) cred
  = Ok (handler.PROXY_URL +:+ p +:+ "?"
        +:+ url.Values_Encode (rewritten (url.ParseQuery rq) cred)).
Proof.
  intros Hp Hq. unfold handler.targetURL.
  rewrite (Parse_plain p rq Hp Hq). cbv zeta.
  unfold url.Query. cbn [url.RawQuery].
  fold (rewritten (url.ParseQuery rq) cred).
  pose proof (Encode_rewritten_nonempty (url.ParseQuery rq) cred
                (ParseQuery_no_empty rq)) as Hne.
  set (enc := url.Values_Encode (rewritten (url.ParseQuery rq) cred)) in *.
  apply andb_true_iff in Hp as [Hslash Hp].
  destruct (plain_bytes p Hp) as (_ & _ & _ & _ & P5).
  destruct p as [|c p]; [discriminate Hslash |].
  cbn [String.prefix] in Hslash.
  destruct (Ascii.ascii_dec "/" c) as [<-|]; [| discriminate Hslash].
  f_equal. unfold url.String_, url.with_RawQuery, url.EscapedPath.
  cbn [url.Scheme url.Host url.Path url.RawPath url.ForceQuery url.RawQuery
       url.Fragment url.RawFragment].
  rewrite P5.
  replace (negb (String.eqb enc EmptyString)) with true
    by (symmetry; apply negb_true_iff, String.eqb_neq, Hne).
  rewrite orb_true_r.
  unfold handler.PROXY_URL, upstream_host. cbn.
  rewrite ?append_nil_r. repeat f_equal. now rewrite orb_true_r.
Qed.

(** C6, counterexample.  A query pair that holds a semicolon is skipped by
    the query parser, so the parameter the caller sent is not retained: the
    upstream URL has the [key] parameter only. *)
Lemma semicolon_parameter_is_dropped :
  handler.targetURL "/v1/foo?key=leaked&x=1;y=2" "abcd1234"
  = Ok "https://generativelanguage.googleapis.com/v1/foo?key=abcd1234".
Proof. vm_compute. reflexivity. Qed.

(** C6, as amended.  For a request path that starts with a slash and needs no
    escaping, a raw query without hash sign and control bytes, and any
    credential, the upstream URL is the upstream origin, the path, a question
    mark and the encoding of the rewritten query.  That encoding parses back
    to the rewritten query, in which [key] has the credential as its one
    value and every other key has the values the query parser finds in the
    inbound query.  For the path [/v1/foo?key=leaked&x=1] and the credential
    [abcd1234] the upstream URL ends in [/v1/foo?key=abcd1234&x=1]. *)
Theorem target_url_rewrites_key (p rq cred : string) :
  plain_path p = true -> query_text rq = true ->
  let q := url.ParseQuery rq in
  let q' := rewritten q cred in
  handler.targetURL (p +:+ "?" +:+ rq) cred
  = Ok (handler.PROXY_URL +:+ p +:+ "?" +:+ url.Values_Encode q')
  /\ url.ParseQuery (url.Values_Encode q') = q'
  /\ q' !! "key" = Some [cred]
  /\ (forall k, k <> "key" -> q' !! k = q !! k)
  /\ handler.targetURL "/v1/foo?key=leaked&x=1" "abcd1234"
     = Ok "https://generativelanguage.googleapis.com/v1/foo?key=abcd1234&x=1".
Proof.
  intros Hp Hq q q'. split; [| split; [| split; [| split]]].
  - now apply targetURL_plain.
  - apply ParseQuery_Encode, rewritten_no_empty, ParseQuery_no_empty.
  - apply rewritten_key.
  - intros k Hk. now apply rewritten_other.
  - vm_compute. reflexivity.
Qed.

Lemma target_url_rewrites_key_witness :
  handler.targetURL ("/v1/foo" +:+ "?" +:+ "key=leaked&x=1") "abcd1234"
  = Ok (handler.PROXY_URL +:+ "/v1/foo" +:+ "?"
        +:+ url.Values_Encode
              (rewritten (url.ParseQuery "key=leaked&x=1") "abcd1234")).
Proof.
  apply (target_url_rewrites_key "/v1/foo" "key=leaked&x=1" "abcd1234");
    reflexivity.
Defined.

(** * Further properties of the code *)

(** ** The keys of the environment: [splitAndTrim] and [splitAPIKeys] *)

Lemma splitAPIKeys_loop_filter (l : list string) :
  redis.splitAPIKeys_loop l = filter (fun k => k <> EmptyString) l.
Proof.
  induction l as [|k l IH]; [reflexivity |].
  cbn [redis.splitAPIKeys_loop]. rewrite IH.
  destruct (String.eqb_spec k EmptyString) as [->|Hk]; cbn [negb].
  - now rewrite filter_cons_False by tauto.
  - now rewrite filter_cons_True.
Qed.

Lemma splitAndTrim_loop_filter (l : list string) :
  redis.splitAndTrim_loop l
  = filter (fun k => k <> EmptyString) (map Go.TrimSpace l).
Proof.
  induction l as [|k l IH]; [reflexivity |].
  cbn [redis.splitAndTrim_loop map]. rewrite IH.
  destruct (String.eqb_spec (Go.TrimSpace k) EmptyString) as [E|Hk]; cbn [negb].
  - rewrite filter_cons_False; [reflexivity | tauto].
  - now rewrite filter_cons_True.
Qed.

Lemma splitAPIKeys_filter (s : string) :
  redis.splitAPIKeys s
  = filter (fun k => k <> EmptyString) (map Go.TrimSpace (Go.Split s ",")).
Proof.
  unfold redis.splitAPIKeys, redis.splitAndTrim.
  rewrite splitAPIKeys_loop_filter, splitAndTrim_loop_filter.
  rewrite list_filter_filter. apply list_filter_iff. tauto.
Qed.

Lemma Split_no_sep_inside (s : string) (sep : ascii) (x : string) :
  x ∈ Go.Split s sep -> Go.ContainsByte x sep = false.
Proof.
  revert x. induction s as [|c s IH]; intros x Hx.
  - cbn in Hx. apply list_elem_of_singleton in Hx as ->. reflexivity.
  - cbn [Go.Split] in Hx. destruct (Ascii.eqb c sep) eqn:E.
    + apply elem_of_cons in Hx as [->|Hx]; [reflexivity | now apply IH].
    + destruct (Go.Split s sep) as [|h t] eqn:Es.
      * apply list_elem_of_singleton in Hx as ->. cbn. now rewrite E.
      * apply elem_of_cons in Hx as [->|Hx].
        -- cbn. rewrite E. apply IH. left.
        -- apply IH. now right.
Qed.

Lemma TrimLeft_contains (s : string) (c : ascii) :
  Go.ContainsByte s c = false -> Go.ContainsByte (Go.TrimLeft s) c = false.
Proof.
  induction s as [|d s IH]; intros H; [reflexivity |].
  cbn [Go.TrimLeft]. destruct (Go.isSpace d); [| exact H].
  cbn [Go.ContainsByte] in H. apply orb_false_iff in H as [_ H]. now apply IH.
Qed.

Lemma TrimRight_contains (s : string) (c : ascii) :
  Go.ContainsByte s c = false -> Go.ContainsByte (Go.TrimRight s) c = false.
Proof.
  induction s as [|d s IH]; intros H; [reflexivity |].
  cbn [Go.ContainsByte] in H. apply orb_false_iff in H as [Hd H].
  specialize (IH H). cbn [Go.TrimRight].
  destruct (Go.TrimRight s) as [|e r].
  - destruct (Go.isSpace d); [reflexivity |]. cbn. now rewrite Hd.
  - cbn [Go.ContainsByte] in *. now rewrite Hd.
Qed.

Lemma TrimRight_idem (s : string) :
  Go.TrimRight (Go.TrimRight s) = Go.TrimRight s.
Proof.
  induction s as [|c s IH]; [reflexivity |].
  cbn [Go.TrimRight]. destruct (Go.TrimRight s) as [|e r] eqn:E.
  - destruct (Go.isSpace c) eqn:Ec; [reflexivity |].
    cbn [Go.TrimRight]. now rewrite Ec.
  - cbn [Go.TrimRight]. fold Go.TrimRight. cbn [Go.TrimRight] in IH.
    change (Go.TrimRight (String c (String e r)))
      with (match Go.TrimRight (String e r) with
            | EmptyString =>
                if Go.isSpace c then EmptyString else String c EmptyString
            | r' => String c r'
            end).
    now rewrite IH.
Qed.

Lemma TrimLeft_TrimSpace (s : string) :
  Go.TrimLeft (Go.TrimSpace s) = Go.TrimSpace s.
Proof.
  unfold Go.TrimSpace. induction s as [|c s IH]; [reflexivity |].
  cbn [Go.TrimLeft]. destruct (Go.isSpace c) eqn:Ec; [exact IH |].
  cbn [Go.TrimRight]. destruct (Go.TrimRight s) as [|e r].
  - rewrite Ec. cbn [Go.TrimLeft]. now rewrite Ec.
  - cbn [Go.TrimLeft]. now rewrite Ec.
Qed.

Lemma TrimSpace_idem (s : string) :
  Go.TrimSpace (Go.TrimSpace s) = Go.TrimSpace s.
Proof.
  unfold Go.TrimSpace at 1. rewrite TrimLeft_TrimSpace.
  unfold Go.TrimSpace. apply TrimRight_idem.
Qed.

Lemma all_bytes_elem (p : ascii -> bool) (s : string) (sep : ascii) (x : string) :
  http.all_bytes p s = true -> x ∈ Go.Split s sep -> http.all_bytes p x = true.
Proof.
  revert x. induction s as [|c s IH]; intros x Hs Hx.
  - cbn in Hx. apply list_elem_of_singleton in Hx as ->. reflexivity.
  - cbn [http.all_bytes] in Hs. apply andb_true_iff in Hs as [Hc Hs].
    cbn [Go.Split] in Hx. destruct (Ascii.eqb c sep).
    + apply elem_of_cons in Hx as [->|Hx]; [reflexivity | now apply IH].
    + destruct (Go.Split s sep) as [|h t] eqn:Es.
      * apply list_elem_of_singleton in Hx as ->. cbn. now rewrite Hc.
      * apply elem_of_cons in Hx as [->|Hx].
        -- cbn. rewrite Hc. apply IH; [exact Hs | left].
        -- apply IH; [exact Hs | now right].
Qed.

Lemma all_bytes_TrimLeft (p : ascii -> bool) (s : string) :
  http.all_bytes p s = true -> http.all_bytes p (Go.TrimLeft s) = true.
Proof.
  induction s as [|d s IH]; intros H; [reflexivity |].
  cbn [Go.TrimLeft]. destruct (Go.isSpace d); [| exact H].
  cbn [http.all_bytes] in H. apply andb_true_iff in H as [_ H]. now apply IH.
Qed.

Lemma all_bytes_TrimRight (p : ascii -> bool) (s : string) :
  http.all_bytes p s = true -> http.all_bytes p (Go.TrimRight s) = true.
Proof.
  induction s as [|d s IH]; intros H; [reflexivity |].
  cbn [http.all_bytes] in H. apply andb_true_iff in H as [Hd H].
  specialize (IH H). cbn [Go.TrimRight].
  destruct (Go.TrimRight s) as [|e r].
  - destruct (Go.isSpace d); [reflexivity |]. cbn. now rewrite Hd.
  - cbn [http.all_bytes] in *. now rewrite Hd.
Qed.

(** X1.  Every key [splitAPIKeys] takes from an ASCII text is clean: it is
    not empty, holds no comma, and trimming it again changes nothing (it
    neither starts nor ends with white space); it is made of ASCII bytes. *)
Theorem splitAPIKeys_clean (s k : string) :
  ascii_only s = true -> k ∈ redis.splitAPIKeys s ->
  clean_key k /\ ascii_only k = true.
Proof.
  intros Hs Hk. rewrite splitAPIKeys_filter in Hk.
  apply list_elem_of_filter in Hk as [Hne Hk].
  apply list_elem_of_fmap in Hk as (x & -> & Hx).
  split; [split; [exact Hne | split] |].
  - apply TrimRight_contains, TrimLeft_contains.
    now apply (Split_no_sep_inside s).
  - apply TrimSpace_idem.
  - apply all_bytes_TrimRight, all_bytes_TrimLeft.
    now apply (all_bytes_elem _ s ",").
Qed.

Lemma splitAPIKeys_clean_witness :
  clean_key "b" /\ ascii_only "b" = true.
Proof.
  apply (splitAPIKeys_clean " a, b ,,c " "b"); [reflexivity |].
  vm_compute. apply list_elem_of_In. right. left. reflexivity.
Defined.

Lemma Split_Join_sep (sep : ascii) (l : list string) :
  l <> [] -> Forall (fun x => Go.ContainsByte x sep = false) l ->
  Go.Split (Go.Join l (String sep EmptyString)) sep = l.
Proof.
  induction l as [|x l IH]; intros Hne Hall; [congruence |].
  inversion Hall as [|? ? Hx Hl]; subst.
  destruct l as [|y l].
  - cbn. now apply Split_no_sep.
  - replace (Go.Join (x :: y :: l) (String sep EmptyString))
      with (x +:+ String sep (Go.Join (y :: l) (String sep EmptyString)))
      by reflexivity.
    rewrite (Split_app_sep x _ sep Hx). f_equal. now apply IH.
Qed.

(** The pieces between the commas of [Join keys ", "]. *)
Lemma Join_comma_space (y : string) (l : list string) :
  Go.Join (map (String " ") (y :: l)) ","
  = String " " (Go.Join (y :: l) ", ").
Proof.
  revert y. induction l as [|z l IH]; intros y; [reflexivity |].
  change (Go.Join (map (String " ") (y :: z :: l)) ",")
    with (String " " y +:+ "," +:+ Go.Join (map (String " ") (z :: l)) ",").
  rewrite IH. reflexivity.
Qed.

Lemma split_pieces (ps keys : list string) :
  Forall (fun x => Go.ContainsByte x "," = false) ps ->
  map Go.TrimSpace ps = keys ->
  Forall (fun k => k <> EmptyString) keys ->
  redis.splitAPIKeys (Go.Join ps ",") = keys.
Proof.
  intros Hps Hmap Hkeys. rewrite splitAPIKeys_filter.
  destruct ps as [|p ps].
  - cbn in Hmap. subst keys. reflexivity.
  - rewrite (Split_Join_sep ","); [| discriminate | exact Hps].
    rewrite Hmap. clear Hmap Hps.
    induction Hkeys as [|k keys Hk _ IH]; [reflexivity |].
    rewrite filter_cons_True by exact Hk. now rewrite IH.
Qed.

(** X2.  Clean keys joined by commas, or by a comma and a space, are split
    into the same keys, in the same order. *)
Theorem splitAPIKeys_Join (keys : list string) :
  Forall clean_key keys -> Forall (fun k => ascii_only k = true) keys ->
  redis.splitAPIKeys (Go.Join keys ",") = keys
  /\ redis.splitAPIKeys (Go.Join keys ", ") = keys.
Proof.
  intros Hclean _.
  assert (Hne : Forall (fun k => k <> EmptyString) keys)
    by (eapply Forall_impl; [exact Hclean | now intros k (H & _)]).
  assert (Hcomma : Forall (fun k => Go.ContainsByte k "," = false) keys)
    by (eapply Forall_impl; [exact Hclean | now intros k (_ & H & _)]).
  assert (Htrim : map Go.TrimSpace keys = keys).
  { clear Hne Hcomma. induction Hclean as [|k keys (_ & _ & Hk) _ IH];
      [reflexivity |]. cbn [map]. now rewrite Hk, IH. }
  split.
  - now apply split_pieces.
  - destruct keys as [|x [|y l]]; [reflexivity | |].
    { change (Go.Join [x] ", ") with (Go.Join [x] ","). now apply split_pieces. }
    replace (Go.Join (x :: y :: l) ", ")
      with (Go.Join (x :: map (String " ") (y :: l)) ",").
    2:{ change (Go.Join (x :: map (String " ") (y :: l)) ",")
          with (x +:+ "," +:+ Go.Join (map (String " ") (y :: l)) ",").
        rewrite Join_comma_space. reflexivity. }
    apply split_pieces.
    + inversion Hcomma as [|? ? Hx Hl]; subst. constructor; [exact Hx |].
      apply Forall_fmap. eapply Forall_impl; [exact Hl |].
      intros k Hk. cbn. exact Hk.
    + etransitivity; [| exact Htrim]. cbn [map]. f_equal.
      change (Go.TrimSpace (String " " y)) with (Go.TrimSpace y). f_equal.
      rewrite map_map. apply map_ext. reflexivity.
    + exact Hne.
Qed.

Lemma splitAPIKeys_Join_witness :
  redis.splitAPIKeys (Go.Join ["AIzaSy-one"; "AIzaSy-two"] ",")
  = ["AIzaSy-one"; "AIzaSy-two"]
  /\ redis.splitAPIKeys (Go.Join ["AIzaSy-one"; "AIzaSy-two"] ", ")
     = ["AIzaSy-one"; "AIzaSy-two"].
Proof.
  apply (splitAPIKeys_Join ["AIzaSy-one"; "AIzaSy-two"]).
  - repeat constructor; discriminate.
  - repeat constructor.
Defined.
(** ** Integers from the environment: [getEnvAsInt] *)










(** ** The connection: [GetClient] *)

Lemma GetClient_tried (w : World) :
  clientOnce w = true -> redis.GetClient w = (client w, w).
Proof.
  intros H. unfold redis.GetClient. run. now rewrite H.
Qed.

Lemma GetClient_again (w : World) (n : nat) :
  clientOnce w = true ->
  repeatM n redis.GetClient w = (replicate n (client w), w).
Proof.
  intros H. induction n as [|n IH]; [reflexivity |].
  rewrite repeatM_S, (GetClient_tried w H), IH. reflexivity.
Qed.

Lemma GetClient_first (w : World) :
  clientOnce w = false ->
  let r := redis.GetClient w in
  fst r = negb (goredis.head_fault (w_faults w))
  /\ clientOnce (snd r) = true
  /\ client (snd r) = fst r
  /\ w_faults (snd r) = tail (w_faults w)
  /\ w_redis (snd r) = w_redis w
  /\ w_env (snd r) = w_env w
  /\ w_ExpandEnv (snd r) = w_ExpandEnv w
  /\ currentPos (snd r) = currentPos w
  /\ w_sent (snd r) = w_sent w.
Proof.
  intros H. unfold redis.GetClient, goredis.Ping, goredis.next_fault,
    redis.getEnv, Getenv, trace.WrapTraceInfo, log_Info, log_Error.
  run. rewrite H. mcbn.
  destruct (String.eqb _ _); destruct (String.eqb _ _); mcbn;
    destruct (goredis.head_fault (w_faults w)); mcbn; repeat split.
Qed.

(** X4.  The connection is tried once.  The first call of [GetClient] sends
    one PING and answers a client exactly when the PING succeeds; from then
    on every call answers the same and changes nothing: a connection that
    failed is never tried again, and no later call sends a command. *)
Theorem GetClient_once (w : World) :
  let r := redis.GetClient w in
  clientOnce (snd r) = true
  /\ client (snd r) = fst r
  /\ (clientOnce w = true -> r = (client w, w))
  /\ (clientOnce w = false ->
      fst r = negb (goredis.head_fault (w_faults w))
      /\ w_faults (snd r) = tail (w_faults w))
  /\ (forall n : nat,
        repeatM n redis.GetClient (snd r) = (replicate n (fst r), snd r)).
Proof.
  cbv zeta. destruct (clientOnce w) eqn:Honce.
  - rewrite (GetClient_tried w Honce). cbn [fst snd].
    split; [exact Honce | split; [reflexivity | split; [reflexivity | split]]].
    + discriminate.
    + intros n. now apply GetClient_again.
  - destruct (GetClient_first w Honce) as (Hr & Ho & Hc & Hf & _).
    split; [exact Ho | split; [exact Hc | split; [discriminate | split]]].
    + intros _. now split.
    + intros n. rewrite <- Hc. now apply GetClient_again.
Qed.
(** ** Initialization: [InitializeAPIKeys] *)

Lemma quiet_S (n : nat) (faults : list bool) :
  quiet (S n) faults ->
  goredis.head_fault faults = false /\ quiet n (tail faults).
Proof.
  intros H. split.
  - destruct faults as [|[] fs]; try reflexivity.
    exfalso. apply (H 0%nat); [lia | reflexivity].
  - intros i Hi. destruct faults as [|b fs]; [cbn; now rewrite lookup_nil |].
    apply (H (S i)). lia.
Qed.

Lemma drop_tail_S {A} (n : nat) (l : list A) :
  drop n (tail l) = drop (S n) l.
Proof. destruct l; [cbn; now rewrite drop_nil | reflexivity]. Qed.

Lemma quiet_nil (n : nat) : quiet n [].
Proof. intros i _. now rewrite lookup_nil. Qed.

Lemma same_process_refl (w : World) : same_process w w.
Proof. repeat split. Qed.

Lemma same_process_trans (w1 w2 w3 : World) :
  same_process w1 w2 -> same_process w2 w3 -> same_process w1 w3.
Proof.
  unfold same_process. intros (A1 & A2 & A3 & A4 & A5 & A6)
    (B1 & B2 & B3 & B4 & B5 & B6).
  repeat split; congruence.
Qed.

(** One [RPUSH] that does not fail. *)
Lemma RPush_ok (key value : string) (w : World) :
  goredis.head_fault (w_faults w) = false ->
  let r := goredis.RPush key value w in
  (exists n, fst r = Ok n)
  /\ stored key (snd r) = (stored key w ++ [value])%list
  /\ w_faults (snd r) = tail (w_faults w)
  /\ w_log (snd r) = w_log w
  /\ same_process w (snd r).
Proof.
  intros Hf. unfold goredis.RPush, goredis.next_fault, goredis.list_at. run.
  rewrite Hf. mcbn. unfold stored. cbn.
  rewrite lookup_insert_eq. repeat split; eauto.
Qed.

Lemma RPush_fails (key value : string) (w : World) :
  goredis.head_fault (w_faults w) = true ->
  goredis.RPush key value w = (Err RedisIO, set_faults (tail (w_faults w)) w).
Proof.
  intros Hf. unfold goredis.RPush, goredis.next_fault, goredis.list_at. run.
  now rewrite Hf.
Qed.

(** The loop of [InitializeAPIKeys] while no command fails. *)
Lemma InitializeAPIKeys_loop_ok (apiKeys : list string) :
  forall w : World,
    quiet (length apiKeys) (w_faults w) ->
    let r := redis.InitializeAPIKeys_loop apiKeys w in
    fst r = None
    /\ stored redis.apiKeysKey (snd r)
       = (stored redis.apiKeysKey w ++ apiKeys)%list
    /\ w_faults (snd r) = drop (length apiKeys) (w_faults w)
    /\ w_log (snd r) = w_log w
    /\ same_process w (snd r).
Proof.
  induction apiKeys as [|key rest IH]; intros w Hq; cbv zeta.
  - cbn. rewrite app_nil_r. repeat split.
  - apply quiet_S in Hq as [Hh Hq].
    cbn [redis.InitializeAPIKeys_loop]. unfold bind.
    destruct (RPush_ok redis.apiKeysKey key w Hh)
      as ((n & Hn) & Hs & Hf & Hl & Hp).
    destruct (goredis.RPush redis.apiKeysKey key w) as [res w1].
    cbn [fst snd] in *. subst res. cbv beta iota.
    rewrite <- Hf in Hq. destruct (IH w1 Hq) as (I1 & I2 & I3 & I4 & I5).
    split; [exact I1 | split; [| split; [| split]]].
    + rewrite I2, Hs, <- app_assoc. reflexivity.
    + rewrite I3, Hf. cbn [length]. apply drop_tail_S.
    + congruence.
    + eapply same_process_trans; eassumption.
Qed.

(** The loop of [InitializeAPIKeys] when the push of key number [k] is the
    first command that fails. *)
Lemma InitializeAPIKeys_loop_fails (apiKeys : list string) :
  forall (w : World) (k : nat),
    (k < length apiKeys)%nat ->
    quiet k (w_faults w) -> w_faults w !! k = Some true ->
    let r := redis.InitializeAPIKeys_loop apiKeys w in
    fst r = Some RedisIO
    /\ stored redis.apiKeysKey (snd r)
       = (stored redis.apiKeysKey w ++ take k apiKeys)%list
    /\ w_faults (snd r) = drop (S k) (w_faults w)
    /\ w_log (snd r) = w_log w
    /\ same_process w (snd r).
Proof.
  induction apiKeys as [|key rest IH]; intros w k Hk Hq Hbad; cbv zeta.
  - cbn in Hk. lia.
  - cbn [redis.InitializeAPIKeys_loop]. unfold bind.
    destruct k as [|k].
    + assert (Hh : goredis.head_fault (w_faults w) = true)
        by (destruct (w_faults w) as [|b fs]; [discriminate Hbad |];
            unfold goredis.head_fault; cbn in Hbad; congruence).
      rewrite (RPush_fails _ _ _ Hh). cbn. rewrite app_nil_r.
      rewrite <- drop_tail_S, drop_0. repeat split.
    + apply quiet_S in Hq as [Hh Hq].
      destruct (RPush_ok redis.apiKeysKey key w Hh)
        as ((n & Hn) & Hs & Hf & Hl & Hp).
      destruct (goredis.RPush redis.apiKeysKey key w) as [res w1].
      cbn [fst snd] in *. subst res. cbv beta iota.
      assert (Hbad1 : w_faults w1 !! k = Some true).
      { rewrite Hf. destruct (w_faults w); [discriminate Hbad | exact Hbad]. }
      rewrite <- Hf in Hq.
      destruct (IH w1 k ltac:(cbn [length] in Hk; lia) Hq Hbad1) as (I1 & I2 & I3 & I4 & I5).
      split; [exact I1 | split; [| split; [| split]]].
      * rewrite I2, Hs, <- app_assoc. reflexivity.
      * rewrite I3, Hf. apply drop_tail_S.
      * congruence.
      * eapply same_process_trans; eassumption.
Qed.

(** [InitializeAPIKeys] with the backing up, an answer to [LLEN] and an
    empty list: the loop runs over the keys of the environment. *)
Lemma InitializeAPIKeys_empty_store (ctx : trace.Context) (w : World) :
  connected w -> goredis.head_fault (w_faults w) = false ->
  stored redis.apiKeysKey w = [] -> fallback w <> [] ->
  redis.InitializeAPIKeys ctx w
  = let '(e, w1) :=
      redis.InitializeAPIKeys_loop (fallback w)
        (set_faults (tail (w_faults w)) w) in
    match e with
    | Some e => (Some e, w1)
    | None =>
        (None,
         add_log (log.mkEntry log.LevelInfo (trace.GetTraceId ctx)
                    "Initialized %d API keys in Redis"
                    [log.AInt (Z.of_nat (length (fallback w)))]) w1)
    end.
Proof.
  intros [Honce Hcl] Hf Hs Hne.
  unfold redis.InitializeAPIKeys, redis.GetClient, goredis.LLen,
    goredis.next_fault, goredis.list_at, log_Info.
  unfold bind, ret, gets, modify. rewrite Honce. mcbn. rewrite Hcl. mcbn.
  rewrite Hf. mcbn. fold (stored redis.apiKeysKey w). rewrite Hs.
  change (Z.of_nat (@length string []) >? 0) with false. mcbn.
  rewrite getAPIKeysFromEnv_pure.
  rewrite (fallback_frame w (set_faults (tail (w_faults w)) w)) by reflexivity.
  destruct (fallback w) as [|k ks] eqn:Hfb; [congruence |].
  cbn [length Nat.eqb].
  destruct (redis.InitializeAPIKeys_loop (k :: ks) _) as [[e|] w1]; reflexivity.
Qed.

(** [InitializeAPIKeys] when no command fails. *)
Lemma InitializeAPIKeys_all (ctx : trace.Context) (w : World) :
  connected w -> quiet (S (length (fallback w))) (w_faults w) ->
  stored redis.apiKeysKey w = [] ->
  let r := redis.InitializeAPIKeys ctx w in
  fst r = None
  /\ stored redis.apiKeysKey (snd r) = fallback w
  /\ w_faults (snd r) = drop (S (length (fallback w))) (w_faults w)
  /\ same_process w (snd r).
Proof.
  intros Hcon Hq Hs. cbv zeta. apply quiet_S in Hq as [Hh Hq].
  destruct (fallback w) as [|k ks] eqn:Hfb.
  - destruct Hcon as [Honce Hcl].
    unfold redis.InitializeAPIKeys, redis.GetClient, goredis.LLen,
      goredis.next_fault, goredis.list_at, log_Info.
    unfold bind, ret, gets, modify. rewrite Honce. mcbn. rewrite Hcl. mcbn.
    rewrite Hh. mcbn. fold (stored redis.apiKeysKey w). rewrite Hs.
    change (Z.of_nat (@length string []) >? 0) with false. mcbn.
    rewrite getAPIKeysFromEnv_pure.
    rewrite (fallback_frame w (set_faults (tail (w_faults w)) w))
      by reflexivity.
    rewrite Hfb. cbn. unfold stored in *. cbn. rewrite Hs.
    rewrite <- drop_tail_S, drop_0. repeat split.
  - rewrite (InitializeAPIKeys_empty_store ctx w Hcon Hh Hs)
      by (rewrite Hfb; discriminate).
    rewrite Hfb.
    destruct (InitializeAPIKeys_loop_ok (k :: ks)
                (set_faults (tail (w_faults w)) w) Hq)
      as (L1 & L2 & L3 & _ & L5).
    destruct (redis.InitializeAPIKeys_loop (k :: ks) _) as [e w1].
    cbn [fst snd] in *. subst e. cbn [fst snd].
    split; [reflexivity | split; [| split]].
    + unfold stored in *. cbn in *. rewrite L2, Hs. reflexivity.
    + cbn. rewrite L3. cbn. apply drop_tail_S.
    + destruct L5 as (A1 & A2 & A3 & A4 & A5 & A6). repeat split; assumption.
Qed.

(** X5.  With the backing up, an empty list and no failing command,
    [InitializeAPIKeys] returns nil and the list then holds every key of
    the environment, in order; the cursor and the connection are as they
    were. *)
Theorem InitializeAPIKeys_writes_all (ctx : trace.Context) (w : World) :
  connected w -> quiet (S (length (fallback w))) (w_faults w) ->
  stored redis.apiKeysKey w = [] ->
  let r := redis.InitializeAPIKeys ctx w in
  fst r = None
  /\ stored redis.apiKeysKey (snd r) = fallback w
  /\ same_process w (snd r).
Proof.
  intros Hcon Hq Hs.
  destruct (InitializeAPIKeys_all ctx w Hcon Hq Hs) as (H1 & H2 & _ & H4).
  cbv zeta. split; [exact H1 | split; [exact H2 | exact H4]].
Qed.

Lemma InitializeAPIKeys_writes_all_witness :
  stored redis.apiKeysKey
    (snd (redis.InitializeAPIKeys trace.Background
            (world_of "a, b, c" ∅ [] true true 0)))
  = ["a"; "b"; "c"].
Proof.
  apply (InitializeAPIKeys_writes_all trace.Background
           (world_of "a, b, c" ∅ [] true true 0)).
  - split; reflexivity.
  - apply quiet_nil.
  - reflexivity.
Defined.

(** X6.  When the push of key number [k] (counted from 0) is the first
    command that fails, [InitializeAPIKeys] returns that error and leaves
    the first [k] keys in the list.  A list left with at least one key is
    not completed by a later call: that call changes nothing in Redis. *)
Theorem InitializeAPIKeys_partial (ctx : trace.Context) (w : World)
  (k : nat) :
  connected w -> stored redis.apiKeysKey w = [] ->
  (k < length (fallback w))%nat ->
  quiet (S k) (w_faults w) -> w_faults w !! S k = Some true ->
  let r := redis.InitializeAPIKeys ctx w in
  fst r = Some RedisIO
  /\ stored redis.apiKeysKey (snd r) = take k (fallback w)
  /\ ((0 < k)%nat ->
      forall ctx' : trace.Context,
        w_redis (snd (redis.InitializeAPIKeys ctx' (snd r)))
        = w_redis (snd r)).
Proof.
  intros Hcon Hs Hk Hq Hbad. cbv zeta.
  apply quiet_S in Hq as [Hh Hq].
  assert (Hne : fallback w <> []) by (destruct (fallback w); cbn in Hk; [lia | discriminate]).
  rewrite (InitializeAPIKeys_empty_store ctx w Hcon Hh Hs Hne).
  assert (Hbad1 : w_faults (set_faults (tail (w_faults w)) w) !! k = Some true).
  { cbn. destruct (w_faults w); [discriminate Hbad | exact Hbad]. }
  destruct (InitializeAPIKeys_loop_fails (fallback w)
              (set_faults (tail (w_faults w)) w) k Hk Hq Hbad1)
    as (L1 & L2 & _ & _ & _).
  destruct (redis.InitializeAPIKeys_loop (fallback w) _) as [e w1].
  cbn [fst snd] in *. subst e. cbn [fst snd].
  assert (Hst : stored redis.apiKeysKey w1 = take k (fallback w)).
  { unfold stored in *. cbn in L2. rewrite L2, Hs. reflexivity. }
  split; [reflexivity | split; [exact Hst |]].
  intros Hpos ctx'. apply InitializeAPIKeys_populated. rewrite Hst.
  destruct (fallback w); [cbn in Hk; lia |].
  destruct k; [lia | discriminate].
Qed.

Lemma InitializeAPIKeys_partial_witness :
  let r := redis.InitializeAPIKeys trace.Background
             (world_of "a, b, c" ∅ [false; false; false; true] true true 0) in
  fst r = Some RedisIO /\ stored redis.apiKeysKey (snd r) = ["a"; "b"].
Proof.
  destruct (InitializeAPIKeys_partial trace.Background
              (world_of "a, b, c" ∅ [false; false; false; true] true true 0)
              2) as (H1 & H2 & _).
  - split; reflexivity.
  - reflexivity.
  - vm_compute. lia.
  - intros [|[|[|i]]] Hi; try discriminate. lia.
  - reflexivity.
  - split; [exact H1 | exact H2].
Defined.

(** ** Start-up: [main] *)

Lemma GetClient_idem (w : World) :
  redis.GetClient (snd (redis.GetClient w)) = redis.GetClient w.
Proof.
  destruct (clientOnce w) eqn:Honce.
  - rewrite (GetClient_tried w Honce). cbn [snd]. apply (GetClient_tried w Honce).
  - destruct (GetClient_first w Honce) as (_ & Ho & Hc & _).
    rewrite (GetClient_tried _ Ho), Hc. now destruct (redis.GetClient w).
Qed.

Lemma bind_GetClient {A} (k : bool -> M A) (w : World) :
  bind redis.GetClient k w = bind redis.GetClient k (snd (redis.GetClient w)).
Proof.
  unfold bind. rewrite GetClient_idem. now destruct (redis.GetClient w).
Qed.

Lemma InitializeAPIKeys_reconnect (ctx : trace.Context) (w : World) :
  redis.InitializeAPIKeys ctx w
  = redis.InitializeAPIKeys ctx (snd (redis.GetClient w)).
Proof. unfold redis.InitializeAPIKeys. apply bind_GetClient. Qed.

Lemma InitializeAPIKeys_offline (ctx : trace.Context) (w : World) :
  clientOnce w = true -> client w = false ->
  redis.InitializeAPIKeys ctx w
  = (None,
     add_log (log.mkEntry log.LevelInfo (trace.GetTraceId ctx)
                "Redis not available, skipping API keys initialization" []) w).
Proof.
  intros Honce Hcl. unfold redis.InitializeAPIKeys, redis.GetClient, log_Info.
  run. rewrite Honce. mcbn. now rewrite Hcl.
Qed.

(** [main] runs [InitializeAPIKeys] under a fresh trace identifier, logs
    its error if there is one, and announces the server. *)
Lemma main_run (w : World) :
  main.main w
  = let ctx := trace.mkContext (Some (w_uuid w (w_uuids w))) in
    let '(err, w1) :=
      redis.InitializeAPIKeys ctx (set_uuids (S (w_uuids w)) w) in
    let say := log.mkEntry log.LevelInfo (trace.GetTraceId ctx) in
    (tt,
     add_log (say "Starting server on port 8080" [])
       match err with
       | Some e =>
           add_log (log.mkEntry log.LevelError (trace.GetTraceId ctx)
                      "Failed to initialize API keys in Redis: %v"
                      [log.AErr (RedisError_Error e)]) w1
       | None => w1
       end).
Proof.
  unfold main.main, trace.WrapTraceInfo, log_Info, log_Error. run.
  destruct (redis.InitializeAPIKeys _ _) as [[e|] w1]; reflexivity.
Qed.

(** The keys at the positions of one full rotation that starts at [c]. *)
Lemma rotation_keys (keys : list string) (c : Z) :
  keys <> [] -> 0 <= c ->
  let N := Z.of_nat (length keys) in
  let j := Z.to_nat (c mod N) in
  map (redis.index keys) (cycle c N (length keys))
  = (drop j keys ++ take j keys)%list.
Proof.
  intros Hne Hc N j.
  assert (HN : 0 < N) by (unfold N; destruct keys; [congruence | cbn; lia]).
  pose proof (Z.mod_pos_bound c N HN) as Hj.
  assert (Hjn : (j < length keys)%nat) by (unfold j, N in *; lia).
  apply list_eq. intros i.
  rewrite list_lookup_fmap.
  destruct (decide (i < length keys)%nat) as [Hi|Hi].
  - rewrite cycle_lookup by exact Hi. cbn [fmap option_fmap option_map].
    pose proof (Z.mod_pos_bound (c + Z.of_nat i) N HN) as Hb.
    unfold redis.index. destruct (Z.ltb_spec ((c + Z.of_nat i) mod N) 0); [lia |].
    assert (Hsum : (c + Z.of_nat i) mod N
                   = (Z.of_nat j + Z.of_nat i) mod N).
    { unfold j. rewrite Z2Nat.id by lia. now rewrite Z.add_mod_idemp_l by lia. }
    rewrite Hsum.
    destruct (decide (j + i < length keys)%nat) as [Hlt|Hge].
    + rewrite Z.mod_small by (unfold N; lia).
      rewrite lookup_app_l by (rewrite length_drop; lia).
      rewrite lookup_drop.
      replace (Z.to_nat (Z.of_nat j + Z.of_nat i)) with (j + i)%nat by lia.
      destruct (lookup_lt_is_Some_2 keys (j + i)) as [v Hv]; [lia |].
      now rewrite Hv.
    + replace ((Z.of_nat j + Z.of_nat i) mod N)
        with (Z.of_nat j + Z.of_nat i - N).
      2:{ apply Z.mod_unique with (q := 1); unfold N; lia. }
      rewrite lookup_app_r by (rewrite length_drop; lia).
      rewrite length_drop, lookup_take_lt by lia.
      replace (Z.to_nat (Z.of_nat j + Z.of_nat i - N))
        with (i - (length keys - j))%nat by (unfold N; lia).
      destruct (lookup_lt_is_Some_2 keys (i - (length keys - j)))
        as [v Hv]; [lia |].
      now rewrite Hv.
  - rewrite (lookup_ge_None_2 (cycle c N (length keys)))
      by (rewrite cycle_length; lia).
    symmetry. apply lookup_ge_None_2.
    rewrite length_app, length_drop, length_take. lia.
Qed.

(** X7.  A process that starts with Redis answering every command and an
    empty list: [main] connects and stores the keys of the environment,
    and the selections that follow return every key once per round,
    beginning with the second key: the first key is served last. *)
Theorem main_populates_then_rotates (ctx : trace.Context) (w : World) :
  clientOnce w = false -> currentPos w = 0 -> w_faults w = [] ->
  stored redis.apiKeysKey w = [] -> fallback w <> [] ->
  Z.of_nat (length (fallback w)) <= Go.max_int ->
  let w1 := snd (main.main w) in
  connected w1
  /\ stored redis.apiKeysKey w1 = fallback w
  /\ map fst (fst (repeatM (length (fallback w)) (redis.GetAPIKey ctx) w1))
     = (drop 1 (fallback w) ++ take 1 (fallback w))%list.
Proof.
  intros Honce Hpos Hf Hs Hne Hmax. cbv zeta. rewrite main_run. cbv zeta.
  rewrite InitializeAPIKeys_reconnect.
  set (w0 := set_uuids (S (w_uuids w)) w).
  destruct (GetClient_first w0 Honce)
    as (Hup & Ho & Hc & Hfl & Hr & He & Hx & Hp & _).
  set (wc := snd (redis.GetClient w0)) in *.
  assert (Hfc : w_faults wc = []) by (rewrite Hfl; subst w0; cbn; now rewrite Hf).
  assert (Hcon : connected wc).
  { split; [exact Ho |]. rewrite Hc, Hup. subst w0. cbn. now rewrite Hf. }
  assert (Hfb : fallback wc = fallback w)
    by (apply fallback_frame; [rewrite He | rewrite Hx]; reflexivity).
  assert (Hsc : stored redis.apiKeysKey wc = []).
  { unfold stored in *. rewrite Hr. exact Hs. }
  destruct (InitializeAPIKeys_all
              (trace.mkContext (Some (w_uuid w (w_uuids w)))) wc Hcon)
    as (I1 & I2 & I3 & I4 & I5 & I6 & I7 & I8 & _).
  { rewrite Hfc. apply quiet_nil. }
  { exact Hsc. }
  destruct (redis.InitializeAPIKeys _ wc) as [e w1]. cbn [fst snd] in *.
  subst e. cbn [snd].
  set (w2 := add_log _ w1).
  assert (Hcon2 : connected w2) by (split; cbn; [rewrite I6 | rewrite I7]; apply Hcon).
  assert (Hst2 : stored redis.apiKeysKey w2 = fallback w)
    by (unfold stored in *; cbn; rewrite I2; exact Hfb).
  split; [exact Hcon2 | split; [exact Hst2 |]].
  rewrite (durable_run ctx (fallback w)); try assumption.
  - rewrite map_map. cbn [fst].
    replace (currentPos w2) with 0
      by (subst w2; cbn; rewrite I8, Hp; subst w0; cbn; now rewrite Hpos).
    pose proof (rotation_keys (fallback w) (0 + 1) Hne ltac:(lia)) as Hrot.
    cbv zeta in Hrot.
    destruct (fallback w) as [|k [|k2 ks]] eqn:Ek; [congruence | reflexivity |].
    replace (Z.to_nat ((0 + 1) mod Z.of_nat (length (k :: k2 :: ks))))
      with 1%nat in Hrot
      by (rewrite Z.mod_small by (cbn [length]; lia); reflexivity).
    exact Hrot.
  - subst w2. cbn. rewrite I3, Hfc. apply drop_nil.
  - unfold cursor_ok. subst w2. cbn. rewrite I8, Hp. subst w0. cbn.
    rewrite Hpos. unfold Go.max_int. lia.
Qed.

Lemma main_populates_then_rotates_witness :
  let w1 := snd (main.main (world_of "a, b, c" ∅ [] false false 0)) in
  stored redis.apiKeysKey w1 = ["a"; "b"; "c"]
  /\ map fst (fst (repeatM 3 (redis.GetAPIKey trace.Background) w1))
     = ["b"; "c"; "a"].
Proof.
  destruct (main_populates_then_rotates trace.Background
              (world_of "a, b, c" ∅ [] false false 0))
    as (_ & H2 & H3);
    [reflexivity | reflexivity | reflexivity | reflexivity | discriminate
    | vm_compute; discriminate | split; [exact H2 | exact H3]].
Defined.

(** One selection when the connection has failed: the fallback branch, and
    no Redis command. *)
Lemma GetAPIKey_offline (ctx : trace.Context) (w : World) :
  clientOnce w = true -> client w = false ->
  redis.GetAPIKey ctx w
  = let '(k, w1) :=
      redis.getFallbackAPIKey
        (add_log (log.mkEntry log.LevelInfo (trace.GetTraceId ctx)
                    "Redis not available, falling back to environment variable"
                    []) w) in
    ((k, None), w1).
Proof.
  intros Honce Hcl. unfold redis.GetAPIKey, redis.GetClient, log_Info.
  run. rewrite Honce. mcbn. rewrite Hcl. mcbn.
  now destruct (redis.getFallbackAPIKey _).
Qed.

Lemma offline_run (ctx : trace.Context) (n : nat) :
  forall w : World,
    clientOnce w = true -> client w = false ->
    fallback w <> [] -> Z.of_nat (length (fallback w)) <= Go.max_int ->
    cursor_ok w ->
    let r := repeatM n (redis.GetAPIKey ctx) w in
    fst r = map (fun p => (redis.index (fallback w) p, None))
              (cycle (currentPos w) (Z.of_nat (length (fallback w))) n)
    /\ w_faults (snd r) = w_faults w
    /\ w_redis (snd r) = w_redis w.
Proof.
  induction n as [|n IH]; intros w Honce Hcl Hne Hmax Hc; cbv zeta;
    [repeat split |].
  assert (HN : 0 < Z.of_nat (length (fallback w)))
    by (destruct (fallback w); [congruence | simpl; lia]).
  destruct (rem_step (currentPos w) _ Hc HN) as [Hrem0 Hrem].
  pose proof (Z.mod_pos_bound (currentPos w + 1) _ HN) as Hb.
  rewrite repeatM_S, (GetAPIKey_offline ctx w Honce Hcl).
  rewrite getFallbackAPIKey_spec. cbv zeta.
  set (wl := add_log _ w).
  assert (Hfl : fallback wl = fallback w) by (now apply fallback_frame).
  rewrite Hfl.
  destruct (Z.eqb_spec (Z.of_nat (length (fallback w))) 0); [lia |].
  change (currentPos wl) with (currentPos w). rewrite Hrem0, Hrem.
  set (w1 := set_currentPos _ wl).
  assert (Hfb : fallback w1 = fallback w) by (now apply fallback_frame).
  specialize (IH w1 Honce Hcl). rewrite Hfb in IH.
  destruct (IH Hne Hmax) as (I1 & I2 & I3).
  { subst w1; unfold cursor_ok; cbn [currentPos set_currentPos]. lia. }
  destruct (repeatM n (redis.GetAPIKey ctx) w1) as [xs w2].
  cbn [fst snd] in *. split; [| split; [exact I2 | exact I3]].
  rewrite I1. cbn [cycle map]. f_equal. f_equal. apply cycle_congr.
  subst w1; cbn [currentPos set_currentPos].
  now rewrite Z.mod_mod by lia.
Qed.

(** X8.  A process that starts while Redis does not answer the PING:
    [main] still announces the server and writes nothing to Redis; the
    selections that follow return the keys of the environment in order,
    beginning with the first, and send no Redis command at all. *)
Theorem main_without_redis (ctx : trace.Context) (w : World) :
  clientOnce w = false -> currentPos w = 0 ->
  goredis.head_fault (w_faults w) = true ->
  fallback w <> [] -> Z.of_nat (length (fallback w)) <= Go.max_int ->
  let w1 := snd (main.main w) in
  let r := repeatM (length (fallback w)) (redis.GetAPIKey ctx) w1 in
  client w1 = false
  /\ w_redis w1 = w_redis w
  /\ (exists traceId,
        last (w_log w1)
        = Some (log.mkEntry log.LevelInfo traceId
                  "Starting server on port 8080" []))
  /\ map fst (fst r) = fallback w
  /\ w_redis (snd r) = w_redis w
  /\ w_faults (snd r) = tail (w_faults w).
Proof.
  intros Honce Hpos Hf Hne Hmax. cbv zeta. rewrite main_run. cbv zeta.
  rewrite InitializeAPIKeys_reconnect.
  set (w0 := set_uuids (S (w_uuids w)) w).
  destruct (GetClient_first w0 Honce)
    as (Hup & Ho & Hc & Hfl & Hr & He & Hx & Hp & _).
  set (wc := snd (redis.GetClient w0)) in *.
  assert (Hdown : client wc = false)
    by (rewrite Hc, Hup; subst w0; cbn; now rewrite Hf).
  rewrite (InitializeAPIKeys_offline _ wc Ho Hdown).
  set (w2 := add_log _ (add_log _ wc)).
  assert (Hfb : fallback w2 = fallback w)
    by (apply fallback_frame; subst w2; cbn; [rewrite He | rewrite Hx];
        reflexivity).
  destruct (offline_run ctx (length (fallback w)) w2) as (R1 & R2 & R3);
    try (subst w2; cbn; assumption); try (rewrite Hfb; assumption).
  { unfold cursor_ok. subst w2. cbn. rewrite Hp. subst w0. cbn.
    rewrite Hpos. unfold Go.max_int. lia. }
  cbn [snd]. split; [exact Hdown | split; [| split; [| split; [| split]]]].
  - subst w2. cbn. rewrite Hr. reflexivity.
  - eexists. subst w2. cbn [snd w_log add_log]. now rewrite last_snoc.
  - rewrite R1, map_map. cbn [fst]. rewrite Hfb.
    replace (currentPos w2) with 0
      by (subst w2; cbn; rewrite Hp; subst w0; cbn; now rewrite Hpos).
    pose proof (rotation_keys (fallback w) 0 Hne ltac:(lia)) as Hrot.
    cbv zeta in Hrot.
    rewrite Z.mod_0_l in Hrot
      by (destruct (fallback w); [congruence | cbn; lia]).
    cbn [Z.to_nat drop take] in Hrot. rewrite app_nil_r in Hrot.
    exact Hrot.
  - rewrite R3. subst w2. cbn. rewrite Hr. reflexivity.
  - rewrite R2. subst w2. cbn. rewrite Hfl. reflexivity.
Qed.

Lemma main_without_redis_witness :
  let w1 := snd (main.main (world_of "a, b, c" ∅ [true] false false 0)) in
  map fst (fst (repeatM 3 (redis.GetAPIKey trace.Background) w1))
  = ["a"; "b"; "c"].
Proof.
  destruct (main_without_redis trace.Background
              (world_of "a, b, c" ∅ [true] false false 0))
    as (_ & _ & _ & H & _);
    [reflexivity | reflexivity | reflexivity | discriminate
    | vm_compute; discriminate | exact H].
Defined.

(** ** The selector reads only *)

Lemma getFallbackAPIKey_frame (w : World) :
  let w1 := snd (redis.getFallbackAPIKey w) in
  w_redis w1 = w_redis w /\ w_sent w1 = w_sent w /\ w_env w1 = w_env w
  /\ w_upstream w1 = w_upstream w /\ w_faults w1 = w_faults w
  /\ w_log w1 = w_log w.
Proof.
  cbv zeta. rewrite getFallbackAPIKey_spec. cbn zeta.
  destruct (_ =? 0); repeat split.
Qed.

Ltac frame_paths :=
  repeat (mcbn;
          first
            [ match goal with
              | |- context [redis.getFallbackAPIKey ?W] =>
                  let E := fresh "E" in
                  pose proof (getFallbackAPIKey_frame W) as E;
                  cbv zeta in E;
                  destruct (redis.getFallbackAPIKey W); cbn [snd] in E;
                  cbn in E; destruct E as (? & ? & ? & ? & ? & ?)
              end
            | branch ]).

Lemma GetAPIKey_frame (ctx : trace.Context) (w : World) :
  let w1 := snd (redis.GetAPIKey ctx w) in
  w_redis w1 = w_redis w /\ w_sent w1 = w_sent w /\ w_env w1 = w_env w
  /\ w_upstream w1 = w_upstream w.
Proof.
  cbv zeta. unfold_selector. run.
  frame_paths; repeat split; try reflexivity; assumption.
Qed.

Lemma GetAPIKey2_frame `{json.Decoder} (ctx : trace.Context) (w : World) :
  let w1 := snd (redis2.GetAPIKey ctx w) in
  w_redis w1 = w_redis w /\ w_sent w1 = w_sent w /\ w_env w1 = w_env w
  /\ w_upstream w1 = w_upstream w.
Proof.
  cbv zeta. unfold_selector. run.
  frame_paths; repeat split; try reflexivity; assumption.
Qed.

(** X9.  A selection only reads: in both revisions, and on every path,
    [GetAPIKey] leaves the lists Redis holds and the environment as they
    are and sends nothing upstream; so does any number of selections. *)
Theorem selection_reads_only `{json.Decoder} (ctx : trace.Context)
  (w : World) (n : nat) :
  let w1 := snd (repeatM n (redis.GetAPIKey ctx) w) in
  let w2 := snd (repeatM n (redis2.GetAPIKey ctx) w) in
  (w_redis w1 = w_redis w /\ w_sent w1 = w_sent w /\ w_env w1 = w_env w)
  /\ (w_redis w2 = w_redis w /\ w_sent w2 = w_sent w /\ w_env w2 = w_env w).
Proof.
  cbv zeta. split.
  - revert w. induction n as [|n IH]; intros w; [repeat split |].
    rewrite repeatM_S.
    destruct (GetAPIKey_frame ctx w) as (F1 & F2 & F3 & _).
    destruct (redis.GetAPIKey ctx w) as [x w1]. cbn [snd] in *.
    destruct (IH w1) as (I1 & I2 & I3).
    destruct (repeatM n (redis.GetAPIKey ctx) w1) as [xs w2].
    cbn [snd] in *. repeat split; congruence.
  - revert w. induction n as [|n IH]; intros w; [repeat split |].
    rewrite repeatM_S.
    destruct (GetAPIKey2_frame ctx w) as (F1 & F2 & F3 & _).
    destruct (redis2.GetAPIKey ctx w) as [x w1]. cbn [snd] in *.
    destruct (IH w1) as (I1 & I2 & I3).
    destruct (repeatM n (redis2.GetAPIKey ctx) w1) as [xs w2].
    cbn [snd] in *. repeat split; congruence.
Qed.

(** ** The forwarder: [SendToGemini] *)

Lemma getAPIKey_frame (in_ : handler.SendToGeminiInput) (w : World) :
  let w1 := snd (handler.getAPIKey in_ w) in
  w_redis w1 = w_redis w /\ w_sent w1 = w_sent w /\ w_env w1 = w_env w
  /\ w_upstream w1 = w_upstream w.
Proof.
  cbv zeta. destruct (String.eqb_spec (handler.APIKey in_) EmptyString) as [E|E].
  - rewrite (getAPIKey_selector in_ w E). cbn [snd].
    destruct (GetAPIKey_frame (selector_ctx w) (selector_world w))
      as (F1 & F2 & F3 & F4).
    repeat split; assumption.
  - rewrite (getAPIKey_override in_ w E). repeat split.
Qed.

(** [SendToGemini], path by path. *)
Lemma SendToGemini_run (ctx : trace.Context) (in_ : handler.SendToGeminiInput)
  (w : World) :
  let k := fst (handler.getAPIKey in_ w) in
  let w1 := snd (handler.getAPIKey in_ w) in
  let say := log.mkEntry log.LevelInfo (trace.GetTraceId ctx) in
  let cry := log.mkEntry log.LevelError (trace.GetTraceId ctx) in
  handler.SendToGemini ctx in_ w
  = match handler.targetURL (handler.Url in_) k with
    | Err e => (Err (handler.CouldNotParseUrl e), w1)
    | Ok u =>
        if (Go.len k <? 8)%nat then (Err (handler.InvalidApiKey k), w1)
        else
          let w2 :=
            add_log (say "Final request URL: %s" [log.AStr u])
              (add_log (say "using api key: %s"
                          [log.AStr (handler.maskAPIKey k)]) w1) in
          match handler.NewRequest (handler.Method in_) u (handler.Payload in_) with
          | Err msg =>
              (Err (handler.CouldNotCreateRequest msg),
               add_log (cry "Failed to create request: %v" [log.AErr msg]) w2)
          | Ok _ =>
              let req := upstream_request in_ u in
              let w3 := add_sent req w2 in
              match w_upstream w req with
              | http.TransportError msg =>
                  (Err (handler.CouldNotSendRequest msg),
                   add_log (cry "HTTP request failed: %v" [log.AErr msg]) w3)
              | http.Answer status hdr body =>
                  let w4 :=
                    add_log (say "Response status code: %d" [log.AInt status])
                      w3 in
                  match body with
                  | Err msg =>
                      (Err (handler.CouldNotReadResponseBody msg),
                       add_log (cry "Failed to read response body: %v"
                                  [log.AErr msg]) w4)
                  | Ok body =>
                      (Ok (handler.mkGeminiResponse body status hdr), w4)
                  end
              end
          end
    end.
Proof.
  cbv zeta. unfold handler.SendToGemini. unfold bind at 1.
  destruct (getAPIKey_frame in_ w) as (_ & _ & _ & Hup).
  destruct (handler.getAPIKey in_ w) as [k w1]. cbn [fst snd] in *.
  destruct (handler.targetURL (handler.Url in_) k) as [u|e]; [| reflexivity].
  destruct (Go.len k <? 8)%nat; [reflexivity |].
  unfold handler.NewRequest, handler.Do, log_Info, log_Error, upstream_request,
    forwarded_headers.
  run.
  destruct (negb (http.validMethod _)); [reflexivity |].
  cbn [http.creq_Header http.creq_Method http.creq_URL http.creq_Body
       w_upstream add_sent add_log].
  rewrite Hup.
  destruct (w_upstream w _) as [msg|status hdr [body|msg]]; reflexivity.
Qed.

(** X10.  What a result of [SendToGemini] tells about the upstream: an
    error from parsing the URL, from the key check or from building the
    request means that nothing was sent; every other result means that
    exactly one request was sent, to the rewritten URL, and the result is
    what the upstream did with it: a response is returned with the status,
    the headers and the body of the upstream answer, unchanged. *)
Theorem SendToGemini_sends_once (ctx : trace.Context)
  (in_ : handler.SendToGeminiInput) (w : World) :
  let k := fst (handler.getAPIKey in_ w) in
  let r := handler.SendToGemini ctx in_ w in
  let sent (answer : http.RoundTrip) :=
    exists u : string,
      handler.targetURL (handler.Url in_) k = Ok u
      /\ (8 <= String.length k)%nat
      /\ w_sent (snd r) = (w_sent w ++ [upstream_request in_ u])%list
      /\ w_upstream w (upstream_request in_ u) = answer in
  match fst r with
  | Ok resp =>
      sent (http.Answer (handler.resp_StatusCode resp)
              (handler.resp_Headers resp) (Ok (handler.resp_Body resp)))
  | Err (handler.CouldNotSendRequest msg) => sent (http.TransportError msg)
  | Err (handler.CouldNotReadResponseBody msg) =>
      exists status hdr, sent (http.Answer status hdr (Err msg))
  | Err _ => w_sent (snd r) = w_sent w
  end.
Proof.
  cbv zeta. rewrite SendToGemini_run. cbv zeta.
  destruct (getAPIKey_frame in_ w) as (_ & Hsent & _ & _).
  destruct (handler.getAPIKey in_ w) as [k w1]. cbn [fst snd] in *.
  destruct (handler.targetURL (handler.Url in_) k) as [u|e]; [| exact Hsent].
  destruct (Nat.ltb_spec (Go.len k) 8) as [Hk|Hk]; [exact Hsent |].
  destruct (handler.NewRequest _ _ _) as [req|msg]; [| exact Hsent].
  destruct (w_upstream w (upstream_request in_ u))
    as [msg|status hdr [body|msg]] eqn:Hup; cbn [fst snd].
  - exists u. cbn. rewrite Hsent. now repeat split.
  - exists u. cbn. rewrite Hsent. now repeat split.
  - exists status, hdr, u. cbn. rewrite Hsent. now repeat split.
Qed.

Lemma copyHeaders_lookup (headers base : http.Header) :
  canonical_keys headers ->
  forall k : string,
    handler.copyHeaders headers base !! k
    = if String.eqb k "Content-Type" || String.eqb k "Host" then base !! k
      else match headers !! k with
           | Some (v :: vs) => Some (default [] (base !! k) ++ v :: vs)%list
           | _ => base !! k
           end.
Proof.
  unfold handler.copyHeaders.
  apply (map_fold_weak_ind
           (fun r m =>
              canonical_keys m ->
              forall k,
                r !! k
                = if String.eqb k "Content-Type" || String.eqb k "Host"
                  then base !! k
                  else match m !! k with
                       | Some (v :: vs) =>
                           Some (default [] (base !! k) ++ v :: vs)%list
                       | _ => base !! k
                       end)).
  - intros _ k. rewrite lookup_empty. now destruct (_ || _).
  - intros i x m r Hnone IH Hcanon k.
    assert (Hi : http.CanonicalMIMEHeaderKey i = i)
      by (apply (Hcanon i x); apply lookup_insert_eq).
    assert (Hm : canonical_keys m).
    { intros j vs Hj. apply (Hcanon j vs).
      rewrite lookup_insert_ne; [exact Hj |]. intros ->. congruence. }
    specialize (IH Hm).
    destruct (String.eqb_spec i "Content-Type") as [Ei|Ei]; cbn [negb andb].
    { rewrite IH. destruct (String.eqb_spec k "Content-Type") as [Ek|Ek];
        cbn [orb]; [reflexivity |].
      rewrite lookup_insert_ne by congruence. reflexivity. }
    destruct (String.eqb_spec i "Host") as [Eh|Eh]; cbn [negb andb].
    { rewrite IH. destruct (String.eqb_spec k "Host") as [Ek|Ek];
        [now rewrite orb_true_r |].
      rewrite lookup_insert_ne by congruence. reflexivity. }
    rewrite (add_values_lookup i x Hi).
    destruct (decide (k = i)) as [->|Hne].
    + rewrite lookup_insert_eq, IH, Hnone.
      destruct (String.eqb_spec i "Content-Type"); [congruence |].
      destruct (String.eqb_spec i "Host"); [congruence |].
      cbn [orb]. now destruct x.
    + rewrite lookup_insert_ne by congruence. apply IH.
Qed.

(** X11.  The headers of the upstream request, for caller headers in
    canonical form: [Host] is never forwarded; [Content-Type] is the
    content type of the input alone, or absent when that is empty; every
    other header of the caller is forwarded with all its values in order,
    and nothing else is added. *)
Theorem forwarded_headers_lookup (in_ : handler.SendToGeminiInput)
  (k : string) :
  canonical_keys (handler.Headers in_) ->
  forwarded_headers in_ !! k
  = if String.eqb k "Host" then None
    else if String.eqb k "Content-Type" then
      if String.eqb (handler.ContentType in_) EmptyString then None
      else Some [handler.ContentType in_]
    else match handler.Headers in_ !! k with
         | Some (v :: vs) => Some (v :: vs)
         | _ => None
         end.
Proof.
  intros Hcanon. unfold forwarded_headers.
  rewrite (copyHeaders_lookup _ _ Hcanon).
  unfold http.Header_Set.
  change (http.CanonicalMIMEHeaderKey "Content-Type") with "Content-Type".
  destruct (String.eqb_spec k "Host") as [->|Hh].
  - cbn [String.eqb Ascii.eqb Bool.eqb orb andb].
    destruct (String.eqb (handler.ContentType in_) EmptyString); cbn [negb].
    + apply lookup_empty.
    + rewrite lookup_insert_ne by discriminate. apply lookup_empty.
  - destruct (String.eqb_spec k "Content-Type") as [->|Hc]; cbn [orb].
    + destruct (String.eqb (handler.ContentType in_) EmptyString); cbn [negb].
      * apply lookup_empty.
      * apply lookup_insert_eq.
    + assert (Hbase : (if negb (String.eqb (handler.ContentType in_) EmptyString)
                       then <["Content-Type" := [handler.ContentType in_]]> ∅
                       else (∅ : http.Header)) !! k = None).
      { destruct (String.eqb (handler.ContentType in_) EmptyString); cbn [negb].
        - apply lookup_empty.
        - rewrite lookup_insert_ne by congruence. apply lookup_empty. }
      rewrite Hbase. now destruct (handler.Headers in_ !! k) as [[|v vs]|].
Qed.

Lemma forwarded_headers_lookup_witness :
  let in_ :=
    handler.mkSendToGeminiInput "/v1/models" "application/json" EmptyString
      "{}" "POST"
      {["Host" := ["proxy.example"]; "Content-Type" := ["text/plain"; "x"];
        "Accept" := ["a"; "b"]]} in
  forwarded_headers in_ !! "Host" = None
  /\ forwarded_headers in_ !! "Content-Type" = Some ["application/json"]
  /\ forwarded_headers in_ !! "Accept" = Some ["a"; "b"].
Proof.
  cbv zeta.
  assert (Hc : canonical_keys
                 ({["Host" := ["proxy.example"];
                    "Content-Type" := ["text/plain"; "x"];
                    "Accept" := ["a"; "b"]]} : http.Header)).
  { unfold canonical_keys.
    apply (bool_decide_unpack
             (map_Forall (fun k _ => http.CanonicalMIMEHeaderKey k = k) _)).
    vm_compute. reflexivity. }
  split; [| split].
  - rewrite forwarded_headers_lookup by exact Hc. reflexivity.
  - rewrite forwarded_headers_lookup by exact Hc. reflexivity.
  - rewrite forwarded_headers_lookup by exact Hc. reflexivity.
Defined.

(** ** The request handler: [MainHandle] *)

Lemma request_input_key (r : http.Request) :
  handler.APIKey (request_input r) = api.getFromQuery r "key" EmptyString.
Proof. reflexivity. Qed.

(** X12.  A request that brings its own key does not touch the pool: the
    key used is the first value of the caller's [key] parameter, no Redis
    command is sent, the connection is not even tried, and the cursor does
    not move. *)
Theorem caller_key_bypasses_pool (rw : http.ResponseWriter)
  (r : http.Request) (w : World) :
  api.getFromQuery r "key" EmptyString <> EmptyString ->
  let w' := snd (api.MainHandle rw r w) in
  fst (handler.getAPIKey (request_input r) (forward_world r w))
  = url.Values_Get (url.ParseQuery (http.URL_RawQuery r)) "key"
  /\ currentPos w' = currentPos w
  /\ w_faults w' = w_faults w
  /\ clientOnce w' = clientOnce w
  /\ client w' = client w
  /\ w_redis w' = w_redis w.
Proof.
  intros Hkey. cbv zeta. rewrite MainHandle_unfold. cbv zeta.
  rewrite SendToGemini_run. cbv zeta.
  rewrite (getAPIKey_override (request_input r) (forward_world r w))
    by (rewrite request_input_key; exact Hkey).
  cbn [fst snd]. split.
  - rewrite request_input_key. unfold api.getFromQuery in Hkey |- *.
    cbv zeta in Hkey |- *.
    destruct (String.eqb
                (url.Values_Get (url.ParseQuery (http.URL_RawQuery r)) "key")
                EmptyString); [congruence | reflexivity].
  - destruct (handler.targetURL _ _) as [u|e]; [| repeat split].
    destruct (Go.len _ <? 8)%nat; [repeat split |].
    destruct (handler.NewRequest _ _ _) as [req|msg]; [| repeat split].
    destruct (w_upstream _ _) as [msg|status hdr [body|msg]]; repeat split.
Qed.

Lemma caller_key_bypasses_pool_witness :
  currentPos
    (snd (api.MainHandle http.newResponseWriter
            (http.mkRequest "GET" "/v1/models" "key=callers-own-key" ∅
               EmptyString)
            rr_world))
  = currentPos rr_world.
Proof.
  apply (caller_key_bypasses_pool http.newResponseWriter
           (http.mkRequest "GET" "/v1/models" "key=callers-own-key" ∅
              EmptyString) rr_world).
  vm_compute. discriminate.
Defined.

Lemma elem_of_add_log (e e' : log.Entry) (w : World) :
  e ∈ w_log w -> e ∈ w_log (add_log e' w).
Proof. intros H. cbn. apply elem_of_app. now left. Qed.

Lemma elem_of_add_sent (e : log.Entry) (q : http.ClientRequest) (w : World) :
  e ∈ w_log w -> e ∈ w_log (add_sent q w).
Proof. intros H. exact H. Qed.

Lemma elem_of_add_log_here (e : log.Entry) (w : World) :
  e ∈ w_log (add_log e w).
Proof. cbn. apply elem_of_app. right. left. Qed.

(** X13.  Once a key has passed the length check, [SendToGemini] logs it
    in masked form, and then logs the whole upstream URL, whose [key]
    parameter is the key itself: for a plain path the logged URL is the
    origin, the path and the encoded query, and that query parses back to
    the unmasked key. *)
Theorem final_url_is_logged (ctx : trace.Context)
  (in_ : handler.SendToGeminiInput) (w : World) (p rq : string) :
  let k := fst (handler.getAPIKey in_ w) in
  handler.Url in_ = p +:+ "?" +:+ rq ->
  plain_path p = true -> query_text rq = true ->
  (8 <= String.length k)%nat ->
  let enc := url.Values_Encode (rewritten (url.ParseQuery rq) k) in
  let l := w_log (snd (handler.SendToGemini ctx in_ w)) in
  let say := log.mkEntry log.LevelInfo (trace.GetTraceId ctx) in
  say "using api key: %s" [log.AStr (handler.maskAPIKey k)] ∈ l
  /\ say "Final request URL: %s"
       [log.AStr (handler.PROXY_URL +:+ p +:+ "?" +:+ enc)] ∈ l
  /\ url.ParseQuery enc !! "key" = Some [k].
Proof.
  cbv zeta. intros Hurl Hp Hq Hk. rewrite SendToGemini_run. cbv zeta.
  destruct (handler.getAPIKey in_ w) as [k w1]. cbn [fst snd] in *.
  rewrite Hurl, (targetURL_plain p rq k Hp Hq).
  destruct (Nat.ltb_spec (Go.len k) 8) as [Hlt|_];
    [unfold Go.len in Hlt; lia |].
  split; [| split].
  - destruct (handler.NewRequest _ _ _) as [req|msg];
      [destruct (w_upstream _ _) as [msg|status hdr [body|msg]] |];
      cbn [snd];
      repeat first [ apply elem_of_add_log_here
                   | apply elem_of_add_log | apply elem_of_add_sent ].
  - destruct (handler.NewRequest _ _ _) as [req|msg];
      [destruct (w_upstream _ _) as [msg|status hdr [body|msg]] |];
      cbn [snd];
      repeat first [ apply elem_of_add_log_here
                   | apply elem_of_add_log | apply elem_of_add_sent ].
  - rewrite ParseQuery_Encode
      by apply rewritten_no_empty, ParseQuery_no_empty.
    apply rewritten_key.
Qed.

Lemma final_url_is_logged_witness :
  log.mkEntry log.LevelInfo "no-trace-id" "Final request URL: %s"
    [log.AStr "https://generativelanguage.googleapis.com/v1/models?key=AIzaSy-secret&x=1"]
  ∈ w_log (snd (handler.SendToGemini trace.Background
                  (handler.mkSendToGeminiInput "/v1/models?x=1" EmptyString
                     "AIzaSy-secret" EmptyString "GET" ∅)
                  rr_world)).
Proof.
  destruct (final_url_is_logged trace.Background
              (handler.mkSendToGeminiInput "/v1/models?x=1" EmptyString
                 "AIzaSy-secret" EmptyString "GET" ∅)
              rr_world "/v1/models" "x=1") as (_ & H & _);
    [reflexivity | reflexivity | reflexivity | vm_compute; lia | exact H].
Defined.

Lemma doGeminiResponse_status_body (ctx : trace.Context)
  (resp : handler.GeminiResponse) :
  let w := api.doGeminiResponse ctx resp http.newResponseWriter in
  http.status_sent w = handler.resp_StatusCode resp
  /\ http.rw_body w = handler.resp_Body resp.
Proof.
  cbv zeta. unfold api.doGeminiResponse.
  cbn [http.set_header http.newResponseWriter http.rw_header http.rw_status
       http.rw_sent_header http.rw_body].
  destruct (String.eqb _ _); split; reflexivity.
Qed.

(** X14.  End to end: when the key is long enough, the URL parses, the
    method is a token and the upstream answers with a body that can be
    read, [MainHandle] sends exactly one request upstream and hands the
    caller the status code and the body of the upstream answer. *)
Theorem MainHandle_relays_answer (r : http.Request) (w : World)
  (u : string) (status : Z) (hdr : http.Header) (body : string) :
  let in_ := request_input r in
  let k := fst (handler.getAPIKey in_ (forward_world r w)) in
  handler.targetURL (handler.Url in_) k = Ok u ->
  (8 <= String.length k)%nat ->
  http.validMethod (http.creq_Method (upstream_request in_ u)) = true ->
  w_upstream w (upstream_request in_ u) = http.Answer status hdr (Ok body) ->
  let out := api.MainHandle http.newResponseWriter r w in
  http.status_sent (fst out) = status
  /\ http.rw_body (fst out) = body
  /\ w_sent (snd out) = (w_sent w ++ [upstream_request in_ u])%list.
Proof.
  cbv zeta. intros Hu Hk Hm Hup. rewrite MainHandle_unfold. cbv zeta.
  rewrite SendToGemini_run. cbv zeta.
  destruct (getAPIKey_frame (request_input r) (forward_world r w))
    as (_ & Hsent & _ & _).
  destruct (handler.getAPIKey (request_input r) (forward_world r w))
    as [k w1]. cbn [fst snd] in *.
  rewrite Hu.
  destruct (Nat.ltb_spec (Go.len k) 8) as [Hlt|_];
    [unfold Go.len in Hlt; lia |].
  unfold handler.NewRequest. cbn [upstream_request http.creq_Method] in Hm.
  change (handler.Method (request_input r)) with (http.Method r) in *.
  rewrite Hm. cbn [negb].
  change (w_upstream (forward_world r w)) with (w_upstream w).
  rewrite Hup.
  destruct (doGeminiResponse_status_body (selector_ctx w)
              (handler.mkGeminiResponse body status hdr)) as [Hs Hb].
  cbn [fst snd]. split; [exact Hs | split; [exact Hb |]].
  cbn. rewrite Hsent. reflexivity.
Qed.

Lemma MainHandle_relays_answer_witness :
  let out := api.MainHandle http.newResponseWriter
               (http.mkRequest "GET" "/v1/models" EmptyString ∅ EmptyString)
               answering_world in
  http.status_sent (fst out) = 200
  /\ http.rw_body (fst out) = "{}"
  /\ map http.creq_URL (w_sent (snd out))
     = ["https://generativelanguage.googleapis.com/v1/models?key=AIzaSy-pool-key-1"].
Proof.
  destruct (MainHandle_relays_answer
              (http.mkRequest "GET" "/v1/models" EmptyString ∅ EmptyString)
              answering_world
              "https://generativelanguage.googleapis.com/v1/models?key=AIzaSy-pool-key-1"
              200 {["Content-Type" := ["application/json"]]} "{}")
    as (H1 & H2 & H3);
    [reflexivity | vm_compute; lia | reflexivity | reflexivity |].
  cbv zeta. split; [exact H1 | split; [exact H2 |]].
  rewrite H3. reflexivity.
Defined.

(** ** Trace identifiers *)

Lemma Header_Add_keeps (h : http.Header) (key value k : string)
  (l : list string) :
  (exists l', h !! k = Some (l ++ l')%list) ->
  exists l', http.Header_Add h key value !! k = Some (l ++ l')%list.
Proof.
  intros [l' Hl]. unfold http.Header_Add.
  destruct (decide (k = http.CanonicalMIMEHeaderKey key)) as [->|Hne].
  - rewrite lookup_insert_eq, Hl. cbn [default].
    exists (l' ++ [value])%list. now rewrite app_assoc.
  - rewrite lookup_insert_ne by congruence. eauto.
Qed.

Lemma addAll_keeps (headers h : http.Header) (k : string) (l : list string) :
  h !! k = Some l ->
  exists l', api.addAll headers h !! k = Some (l ++ l')%list.
Proof.
  intros Hl. unfold api.addAll.
  apply (map_fold_weak_ind
           (fun r (_ : http.Header) => exists l', r !! k = Some (l ++ l')%list)).
  - exists []. now rewrite app_nil_r.
  - intros i x m r _ IH. clear Hl. revert r IH.
    induction x as [|v x IHx]; intros r IH; [exact IH |].
    cbn [fold_left]. apply IHx. now apply Header_Add_keeps.
Qed.

Lemma GetAPIKey_log_grows (ctx : trace.Context) (w : World) :
  exists l, w_log (snd (redis.GetAPIKey ctx w)) = (w_log w ++ l)%list.
Proof.
  unfold_selector. run.
  frame_paths;
    cbn [fst snd w_log add_log set_faults set_client set_uuids set_currentPos];
    repeat match goal with
           | H : w_log _ = _ |- _ => rewrite H
           end;
    rewrite <- ?app_assoc;
    first [ eexists; reflexivity | exists []; now rewrite app_nil_r ].
Qed.

Lemma getAPIKey_log_grows (in_ : handler.SendToGeminiInput) (w : World) :
  exists l, w_log (snd (handler.getAPIKey in_ w)) = (w_log w ++ l)%list.
Proof.
  destruct (String.eqb_spec (handler.APIKey in_) EmptyString) as [E|E].
  - rewrite (getAPIKey_selector in_ w E). cbn [snd].
    destruct (GetAPIKey_log_grows (selector_ctx w) (selector_world w))
      as [l Hl].
    exists l. rewrite Hl. reflexivity.
  - rewrite (getAPIKey_override in_ w E). exists []. cbn.
    now rewrite app_nil_r.
Qed.

Lemma SendToGemini_log_grows (ctx : trace.Context)
  (in_ : handler.SendToGeminiInput) (w : World) :
  exists l, w_log (snd (handler.SendToGemini ctx in_ w)) = (w_log w ++ l)%list.
Proof.
  rewrite SendToGemini_run. cbv zeta.
  destruct (getAPIKey_log_grows in_ w) as [l Hl].
  destruct (handler.getAPIKey in_ w) as [k w1]. cbn [fst snd] in *.
  destruct (handler.targetURL _ _) as [u|e]; [| eauto].
  destruct (Go.len _ <? 8)%nat; [eauto |].
  destruct (handler.NewRequest _ _ _) as [req|msg];
    [destruct (w_upstream _ _) as [msg|status hdr [body|msg]] |];
    cbn [snd w_log add_log add_sent]; rewrite Hl, <- ?app_assoc; eauto.
Qed.

(** X15.  The trace identifier drawn for a request is the one the caller
    gets back: the first value of the [X-Trace-Id] header of the response,
    on the error path and on the relay path alike, is the identifier
    under which [MainHandle] logs the first and the last line of the
    request. *)
Theorem response_carries_trace_id (r : http.Request) (w : World) :
  let out := api.MainHandle http.newResponseWriter r w in
  let T := w_uuid w (w_uuids w) in
  (exists rest,
     http.header_sent (fst out) !! "X-Trace-Id" = Some (T :: rest))
  /\ (exists (l : list log.Entry) (e : log.Entry),
        w_log (snd out)
        = (w_log w
           ++ log.mkEntry log.LevelInfo T
                "Received request - Method: %s, Path: %s"
                [log.AStr (http.Method r); log.AStr (http.URL_Path r)]
           :: l ++ [e])%list
        /\ log.traceId e = T).
Proof.
  cbv zeta. rewrite MainHandle_unfold. cbv zeta.
  destruct (SendToGemini_log_grows (selector_ctx w) (request_input r)
              (forward_world r w)) as [l Hl].
  destruct (handler.SendToGemini _ _ _) as [[resp|err] w2];
    cbn [fst snd] in *.
  - split.
    + unfold api.doGeminiResponse.
      cbn [http.set_header http.newResponseWriter http.rw_header
           http.rw_status http.rw_sent_header http.rw_body].
      set (h2 := http.Header_Set (http.Header_Set ∅ "X-Trace-Id" _)
                   "X-Content-From" "gemini").
      assert (Hh2 : h2 !! "X-Trace-Id" = Some [w_uuid w (w_uuids w)]).
      { subst h2. unfold http.Header_Set.
        change (http.CanonicalMIMEHeaderKey "X-Trace-Id") with "X-Trace-Id".
        change (http.CanonicalMIMEHeaderKey "X-Content-From")
          with "X-Content-From".
        rewrite lookup_insert_ne by discriminate.
        now rewrite lookup_insert_eq. }
      destruct (addAll_keeps (handler.resp_Headers resp) h2 _ _ Hh2)
        as [rest Hrest].
      exists rest.
      destruct (String.eqb _ _);
        cbv beta iota zeta delta
          [http.set_header http.WriteHeader http.Write http.rw_header
           http.rw_status http.rw_sent_header http.rw_body
           http.header_sent http.newResponseWriter].
      * unfold http.Header_Set.
        change (http.CanonicalMIMEHeaderKey "Content-Type")
          with "Content-Type".
        rewrite lookup_insert_ne by discriminate. exact Hrest.
      * exact Hrest.
    + eexists (_ :: _ :: _ :: _ :: l), _. split.
      * cbn [w_log add_log]. rewrite Hl. unfold forward_world.
        cbn [w_log add_log selector_world set_uuids].
        rewrite <- !app_assoc. cbn [app]. reflexivity.
      * reflexivity.
  - split.
    + exists []. unfold api.doStdResponse.
      cbv beta iota zeta delta
        [http.set_header http.WriteHeader http.Write http.rw_header
         http.rw_status http.rw_sent_header http.rw_body
         http.header_sent http.newResponseWriter].
      unfold http.Header_Set.
      change (http.CanonicalMIMEHeaderKey "X-Trace-Id") with "X-Trace-Id".
      change (http.CanonicalMIMEHeaderKey "X-Content-From")
        with "X-Content-From".
      rewrite lookup_insert_ne by discriminate.
      now rewrite lookup_insert_eq.
    + eexists (_ :: _ :: _ :: _ :: l), _. split.
      * cbn [w_log add_log]. rewrite Hl. unfold forward_world.
        cbn [w_log add_log selector_world set_uuids].
        rewrite <- !app_assoc. cbn [app]. reflexivity.
      * reflexivity.
Qed.

(** ** The revision with JSON records: what a hit returns and logs *)

Lemma maskedKey_maskAPIKey (apiKey : string) :
  redis2.maskedKey apiKey = handler.maskAPIKey apiKey.
Proof.
  unfold redis2.maskedKey, handler.maskAPIKey.
  now destruct (String.eqb apiKey EmptyString).
Qed.

(** X16.  A hit in the revision with JSON records: with the backing up and
    no failing command, [GetAPIKey] advances the cursor, decodes the record
    at the new position and returns its [key] and [proxy] members, each
    empty when the record lacks it -- a record without [key] yields an
    empty key and no fallback.  It logs one line, with the key masked as
    [maskAPIKey] masks it and the proxy URL as it is. *)
Theorem GetAPIKey2_hit `{json.Decoder} (ctx : trace.Context) (w : World)
  (record : string) (keyData : gmap string string) :
  let pool := stored redis2.apiKeysKey w in
  let next := (currentPos w + 1) mod Z.of_nat (length pool) in
  let key := default EmptyString (keyData !! "key") in
  let proxy := default EmptyString (keyData !! "proxy") in
  connected w -> w_faults w = [] -> cursor_ok w ->
  Z.of_nat (length pool) <= Go.max_int ->
  pool !! Z.to_nat next = Some record ->
  json.Unmarshal_str record = Some keyData ->
  let r := redis2.GetAPIKey ctx w in
  fst r = (key, proxy, None)
  /\ currentPos (snd r) = next
  /\ w_log (snd r)
     = (w_log w
        ++ [log.mkEntry log.LevelInfo (trace.GetTraceId ctx)
              "Got API key and proxy from Redis: key=%s, proxy=%s"
              [log.AStr (handler.maskAPIKey key); log.AStr proxy]])%list.
Proof.
  cbv zeta. intros [Honce Hcl] Hf Hc Hmax Hv Hdec.
  rewrite <- maskedKey_maskAPIKey.
  unfold stored in *. unfold_selector. run.
  rewrite Honce. mcbn. rewrite Hcl. mcbn. rewrite Hf.
  change (goredis.head_fault []) with false. mcbn.
  remember (default [] (w_redis w !! redis2.apiKeysKey)) as pool eqn:Hpool.
  assert (Hne : pool <> []) by (intros ->; rewrite lookup_nil in Hv; discriminate).
  destruct (Z.eqb_spec (Z.of_nat (length pool)) 0) as [H0|H0]; mcbn.
  { destruct pool; [congruence | cbn in H0; lia]. }
  destruct (rem_step (currentPos w) (Z.of_nat (length pool)) Hc ltac:(lia))
    as [_ R1].
  pose proof (Z.mod_pos_bound (currentPos w + 1) (Z.of_nat (length pool))
                ltac:(lia)) as Hb.
  rewrite !R1.
  assert (Hlt : ((currentPos w + 1) mod Z.of_nat (length pool) <? 0) = false)
    by (apply Z.ltb_ge; lia).
  repeat (progress (mcbn; change (goredis.head_fault []) with false;
                    rewrite <- ?Hpool, ?Hlt, ?Hv, ?Hdec)).
  repeat split.
Qed.

Lemma GetAPIKey2_hit_witness :
  let w := world_of EmptyString
             {[redis2.apiKeysKey :=
                 map Go.requote ["{'key':'AIzaSy-first-key'}";
                                 "{'proxy':'http://10.0.0.1:3128'}"]]}
             [] true true 0 in
  fst (@redis2.GetAPIKey json.reference trace.Background w)
  = (EmptyString, "http://10.0.0.1:3128", None).
Proof.
  cbv zeta.
  destruct (@GetAPIKey2_hit json.reference trace.Background
              (world_of EmptyString
                 {[redis2.apiKeysKey :=
                     map Go.requote ["{'key':'AIzaSy-first-key'}";
                                     "{'proxy':'http://10.0.0.1:3128'}"]]}
                 [] true true 0)
              (Go.requote "{'proxy':'http://10.0.0.1:3128'}")
              {["proxy" := "http://10.0.0.1:3128"]})
    as (H1 & _);
    [split; reflexivity | reflexivity
    | unfold cursor_ok, Go.max_int; cbn; lia
    | vm_compute; discriminate | reflexivity | vm_compute; reflexivity
    | exact H1].
Defined.

(** ** The error response: [doStdResponse] *)

(** What [json.Marshal] writes for one ASCII byte. *)
Lemma encode_runes_cons (c : ascii) (r : string) (fuel : nat) :
  (nat_of_ascii c <? 128)%nat = true ->
  json.encode_runes (S fuel) (String c r)
  = json.encode_runes 1 (String c EmptyString) +:+ json.encode_runes fuel r.
Proof.
  intros Hc. cbn [json.encode_runes]. rewrite Hc.
  now rewrite append_nil_r.
Qed.

(** The decoder reads the escape of an ASCII byte back as that byte. *)
Lemma string_body_escape (c : ascii) (fuel : nat) (rest t r' : string) :
  (nat_of_ascii c <? 128)%nat = true ->
  json.string_body fuel rest = Some (t, r') ->
  json.string_body (S fuel)
    (json.encode_runes 1 (String c EmptyString) +:+ rest)
  = Some (String c t, r').
Proof.
  intros Hc H.
  destruct c as [[] [] [] [] [] [] [] []]; try discriminate Hc;
    simpl; rewrite H; reflexivity.
Qed.

Lemma escape_no_percent (c : ascii) :
  (nat_of_ascii c <? 128)%nat = true -> Ascii.eqb c "%" = false ->
  Go.ContainsByte (json.encode_runes 1 (String c EmptyString)) "%" = false.
Proof.
  intros Hc Hp.
  destruct c as [[] [] [] [] [] [] [] []]; try discriminate Hc;
    try discriminate Hp; reflexivity.
Qed.

Lemma escape_length (c : ascii) :
  (nat_of_ascii c <? 128)%nat = true ->
  (1 <= String.length (json.encode_runes 1 (String c EmptyString)))%nat.
Proof.
  intros Hc.
  destruct c as [[] [] [] [] [] [] [] []]; try discriminate Hc; simpl; lia.
Qed.

Lemma encode_runes_ascii (b : string) :
  forall fuel : nat,
    ascii_only b = true -> (String.length b <= fuel)%nat ->
    (String.length b <= String.length (json.encode_runes fuel b))%nat
    /\ (Go.ContainsByte b "%" = false ->
        Go.ContainsByte (json.encode_runes fuel b) "%" = false)
    /\ forall (fuel' : nat) (rest : string),
         (String.length b < fuel')%nat ->
         json.string_body fuel'
           (json.encode_runes fuel b +:+ String Go.dq rest)
         = Some (b, rest).
Proof.
  induction b as [|c b IH]; intros fuel Ha Hlen.
  - destruct fuel; (split; [cbn; lia | split; [reflexivity |]]);
      intros [|fuel'] rest Hf; cbn in Hf; try lia; reflexivity.
  - destruct fuel as [|fuel]; [cbn in Hlen; lia |].
    unfold ascii_only in Ha. cbn [http.all_bytes] in Ha.
    apply andb_true_iff in Ha as [Hc Hb].
    destruct (IH fuel Hb ltac:(cbn in Hlen; lia)) as (I1 & I2 & I3).
    rewrite (encode_runes_cons c b fuel Hc).
    split; [| split].
    + rewrite length_append. pose proof (escape_length c Hc).
      cbn [String.length]. lia.
    + cbn [Go.ContainsByte]. intros Hp.
      apply orb_false_iff in Hp as [Hp1 Hp2].
      rewrite ContainsByte_app, (escape_no_percent c Hc Hp1), (I2 Hp2).
      reflexivity.
    + intros [|fuel'] rest Hf; [cbn in Hf; lia |].
      rewrite append_assoc.
      apply (string_body_escape c fuel' _ b rest Hc).
      apply I3. cbn in Hf. lia.
Qed.

Lemma Marshal_500 (b : string) :
  api.Marshal (api.mkResponse 500 b)
  = Go.requote "{'code':500,'body':'"
    +:+ json.encode_runes (String.length b) b +:+ Go.requote "'}".
Proof.
  unfold api.Marshal, json.Marshal_string. cbn [api.Code api.Body].
  change (strconv.Itoa 500) with "500".
  cbn. now rewrite !append_assoc.
Qed.

(** X17.  An error response whose text is ASCII and holds no percent sign
    reaches the caller as written by [json.Marshal]: the format-string pass
    changes nothing, and the body decodes to an object with the code 500
    and the text itself, whatever quotes, backslashes, control bytes or
    angle brackets the text holds. *)
Theorem error_response_is_json (ctx : trace.Context) (b : string) :
  ascii_only b = true -> Go.ContainsByte b "%" = false ->
  let w := api.doStdResponse ctx (api.mkResponse 500 b)
             http.newResponseWriter in
  http.rw_body w = api.Marshal (api.mkResponse 500 b)
  /\ json.parse (http.rw_body w)
     = Some (json.Object [("code", json.Number "500"); ("body", json.Str b)]).
Proof.
  intros Ha Hp. cbv zeta.
  destruct (encode_runes_ascii b (String.length b) Ha (Nat.le_refl _))
    as (Hlen & Hnp & Hread).
  specialize (Hnp Hp).
  assert (Hbody : http.rw_body
                    (api.doStdResponse ctx (api.mkResponse 500 b)
                       http.newResponseWriter)
                  = api.Marshal (api.mkResponse 500 b)).
  { unfold api.doStdResponse, fmt.Sprintf.
    cbn [http.Write http.WriteHeader http.set_header
         http.newResponseWriter http.rw_body http.rw_status http.rw_header
         http.rw_sent_header].
    rewrite doPrintf_no_verb; [reflexivity | apply Nat.le_refl |].
    rewrite Marshal_500, !ContainsByte_app, Hnp. reflexivity. }
  split; [exact Hbody |]. rewrite Hbody, Marshal_500.
  set (E := json.encode_runes (String.length b) b) in *.
  let p := eval vm_compute in (Go.requote "{'code':500,'body':'") in
  change (Go.requote "{'code':500,'body':'") with p.
  let p := eval vm_compute in (Go.requote "'}") in
  change (Go.requote "'}") with p.
  unfold json.parse.
  match goal with
  | |- context [json.value ?f _] =>
      assert (Hfuel : exists f', f = S (S (S (S f')))) by
        (exists (f - 4)%nat; cbn [String.append String.length]; lia);
      destruct Hfuel as [f' ->]
  end.
  clearbody E. simpl.
  match goal with
  | |- context [json.string_body ?f ?s] =>
      replace (json.string_body f s) with (Some (b, "}"))
        by (symmetry; apply Hread; rewrite length_append;
            cbn [String.length]; lia)
  end.
  reflexivity.
Qed.

Lemma error_response_is_json_witness :
  json.parse
    (http.rw_body
       (api.doStdResponse trace.Background
          (api.mkResponse 500 "invalid <key>")
          http.newResponseWriter))
  = Some (json.Object [("code", json.Number "500");
                       ("body", json.Str "invalid <key>")]).
Proof.
  apply (error_response_is_json trace.Background "invalid <key>");
    reflexivity.
Defined.

(** ** The upstream URL of a path without query *)

Lemma has_suffix_byte_absent (s : string) (c : ascii) :
  Go.ContainsByte s c = false -> url.has_suffix_byte s c = false.
Proof.
  intros H. destruct (url.has_suffix_byte s c) eqn:E; [| reflexivity].
  apply has_suffix_byte_count in E.
  rewrite (count_byte_absent _ _ H) in E. lia.
Qed.

Lemma Parse_plain_path (p : string) :
  plain_path p = true ->
  url.Parse (handler.PROXY_URL +:+ p)
  = Ok (url.mkURL "https" upstream_host p EmptyString false EmptyString
          EmptyString EmptyString).
Proof.
  intros Hp. apply andb_true_iff in Hp as [Hslash Hp].
  destruct (plain_bytes p Hp) as (P1 & P2 & P3 & P4 & P5).
  unfold url.Parse.
  rewrite Cut_no_sep by (rewrite ContainsByte_app, P1; reflexivity).
  rewrite CTL_app, P3.
  change (url.stringContainsCTLByte handler.PROXY_URL) with false.
  cbn [orb].
  destruct (proxy_prefix p) as [Hpre Hrest].
  rewrite Hpre, Hrest. cbn [negb].
  assert (Hhost : Go.ContainsByte (upstream_host +:+ p) "?" = false)
    by (rewrite ContainsByte_app, P2; reflexivity).
  rewrite (has_suffix_byte_absent _ _ Hhost). cbn [andb].
  rewrite (Cut_no_sep _ _ Hhost).
  rewrite split_authority_app by (reflexivity || assumption).
  rewrite P4, P5, String.eqb_refl. reflexivity.
Qed.

Lemma Encode_key_only (cred : string) :
  url.Values_Encode (rewritten (url.ParseQuery EmptyString) cred)
  = "key=" +:+ url.QueryEscape cred.
Proof.
  unfold rewritten, url.Values_Set, url.Values_Del.
  change (url.ParseQuery EmptyString) with (∅ : url.Values).
  rewrite delete_empty. unfold url.Values_Encode.
  rewrite insert_empty, map_to_list_singleton.
  cbn [map fst url.sort_strings fold_right url.insert_sorted flat_map].
  unfold url.encodeKey. rewrite lookup_singleton_eq.
  cbn [default map app Go.Join]. reflexivity.
Qed.

(** X18.  A path without query: the upstream URL is the origin, the path,
    and the key as the only parameter, percent-encoded as a query
    component; and a path followed by a bare question mark gives the same
    URL. *)
Theorem target_url_without_query (p cred : string) :
  plain_path p = true ->
  handler.targetURL p cred
  = Ok (handler.PROXY_URL +:+ p +:+ "?key=" +:+ url.QueryEscape cred)
  /\ handler.targetURL (p +:+ "?") cred = handler.targetURL p cred.
Proof.
  intros Hp.
  assert (H1 : handler.targetURL p cred
               = Ok (handler.PROXY_URL +:+ p +:+ "?key="
                     +:+ url.QueryEscape cred)).
  { unfold handler.targetURL. rewrite (Parse_plain_path p Hp). cbv zeta.
    unfold url.Query. cbn [url.RawQuery].
    fold (rewritten (url.ParseQuery EmptyString) cred).
    rewrite Encode_key_only.
    apply andb_true_iff in Hp as [Hslash Hb].
    destruct (plain_bytes p Hb) as (_ & _ & _ & _ & P5).
    destruct p as [|c p]; [discriminate Hslash |].
    cbn [String.prefix] in Hslash.
    destruct (Ascii.ascii_dec "/" c) as [<-|]; [| discriminate Hslash].
    f_equal. unfold url.String_, url.with_RawQuery, url.EscapedPath.
    cbn [url.Scheme url.Host url.Path url.RawPath url.ForceQuery url.RawQuery
         url.Fragment url.RawFragment].
    rewrite P5. unfold handler.PROXY_URL, upstream_host. cbn.
    rewrite ?append_nil_r. reflexivity. }
  split; [exact H1 |]. rewrite H1.
  replace (p +:+ "?") with (p +:+ "?" +:+ EmptyString)
    by (now rewrite append_nil_r).
  rewrite (targetURL_plain p EmptyString cred Hp eq_refl).
  rewrite Encode_key_only. reflexivity.
Qed.

Lemma target_url_without_query_witness :
  handler.targetURL "/v1beta/models" "a b&c"
  = Ok "https://generativelanguage.googleapis.com/v1beta/models?key=a+b%26c".
Proof.
  destruct (target_url_without_query "/v1beta/models" "a b&c") as [H _];
    [reflexivity | exact H].
Defined.
